(** * pyDIFRATE/tools/DRtools.py: detector-response tools

    A shallow embedding of the numerical core of [DRtools.py]
    ([linear_ex], [dict2list], [sens_sign_check], [corr_SVD_switching],
    [avg_data], [append_data], [prod_mat], [calc_prod]) and the
    properties of that code stated in the specification.

    Layout:
    - [Py]        exceptions, printed messages and the small
                  error-and-output monad in which the functions run;
    - [B64]       binary64 helpers (numpy's float64 and int64 casts);
    - [LinearEx]  [linear_ex] on one-dimensional float64 data;
    - [Num]       the scalar interface the array code is generic in, with
                  the binary64 and the real-number instances;
    - [Nd]        n-dimensional arrays (shape and C-ordered data);
    - [DR]        the response-set functions on values;
    - [Heap]      the same functions over a store of objects and array
                  buffers, for the statements about what a call mutates;
    - [Labels]    the label classes [Default2Parent], [NiceStr] and
                  [Strings] over the objects they create and share. *)

From Stdlib Require Import ZArith List Floats Uint63 Reals Lra Lia Bool Ascii String.
From stdpp Require Import base option list gmap strings pretty.
Import ListNotations.

Set Warnings "-inexact-float".

(* ===================================================================== *)
(** * Python effects: exceptions and printed output *)
(* ===================================================================== *)

Module Py.

(** The exceptions the modelled code can raise. *)
Inductive exn :=
| AssertionError
| IndexError
| ValueError
| TypeError
| AttributeError
| ZeroDivisionError
| AxisError
| LinAlgError
| OverflowError.

(** What the functions [print]. Each constructor stands for one format
    string of the source:
    - [WarnDeepCopy]     'Warning: deep copy failed'
    - [WarnDisagree k]   'Sensitivities disagree for the {}th data object'
    - [WarnShape k]      'Sensitivity shapes or ranges do not match for
                          the {}th data object'
    - [WarnOmitted f]    'Warning: Data sizes for "{0}" do not match and
                          have been omitted'
    - [MsgNeedFrames]    'If a list of data is not provided, then the
                          number of frames must be given' *)
Inductive msg :=
| WarnDeepCopy
| WarnDisagree (k : nat)
| WarnShape (k : nat)
| WarnOmitted (f : string)
| MsgNeedFrames.

(** The result of running a statement: it returns or it raises. *)
Inductive outcome (A : Type) :=
| Ok (a : A)
| Raise (e : exn).
Arguments Ok {A} a.
Arguments Raise {A} e.

(** A computation: what was printed (oldest first) and how it ended. *)
Definition M (A : Type) : Type := list msg * outcome A.

Definition ret {A} (a : A) : M A := ([], Ok a).
Definition raise {A} (e : exn) : M A := ([], Raise e).
Definition print (m : msg) : M unit := ([m], Ok tt).

Definition bind {A B} (m : M A) (k : A -> M B) : M B :=
  match m with
  | (out, Ok a) => let (out', r) := k a in (out ++ out', r)
  | (out, Raise e) => (out, Raise e)
  end.

(** [try: body except: handler] with a bare [except]. *)
Definition try_except {A} (body : M A) (handler : M A) : M A :=
  match body with
  | (out, Ok a) => (out, Ok a)
  | (out, Raise _) => let (out', r) := handler in (out ++ out', r)
  end.

(** [assert c]. *)
Definition py_assert (c : bool) : M unit :=
  if c then ret tt else raise AssertionError.

(** Lifting of partial look-ups. *)
Definition lift {A} (e : exn) (o : option A) : M A :=
  match o with Some a => ret a | None => raise e end.

Definition printed {A} (m : M A) : list msg := fst m.
Definition result {A} (m : M A) : outcome A := snd m.

Definition returns {A} (m : M A) (a : A) : Prop := result m = Ok a.
Definition raises {A} (m : M A) : Prop := exists e, result m = Raise e.

(** A [for] loop over a list with an accumulator. *)
Fixpoint for_each {A St} (l : list A) (s : St) (body : St -> A -> M St) : M St :=
  match l with
  | [] => ret s
  | a :: l' => bind (body s a) (fun s' => for_each l' s' body)
  end.

(** [for k, a in enumerate(l)]. *)
Fixpoint for_enum_from {A St} (k : nat) (l : list A) (s : St)
         (body : St -> nat -> A -> M St) : M St :=
  match l with
  | [] => ret s
  | a :: l' => bind (body s k a) (fun s' => for_enum_from (S k) l' s' body)
  end.
Definition for_enum {A St} := @for_enum_from A St 0.

(** [[f(a) for a in l]] with a fallible [f]. *)
Fixpoint map_m {A B} (f : A -> M B) (l : list A) : M (list B) :=
  match l with
  | [] => ret []
  | a :: l' => bind (f a) (fun b => bind (map_m f l') (fun bs => ret (b :: bs)))
  end.

End Py.

Import Py.

Declare Scope py_scope.
Delimit Scope py_scope with py.
Notation "'let!' x ':=' m 'in' k" := (Py.bind m (fun x => k))
  (at level 10, x name, m at level 100, k at level 200, only parsing) : py_scope.
Notation "'let!' ' p ':=' m 'in' k" :=
  (Py.bind m (fun x => match x with p => k end))
  (at level 10, p pattern, m at level 100, k at level 200, only parsing) : py_scope.
Notation "'do!' m 'in' k" := (Py.bind m (fun _ => k))
  (at level 10, m at level 100, k at level 200, only parsing) : py_scope.
Open Scope py_scope.

(** Python's [seq[i]] for an integer [i]: negative indices count from the
    end, anything outside the sequence is an [IndexError]. *)
Definition py_index (n : nat) (i : Z) : option nat :=
  if (0 <=? i)%Z then
    (if (i <? Z.of_nat n)%Z then Some (Z.to_nat i) else None)
  else
    (if (- Z.of_nat n <=? i)%Z then Some (Z.to_nat (Z.of_nat n + i)) else None).

Definition py_get {A} (l : list A) (i : Z) : M A :=
  match py_index (length l) i with
  | Some k => lift IndexError (nth_error l k)
  | None => raise IndexError
  end.

(** [l[i] = v] for a list or a one-dimensional array. *)
Definition py_set {A} (l : list A) (i : Z) (v : A) : M (list A) :=
  match py_index (length l) i with
  | Some k => ret (firstn k l ++ v :: skipn (S k) l)
  | None => raise IndexError
  end.

(** [str.lower()] on the ASCII range; every other byte is left as it is
    (no character outside ASCII lower-cases to a letter of 'last_slope'). *)
Definition lower_ascii (c : ascii) : ascii :=
  let n := nat_of_ascii c in
  if (65 <=? n)%nat && (n <=? 90)%nat then ascii_of_nat (n + 32) else c.

Fixpoint lower (s : string) : string :=
  match s with
  | EmptyString => EmptyString
  | String c s' => String (lower_ascii c) (lower s')
  end.

(* ===================================================================== *)
(** * binary64: numpy's float64, and its casts from and to int64 *)
(* ===================================================================== *)

Module B64.

Definition int64_min : Z := (- 2 ^ 63)%Z.

(** Two's-complement wrap-around of an int64 result. *)
Definition wrap64 (z : Z) : Z := ((z + 2 ^ 63) mod 2 ^ 64 - 2 ^ 63)%Z.

(** int64 to float64, rounded to nearest as the hardware conversion. *)
Definition of_int64 (z : Z) : float :=
  if (z =? int64_min)%Z then (-0x1p63)%float
  else if (z <? 0)%Z then (- PrimFloat.of_uint63 (Uint63.of_Z (- z)))%float
  else PrimFloat.of_uint63 (Uint63.of_Z z).

(** A float64 number stored into an element of an int64 array: numpy
    converts it as Python's [int()] does, truncating toward zero. NaN is
    a [ValueError]; an infinity, and a value outside of int64, an
    [OverflowError]. *)
Definition to_int64 (f : float) : M Z :=
  match Prim2SF f with
  | S754_zero _ => ret 0%Z
  | S754_finite s m e =>
      let a := Z.shiftl (Z.pos m) e in
      let z := if s then (- a)%Z else a in
      if (int64_min <=? z)%Z && (z <? 2 ^ 63)%Z then ret z else raise OverflowError
  | S754_nan => raise ValueError
  | S754_infinity _ => raise OverflowError
  end.

(** [ndarray.min()] and [ndarray.max()]: a NaN in the array is the result;
    an empty array is a [ValueError]. *)
Definition fmin (acc v : float) : float :=
  if PrimFloat.is_nan acc then acc
  else if PrimFloat.is_nan v then v
  else if (v <? acc)%float then v else acc.

Definition fmax (acc v : float) : float :=
  if PrimFloat.is_nan acc then acc
  else if PrimFloat.is_nan v then v
  else if (acc <? v)%float then v else acc.

Definition np_min (l : list float) : M float :=
  match l with
  | [] => raise ValueError
  | a :: l' => ret (fold_left fmin l' a)
  end.

Definition np_max (l : list float) : M float :=
  match l with
  | [] => raise ValueError
  | a :: l' => ret (fold_left fmax l' a)
  end.

(** [np.diff] of a one-dimensional array. *)
Definition diff (l : list float) : list float :=
  match l with
  | [] => []
  | _ :: t => map (fun p => (fst p - snd p)%float) (combine t l)
  end.

(** The order numpy sorts and searches by: NaN after every number. *)
Definition np_lt (a b : float) : bool :=
  (a <? b)%float || (PrimFloat.is_nan b && negb (PrimFloat.is_nan a)).

(** [check_array_monotonic] of numpy's [_monotonicity]: 1 for
    non-decreasing bins (also when all are equal), -1 for non-increasing
    ones, 0 otherwise. *)
Fixpoint skip_equal (last : float) (a : list float) : list float :=
  match a with
  | [] => []
  | b :: t => if (b =? last)%float then skip_equal last t else a
  end.

Fixpoint never_down (last : float) (a : list float) : bool :=
  match a with
  | [] => true
  | next :: t => if (next <? last)%float then false else never_down next t
  end.

Fixpoint never_up (last : float) (a : list float) : bool :=
  match a with
  | [] => true
  | next :: t => if (last <? next)%float then false else never_up next t
  end.

Definition monotonicity (a : list float) : Z :=
  match a with
  | [] => 1
  | last :: t =>
      match skip_equal last t with
      | [] => 1
      | next :: t' =>
          if (last <? next)%float
          then (if never_down next t' then 1 else 0)
          else (if never_up next t' then -1 else 0)
      end
  end%Z.

(** [np.searchsorted(bins, v, side)] on sorted bins: the binary search
    returns the length of the prefix of bins that are [<= v] (side
    'right') or [< v] (side 'left'). *)
Fixpoint searchsorted_right (bins : list float) (v : float) : nat :=
  match bins with
  | [] => 0
  | b :: t => if np_lt v b then 0 else S (searchsorted_right t v)
  end.

Fixpoint searchsorted_left (bins : list float) (v : float) : nat :=
  match bins with
  | [] => 0
  | b :: t => if np_lt b v then S (searchsorted_left t v) else 0
  end.

(** [np.digitize(x, bins)] (right=False): the search is by side 'right',
    for decreasing bins on the reversed bins, with the result inverted. *)
Definition digitize (x bins : list float) : M (list Z) :=
  let mono := monotonicity bins in
  if (mono =? 0)%Z then raise ValueError
  else if (mono =? -1)%Z then
    ret (map (fun v => (Z.of_nat (length bins)
                        - Z.of_nat (searchsorted_right (rev bins) v))%Z) x)
  else ret (map (fun v => Z.of_nat (searchsorted_right bins v)) x).

End B64.

(* ===================================================================== *)
(** * [linear_ex]: piecewise-linear interpolation and extrapolation *)
(* ===================================================================== *)

(** The model covers one-dimensional [I0] (of dtype int64 or float64, as
    [np.array(I0)] makes it from a list of Python ints or floats),
    float64 sample coordinates [x0] (a list of ints is promoted to float64
    when it first meets the float64 queries) and a float64 scalar or
    one-dimensional [x]. *)
Module LinearEx.
Import B64.

(** [I0] after [np.array(I0)]. *)
Inductive values :=
| IntArr (l : list Z)
| FltArr (l : list float).

(** One element read from [I0]. *)
Inductive num :=
| NInt (z : Z)
| NFlt (f : float).

(** The query [x]: [np.ndim(x)] is 0 or 1. *)
Inductive query :=
| QScalar (v : float)
| QVec (l : list float).

Inductive answer :=
| AScalar (v : float)
| AVec (l : list float).

Definition values_len (I0 : values) : nat :=
  match I0 with IntArr l => length l | FltArr l => length l end.

Definition values_rev (I0 : values) : values :=
  match I0 with IntArr l => IntArr (rev l) | FltArr l => FltArr (rev l) end.

Definition val_get (I0 : values) (i : Z) : M num :=
  match I0 with
  | IntArr l => let! z := py_get l i in ret (NInt z)
  | FltArr l => let! f := py_get l i in ret (NFlt f)
  end.

(** Promotion of an element to float64 in mixed arithmetic. *)
Definition num_to_f (a : num) : float :=
  match a with NInt z => of_int64 z | NFlt f => f end.

(** [a - b] for two elements of the same array. *)
Definition num_sub (a b : num) : num :=
  match a, b with
  | NInt x, NInt y => NInt (wrap64 (x - y))
  | _, _ => NFlt (num_to_f a - num_to_f b)%float
  end.

(** [I0[i] = v] for a float64 [v]: an int64 array truncates it. *)
Definition val_set (I0 : values) (i : Z) (v : float) : M values :=
  match I0 with
  | IntArr l => let! z := to_int64 v in let! l' := py_set l i z in ret (IntArr l')
  | FltArr l => let! l' := py_set l i v in ret (FltArr l')
  end.

(** [I0[i] = I0[j]]. *)
Definition val_copy (I0 : values) (i j : Z) : M values :=
  match I0 with
  | IntArr l => let! z := py_get l j in let! l' := py_set l i z in ret (IntArr l')
  | FltArr l => let! f := py_get l j in let! l' := py_set l i f in ret (FltArr l')
  end.

(** [np.insert(I0, 0, np.zeros(()), axis=0)]: the dtype of [I0] is kept. *)
Definition insert_zero (I0 : values) : values :=
  match I0 with
  | IntArr l => IntArr (0%Z :: l)
  | FltArr l => FltArr (0%float :: l)
  end.

(** [np.concatenate((I0, [np.zeros(())]), axis=0)]: the result is float64. *)
Definition append_zero (I0 : values) : values :=
  match I0 with
  | IntArr l => FltArr (map of_int64 l ++ [0%float])
  | FltArr l => FltArr (l ++ [0%float])
  end.

Definition atleast_1d (x : query) : list float :=
  match x with QScalar v => [v] | QVec l => l end.

Definition ndim (x : query) : nat :=
  match x with QScalar _ => 0 | QVec _ => 1 end.

(** [A.swapaxes(0, dim)] of a one-dimensional array. *)
Definition swapaxes0 {A} (a : A) (dim : Z) : M A :=
  if (-1 <=? dim)%Z && (dim <=? 0)%Z then ret a else raise AxisError.

Definition is_last_slope (mode : string) : bool :=
  String.eqb (lower mode) "last_slope".

(** The block under [if x.min()<=x0[0]:]. *)
Definition pad_low (mode : string) (xmin : float) (x0 : list float) (I0 : values)
  : M (list float * values) :=
  let I0 := insert_zero I0 in
  let x0 := (xmin - 1)%float :: x0 in
  if is_last_slope mode then
    let! x02 := py_get x0 2 in
    let! x01 := py_get x0 1 in
    let run := (x02 - x01)%float in
    let! i2 := val_get I0 2 in
    let! i1 := val_get I0 1 in
    let rise := num_sub i2 i1 in
    let slope := (num_to_f rise / run)%float in
    let! x00 := py_get x0 0 in
    let! I0 := val_set I0 0 (num_to_f i1 - slope * (x01 - x00))%float in
    ret (x0, I0)
  else
    let! I0 := val_copy I0 0 1 in
    ret (x0, I0).

(** The block under [if x.max()>=x0[-1]:]. *)
Definition pad_high (mode : string) (xmax : float) (x0 : list float) (I0 : values)
  : M (list float * values) :=
  let I0 := append_zero I0 in
  let x0 := x0 ++ [(xmax + 1)%float] in
  if is_last_slope mode then
    let! x03 := py_get x0 (-3) in
    let! x02 := py_get x0 (-2) in
    let run := (x03 - x02)%float in
    let! i3 := val_get I0 (-3) in
    let! i2 := val_get I0 (-2) in
    let rise := num_sub i3 i2 in
    let slope := (num_to_f rise / run)%float in
    let! x01 := py_get x0 (-1) in
    let! I0 := val_set I0 (-1) (num_to_f i2 - slope * (x02 - x01))%float in
    ret (x0, I0)
  else
    let! I0 := val_copy I0 (-1) (-2) in
    ret (x0, I0).

(** One entry of
    [(I0[i-1].T*(x0[i]-x)+I0[i].T*(x-x0[i-1]))/(x0[i]-x0[i-1])]. *)
Definition interpolate1 (x0 : list float) (I0 : values) (xi : float * Z) : M float :=
  let '(x, i) := xi in
  let! a := val_get I0 (i - 1) in
  let! x0i := py_get x0 i in
  let! b := val_get I0 i in
  let! x0p := py_get x0 (i - 1) in
  ret ((num_to_f a * (x0i - x) + num_to_f b * (x - x0p)) / (x0i - x0p))%float.

Definition linear_ex (x0 : list float) (I0 : values) (x : query)
           (dim : option Z) (mode : string) : M answer :=
  do! py_assert (forallb (fun d => (0 <=? d)%float) (diff x0)
                 || forallb (fun d => (d <=? 0)%float) (diff x0)) in
  let nd := ndim x in
  let x := atleast_1d x in
  let! dim :=
    match dim with
    | None =>
        (* i=np.argwhere(x0.size==np.array(I0.shape)).squeeze() *)
        do! py_assert (length x0 =? values_len I0)%nat in
        ret 0%Z
    | Some d => ret d
    end in
  let! I0 := swapaxes0 I0 dim in
  let '(x0, I0) :=
    if existsb (fun d => (d <? 0)%float) (diff x0)
    then (rev x0, values_rev I0) else (x0, I0) in
  let! xmin := np_min x in
  let! first := py_get x0 0 in
  let! '(x0, I0) :=
    if (xmin <=? first)%float then pad_low mode xmin x0 I0 else ret (x0, I0) in
  let! xmax := np_max x in
  let! last := py_get x0 (-1) in
  let! '(x0, I0) :=
    if (last <=? xmax)%float then pad_high mode xmax x0 I0 else ret (x0, I0) in
  let! i := digitize x x0 in
  let! I := map_m (interpolate1 x0 I0) (combine x i) in
  match nd with
  | 0 => let! v := py_get I 0 in ret (AScalar v)
  | _ => let! I := swapaxes0 I dim in ret (AVec I)
  end.

End LinearEx.

(* ===================================================================== *)
(** * Scalars: what the array code needs of its numbers *)
(* ===================================================================== *)

Module Num.

(** The array code is written once, over this interface. numpy runs it on
    binary64 ([b64] below); the statements of the specification that are
    about exact arithmetic are read on the real numbers ([reals]). *)
Class Scalar (F : Type) := {
  zero : F;
  one : F;
  add : F -> F -> F;
  sub : F -> F -> F;
  mul : F -> F -> F;
  div : F -> F -> F;
  sqrt : F -> F;
  abs : F -> F;
  (** [np.sign] *)
  sign : F -> F;
  (** [np.isnan] *)
  is_nan : F -> bool;
  eqb : F -> F -> bool;
  ltb : F -> F -> bool;
  (** a Python int (a count or a [shape] entry) as a number *)
  of_nat : nat -> F;
  (** the literal [1e-3] *)
  tol : F;
}.

(** numpy's float64. *)
#[export] Instance b64 : Scalar float := {
  zero := 0%float;
  one := 1%float;
  add := PrimFloat.add;
  sub := PrimFloat.sub;
  mul := PrimFloat.mul;
  div := PrimFloat.div;
  sqrt := PrimFloat.sqrt;
  abs := PrimFloat.abs;
  sign x :=
    if (0 <? x)%float then 1%float
    else if (x <? 0)%float then (-1)%float
    else if (x =? 0)%float then 0%float else x;
  is_nan := PrimFloat.is_nan;
  eqb := PrimFloat.eqb;
  ltb := PrimFloat.ltb;
  of_nat n := B64.of_int64 (Z.of_nat n);
  tol := 0x1.0624dd2f1a9fcp-10%float;
}.

(** The real numbers: the same code without rounding and without NaN. *)
#[export] Instance reals : Scalar R := {
  zero := 0%R;
  one := 1%R;
  add := Rplus;
  sub := Rminus;
  mul := Rmult;
  div := Rdiv;
  sqrt := R_sqrt.sqrt;
  abs := Rabs;
  sign x :=
    if Rlt_dec 0 x then 1%R else if Rlt_dec x 0 then (-1)%R else 0%R;
  is_nan _ := false;
  eqb x y := if Req_dec_T x y then true else false;
  ltb x y := if Rlt_dec x y then true else false;
  of_nat := INR;
  tol := (1 / 1000)%R;
}.

End Num.

Import Num.

Declare Scope num_scope.
Delimit Scope num_scope with num.
Infix "+" := Num.add : num_scope.
Infix "-" := Num.sub : num_scope.
Infix "*" := Num.mul : num_scope.
Infix "/" := Num.div : num_scope.
Infix "=?" := Num.eqb : num_scope.
Infix "<?" := Num.ltb : num_scope.

(* ===================================================================== *)
(** * n-dimensional arrays *)
(* ===================================================================== *)

Module Nd.

(** A numpy array as a value: its shape and its elements in C order.
    A Python scalar is the array of shape [()]. *)
Record ndarray (A : Type) := mk_nd { shape : list nat; data : list A }.
Arguments mk_nd {A} shape data.
Arguments shape {A} n.
Arguments data {A} n.

(** [np.prod] of a shape. *)
Definition prod (s : list nat) : nat := fold_right Nat.mul 1 s.

Definition size {A} (a : ndarray A) : nat := prod (shape a).
Definition ndim {A} (a : ndarray A) : nat := length (shape a).

(** An array holds as many elements as its shape says. *)
Definition wf {A} (a : ndarray A) : bool := (length (data a) =? size a)%nat.

Definition scalar {A} (x : A) : ndarray A := mk_nd [] [x].
Definition vector {A} (l : list A) : ndarray A := mk_nd [length l] l.

(** [m] consecutive pieces of [k] elements each. *)
Fixpoint chunks {A} (m k : nat) (l : list A) : list (list A) :=
  match m with
  | 0 => []
  | S m' => firstn k l :: chunks m' k (skipn k l)
  end.

(** The rows of a matrix, and the sub-arrays along the first axis of any
    array ([for row in a]). *)
Definition blocks {A} (a : ndarray A) : list (list A) :=
  match shape a with
  | [] => []
  | n :: rest => chunks n (prod rest) (data a)
  end.

(** [a.shape[i]] *)
Definition shape_at {A} (a : ndarray A) (i : Z) : M nat := py_get (shape a) i.

Definition map {A B} (f : A -> B) (a : ndarray A) : ndarray B :=
  mk_nd (shape a) (List.map f (data a)).

Definition shape_eqb (s t : list nat) : bool :=
  if decide (s = t) then true else false.

(** ** Broadcasting *)

(** A shape padded on the left with ones to [n] axes. *)
Definition pad_shape (n : nat) (s : list nat) : list nat :=
  repeat 1 (n - length s) ++ s.

(** The common shape of two shapes with the same number of axes. *)
Fixpoint bshape (s t : list nat) : option (list nat) :=
  match s, t with
  | [], [] => Some []
  | a :: s', b :: t' =>
      match bshape s' t' with
      | Some r =>
          if (a =? b)%nat then Some (a :: r)
          else if (a =? 1)%nat then Some (b :: r)
          else if (b =? 1)%nat then Some (a :: r)
          else None
      | None => None
      end
  | _, _ => None
  end.

(** The elements of an array of shape [s] repeated to fill shape [t] (an
    axis of length 1 is stretched). *)
Fixpoint expand {A} (t s : list nat) (d : list A) : list A :=
  match t, s with
  | n :: t', m :: s' =>
      if (m =? n)%nat
      then concat (List.map (expand t' s') (chunks m (prod s') d))
      else concat (repeat (expand t' s' d) n)
  | _, _ => d
  end.

(** [np.broadcast_to(a, t)] when [a] has no more axes than [t]. *)
Definition broadcast_to {A} (t : list nat) (a : ndarray A) : list A :=
  expand t (pad_shape (length t) (shape a)) (data a).

(** An elementwise binary operator with numpy's broadcasting. *)
Definition zip_with {A B C} (f : A -> B -> C) (a : ndarray A) (b : ndarray B)
  : M (ndarray C) :=
  let n := Nat.max (ndim a) (ndim b) in
  match bshape (pad_shape n (shape a)) (pad_shape n (shape b)) with
  | Some t =>
      ret (mk_nd t (List.map (fun p => f (fst p) (snd p))
                             (combine (broadcast_to t a) (broadcast_to t b))))
  | None => raise ValueError
  end.

(** ** Shape manipulation *)

(** [a.reshape(s)] *)
Definition reshape {A} (s : list nat) (a : ndarray A) : M (ndarray A) :=
  if (prod s =? size a)%nat then ret (mk_nd s (data a)) else raise ValueError.

(** [np.squeeze(a)] *)
Definition squeeze {A} (a : ndarray A) : ndarray A :=
  mk_nd (List.filter (fun n => negb (n =? 1)%nat) (shape a)) (data a).

(** [np.atleast_2d(a)] *)
Definition atleast_2d {A} (a : ndarray A) : ndarray A :=
  match shape a with
  | [] => mk_nd [1; 1] (data a)
  | [n] => mk_nd [1; n] (data a)
  | _ => a
  end.

(** The transpose of [rows], each of [c] elements. *)
Fixpoint transpose_rows {A} (c : nat) (rows : list (list A)) : list (list A) :=
  match c with
  | 0 => []
  | S c' => omap head rows :: transpose_rows c' (List.map tail rows)
  end.

(** [a.T]: the axes in reverse order. *)
Fixpoint transpose_data {A} (s : list nat) (d : list A) : list A :=
  match s with
  | [] => d
  | n :: rest =>
      concat (transpose_rows (prod rest)
                (List.map (transpose_data rest) (chunks n (prod rest) d)))
  end.

Definition transpose {A} (a : ndarray A) : ndarray A :=
  mk_nd (rev (shape a)) (transpose_data (shape a) (data a)).

(** [np.concatenate(l, axis=0)]: at least one array, none of them
    zero-dimensional, all with the same shape after the first axis. *)
Definition concatenate {A} (l : list (ndarray A)) : M (ndarray A) :=
  match l with
  | [] => raise ValueError
  | a :: _ =>
      match shape a with
      | [] => raise ValueError
      | _ :: rest =>
          if forallb (fun b => match shape b with
                               | [] => false
                               | _ :: rest' => shape_eqb rest rest'
                               end) l
          then ret (mk_nd (list_sum (List.map (fun b => hd 0 (shape b)) l) :: rest)
                          (concat (List.map data l)))
          else raise ValueError
      end
  end.

(** [np.array(l)] of a list of arrays: a new first axis. Arrays of unequal
    shapes are refused (numpy >= 1.24; older versions built an array of
    objects instead). *)
Definition np_array {A} (l : list (ndarray A)) : M (ndarray A) :=
  match l with
  | [] => ret (mk_nd [0] [])
  | a :: _ =>
      if forallb (fun b => shape_eqb (shape a) (shape b)) l
      then ret (mk_nd (length l :: shape a) (concat (List.map data l)))
      else raise ValueError
  end.

(** [a[lo:hi]] for [0 <= lo]: the slice bounds are clipped to the axis. *)
Definition slice_rows {A} (lo hi : nat) (a : ndarray A) : M (ndarray A) :=
  match shape a with
  | [] => raise IndexError
  | n :: rest =>
      let hi := Nat.min hi n in
      let lo := Nat.min lo hi in
      ret (mk_nd ((hi - lo) :: rest)
                 (firstn ((hi - lo) * prod rest) (skipn (lo * prod rest) (data a))))
  end.

(** Every [step]-th element, starting with the first. *)
Fixpoint every_aux {A} (step skip : nat) (l : list A) : list A :=
  match l with
  | [] => []
  | x :: t =>
      match skip with
      | 0 => x :: every_aux step (step - 1) t
      | S k => every_aux step k t
      end
  end.
Definition every {A} (step : nat) (l : list A) : list A := every_aux step 0 l.

(** [a[:, ::step]]: too few axes is an [IndexError], a zero step a
    [ValueError]. *)
Definition stride_cols {A} (step : Z) (a : ndarray A) : M (ndarray A) :=
  match shape a with
  | r :: c :: rest =>
      if (step =? 0)%Z then raise ValueError
      else
        let st := Z.to_nat step in
        let p := prod rest in
        let rows := chunks r (c * p) (data a) in
        let pick row := concat (every st (chunks c p row)) in
        ret (mk_nd (r :: length (every st (seq 0 c)) :: rest)
                   (concat (List.map pick rows)))
  | _ => raise IndexError
  end.

(** [a[[0,-1]]]: the first and the last entry along the first axis. *)
Definition first_last {A} (a : ndarray A) : M (ndarray A) :=
  match shape a with
  | [] => raise IndexError
  | n :: rest =>
      let bs := chunks n (prod rest) (data a) in
      let! b0 := py_get bs 0 in
      let! b1 := py_get bs (-1) in
      ret (mk_nd (2 :: rest) (b0 ++ b1))
  end.

(** [np.repeat(a, n, axis=0)] and [np.repeat(a, n, axis=1)] of a matrix. *)
Definition repeat_axis0 {A} (n : nat) (a : ndarray A) : M (ndarray A) :=
  match shape a with
  | [] => raise AxisError
  | r :: rest =>
      ret (mk_nd (r * n :: rest)
                 (concat (List.map (fun b => concat (repeat b n))
                                   (chunks r (prod rest) (data a)))))
  end.

Definition repeat_axis1 {A} (n : nat) (a : ndarray A) : M (ndarray A) :=
  match shape a with
  | r :: c :: rest =>
      ret (mk_nd (r :: c * n :: rest)
                 (concat (List.map (fun b => concat (repeat b n))
                                   (chunks (r * c) (prod rest) (data a)))))
  | _ => raise AxisError
  end.

(** [x0[index] = x] for a list of integers [index]: [x] is broadcast to
    the shape of [x0[index]], then written entry by entry (a later entry
    of a repeated position wins). *)
Definition scatter {A} (x0 : ndarray A) (index : list Z) (x : ndarray A)
  : M (ndarray A) :=
  match shape x0 with
  | [] => raise IndexError
  | n :: rest =>
      let t := length index :: rest in
      if (ndim x <=? length t)%nat then
        match bshape t (pad_shape (length t) (shape x)) with
        | Some t' =>
            if shape_eqb t t' then
              let vals := chunks (length index) (prod rest) (broadcast_to t x) in
              let! bs := for_each (combine index vals)
                                  (chunks n (prod rest) (data x0))
                                  (fun bs iv => py_set bs (fst iv) (snd iv)) in
              ret (mk_nd (shape x0) (concat bs))
            else raise ValueError
        | None => raise ValueError
        end
      else raise ValueError
  end.

Section Arith.
Context {F : Type} {SF : Scalar F}.

Definition zeros (s : list nat) : ndarray F := mk_nd s (repeat zero (prod s)).

(** [np.ones(n)] *)
Definition ones (n : nat) : ndarray F := mk_nd [n] (repeat one n).

(** [a.sum(axis=0)]; of a zero-dimensional array, its only element. *)
Definition sum0 (a : ndarray F) : M (ndarray F) :=
  match shape a with
  | [] => ret a
  | n :: rest =>
      match chunks n (prod rest) (data a) with
      | [] => ret (zeros rest)
      | b :: bs =>
          ret (mk_nd rest
                 (fold_left (fun acc r =>
                               List.map (fun p => (fst p + snd p)%num) (combine acc r))
                            bs b))
      end
  end.

(** The inner product of two equally long lists, summed left to right. *)
Definition inner (u v : list F) : F :=
  match combine u v with
  | [] => zero
  | p :: ps =>
      fold_left (fun acc q => (acc + fst q * snd q)%num) ps (fst p * snd p)%num
  end.

(** [np.dot(a, b)] for arrays of at most two axes. *)
Definition dot (a b : ndarray F) : M (ndarray F) :=
  match shape a, shape b with
  | [], _ => zip_with mul a b
  | _, [] => zip_with mul a b
  | [n], [m] =>
      if (n =? m)%nat then ret (scalar (inner (data a) (data b)))
      else raise ValueError
  | [n], [m; c] =>
      if (n =? m)%nat
      then ret (mk_nd [c] (List.map (inner (data a))
                                    (transpose_rows c (chunks m c (data b)))))
      else raise ValueError
  | [r; n], [m] =>
      if (n =? m)%nat
      then ret (mk_nd [r] (List.map (fun row => inner row (data b))
                                    (chunks r n (data a))))
      else raise ValueError
  | [r; n], [m; c] =>
      if (n =? m)%nat
      then
        let cols := transpose_rows c (chunks m c (data b)) in
        ret (mk_nd [r; c]
               (concat (List.map (fun row => List.map (inner row) cols)
                                 (chunks r n (data a)))))
      else raise ValueError
  | _, _ => raise ValueError
  end.

(** [_mode1D] of [scipy.stats.mode] as the source counts on it ("we use
    mode, which gets rid of them"): the value that occurs most often,
    the smallest one among equally frequent values; a NaN equals
    nothing, so it is the result only when every entry is NaN. A later
    scipy gives NaN for a row that holds a NaN; [sens_sign_check] makes
    +1 of that. *)
Definition count (a : list F) (v : F) : nat :=
  length (List.filter (fun w => (w =? v)%num) a).

Definition better (a : list F) (v w : F) : bool :=
  (count a w <? count a v)%nat
  || ((count a v =? count a w)%nat && (v <? w)%num).

Definition mode1D (a : list F) : option F :=
  match a with
  | [] => None
  | v :: t => Some (fold_left (fun best w => if better a w best then w else best) t v)
  end.

(** [scipy.stats.mode(a, axis=1)[0]] of a matrix: one mode per row, in
    a column; of an empty matrix, the empty array. *)
Definition mode_axis1 (a : ndarray F) : M (ndarray F) :=
  match shape a with
  | [r; c] =>
      if (r * c =? 0)%nat then ret (mk_nd [0] [])
      else ret (mk_nd [r; 1] (omap mode1D (chunks r c (data a))))
  | _ => raise AxisError
  end.

End Arith.

End Nd.

(* ===================================================================== *)
(** * The response-set functions, on values *)
(* ===================================================================== *)

Module DR.

Section Functions.
Context {F : Type} {SF : Scalar F}.

#[local] Abbreviation arr := (Nd.ndarray F).

(** [np.linalg.lstsq(a, b, rcond=None)[0]], the least-squares solver of
    LAPACK: the code below is parametric in it. *)
Variable lstsq : arr -> arr -> M arr.

(** Modelled from the spec: the Sensitivity Profile accessors, which are
    methods of classes outside this file. [rho_eff] is the matrix
    (numDetectors x numSamples) that [sens._rho_eff(mdl_num=None)[0]]
    returns, [tc] the decay-rate axis that [sens.tc()] returns. *)
Record sens_t := mk_sens { rho_eff : arr; tc : arr }.

(** A Response Set. [attrs] holds the matrix-valued attributes by name
    (the names of [flds]); an attribute that is [None] has no entry. *)
Record response_set := mk_data {
  attrs : gmap string arr;
  label : option (list string);
  sens : option sens_t;
}.

(** The objects a caller can hand in: a Response Set, or some other
    object, of which the model keeps the attributes 'R', 'R_std' and
    'label' when it has them (it has no other attribute of a Response
    Set, and no [copy] method). For an attribute, [None] says the
    object lacks it and [Some None] that its value is [None]. *)
Inductive pyobj :=
| Data (d : response_set)
| Other (R R_std : option (option arr)) (lbl : option (option (list string))).

Definition hasattr (o : pyobj) (a : string) : bool :=
  match o with
  | Data _ => true
  | Other r s l =>
      if String.eqb a "R" then bool_decide (is_Some r)
      else if String.eqb a "R_std" then bool_decide (is_Some s)
      else if String.eqb a "label" then bool_decide (is_Some l)
      else false
  end.

(** [getattr(o, f)] for a matrix-valued attribute. *)
Definition getattr (o : pyobj) (f : string) : M (option arr) :=
  match o with
  | Data d => ret (attrs d !! f)
  | Other r s _ =>
      if String.eqb f "R" then lift AttributeError r
      else if String.eqb f "R_std" then lift AttributeError s
      else raise AttributeError
  end.

(** [o.label] *)
Definition get_label (o : pyobj) : M (option (list string)) :=
  match o with
  | Data d => ret (label d)
  | Other _ _ l => lift AttributeError l
  end.

(** [o.sens] *)
Definition get_sens (o : pyobj) : M (option sens_t) :=
  match o with
  | Data d => ret (sens d)
  | Other _ _ _ => raise AttributeError
  end.

(** Modelled from the spec: [o.copy()], the clone of a Response Set
    (a method of the data class, which is outside this file). The clone
    of a Response Set is taken to succeed, so that the [except:] block
    of [avg_data] runs here only for an object that is not a Response
    Set. *)
Definition copy (o : pyobj) : M response_set :=
  match o with
  | Data d => ret d
  | Other _ _ _ => raise AttributeError
  end.

(** Modelled from the spec: [o.__class__()], a Response Set with
    cleared values. *)
Definition new_instance (o : pyobj) : response_set := mk_data ∅ None None.

(** [setattr(data, f, x)]; [x = None] clears the attribute. *)
Definition setattr (d : response_set) (f : string) (x : option arr) : response_set :=
  match x with
  | Some a => mk_data (<[f := a]> (attrs d)) (label d) (sens d)
  | None => mk_data (delete f (attrs d)) (label d) (sens d)
  end.

Definition set_label (d : response_set) (l : option (list string)) : response_set :=
  mk_data (attrs d) l (sens d).

Definition set_sens (d : response_set) (s : option sens_t) : response_set :=
  mk_data (attrs d) (label d) s.

(** An attribute that has to be an array here: on [None] the operation
    applied to it raises [e]. *)
Definition need (e : exn) (x : option arr) : M arr := lift e x.

(** The collection handed to [avg_data] and [append_data]: a list, or a
    dict (its items in iteration order). *)
Inductive collection :=
| AsList (l : list pyobj)
| AsDict (items : list (string * pyobj)).

(** ** [dict2list] *)

Definition dict2list (data_in : list (string * pyobj)) : list pyobj * list string :=
  let '(labels, data) :=
    fold_left
      (fun '(labels, data) '(l, d) =>
         if hasattr d "R" && hasattr d "R_std" && hasattr d "label"
         then (labels ++ [l], data ++ [d])
         else (labels, data))
      data_in ([], []) in
  (data, labels).

(** ** [sens_sign_check] *)

(** The first block: the reference profile, subsampled, with the stride
    and the two boundary coordinates; [None] when [data0.sens is None]. *)
Definition ref_profile (data0 : response_set) : M (option (arr * Z * arr)) :=
  match sens data0 with
  | Some s0 =>
      let rhoz0 := rho_eff s0 in
      let! n := Nd.shape_at rhoz0 1 in
      (* np.array(rhoz0.shape[1]/10).astype(int) *)
      let step := Z.of_nat (n / 10) in
      let! rhoz0 := Nd.stride_cols step rhoz0 in
      let! z0 := Nd.first_last (tc s0) in
      ret (Some (rhoz0, step, z0))
  | None => ret None
  end.

(** [np.all(a == b)] *)
Definition all_eq (a b : arr) : M bool :=
  let! e := Nd.zip_with eqb a b in
  ret (forallb (fun t => t) (Nd.data e)).

(** [sign[-1][np.isnan(sign[-1])]=1] *)
Definition nan_to_one (s : arr) : arr :=
  Nd.map (fun x => if is_nan x then one else x) s.

(** The body of the loop, up to the [append]: the sign vector of the
    [k]-th candidate [d]. *)
Definition candidate_sign (ref : option (arr * Z * arr)) (nd : nat)
           (k : nat) (d : pyobj) : M arr :=
  match ref with
  | Some (rhoz0, step, z0) =>
      let! ds := get_sens d in
      match ds with
      | Some s =>
          let! rhoz := Nd.stride_cols step (rho_eff s) in
          let! same :=
            if Nd.shape_eqb (Nd.shape rhoz0) (Nd.shape rhoz)
            then (let! z := Nd.first_last (tc s) in all_eq z0 z)
            else ret false in
          if same then
            let! test := Nd.zip_with div rhoz0 rhoz in
            if existsb (fun t => (tol <? abs (abs t - one))%num) (Nd.data test)
            then
              do! print (WarnDisagree k) in
              ret (Nd.ones nd)
            else
              let! m := Nd.mode_axis1 (Nd.map sign test) in
              ret (Nd.squeeze m)
          else
            do! print (WarnShape k) in
            ret (Nd.ones nd)
      | None => ret (Nd.ones nd)
      end
  | None => ret (Nd.ones nd)
  end.

Definition sens_sign_check (data0 : response_set) (data_in : list pyobj)
  : M (list arr) :=
  let! ref := ref_profile data0 in
  let! R0 := need AttributeError (attrs data0 !! "R") in
  let! nd := Nd.shape_at R0 1 in
  for_enum data_in []
    (fun sign k d =>
       let! s := candidate_sign ref nd k d in
       ret (sign ++ [nan_to_one s])).

(** ** [corr_SVD_switching] *)

Definition sq (x : F) : F := (x * x)%num.

Definition corr_SVD_switching (data0 : response_set) (data_in : list pyobj)
  : M (arr * arr) :=
  let! s0 := lift AttributeError (sens data0) in
  let rhoz0 := rho_eff s0 in
  let! '(R, Rvar) :=
    for_each data_in ([], [])
      (fun '(R, Rvar) d =>
         let! ds := get_sens d in
         let! s := lift AttributeError ds in
         let! mat := Nd.dot rhoz0 (Nd.transpose (rho_eff s)) in
         let! dR := getattr d "R" in
         let! dR := need AttributeError dR in
         let! x := Nd.dot mat (Nd.transpose dR) in
         let! dstd := getattr d "R_std" in
         let! dstd := need AttributeError dstd in
         let! v := Nd.dot mat (Nd.map sq (Nd.transpose dstd)) in
         ret (R ++ [Nd.transpose x], Rvar ++ [Nd.transpose v])) in
  let! R := Nd.np_array R in
  let! Rvar := Nd.np_array Rvar in
  ret (R, Rvar).

(** ** [avg_data] *)

(** The weights [wt]. *)
Definition weights (weighted : bool) (weight : option arr) (R Rvar : arr) : M arr :=
  if weighted then
    match weight with
    | None =>
        let! wt := Nd.zip_with div (Nd.scalar one) Rvar in
        let! tot := Nd.sum0 wt in
        Nd.zip_with div wt tot
    | Some weight =>
        let wt := weight in
        let! tot := Nd.sum0 wt in
        Nd.zip_with div wt tot
    end
  else
    let! k := Nd.shape_at R 0 in
    if (k =? 0)%nat then raise ZeroDivisionError
    else ret (Nd.scalar (one / of_nat k)%num).

(** [try: data=data_in[0].copy()] with its [except:] block. *)
Definition clone_first (data_in : list pyobj) : M response_set :=
  try_except
    (let! d0 := py_get data_in 0 in copy d0)
    (let! d0 := py_get data_in 0 in
     let data := new_instance d0 in
     let! s := get_sens d0 in
     let data := set_sens data s in
     let! r := getattr d0 "R" in
     let! r := need AttributeError r in
     let data := setattr data "R" (Some r) in
     do! print WarnDeepCopy in
     ret data).

(** The body of the loop [for k,(d,s) in enumerate(zip(data_in,sign)):],
    which appends the signed response and the variance of [d],
    flattened, to the lists [R] and [Rvar]. *)
Definition flatten_step (SZ : list nat) (acc : list arr * list arr) (k : nat)
           (ds : pyobj * arr) : M (list arr * list arr) :=
  let '(R, Rvar) := acc in
  let '(d, s) := ds in
  let! dR := getattr d "R" in
  let! dR := need TypeError dR in
  let! x := Nd.zip_with mul s dR in
  let! dstd := getattr d "R_std" in
  let! dstd := need TypeError dstd in
  let v := Nd.map sq dstd in
  let! x := Nd.reshape [Nd.prod SZ] x in
  let! v := Nd.reshape [Nd.prod SZ] v in
  ret (R ++ [x], Rvar ++ [v]).

Definition flatten_inputs (SZ : list nat) (data_in : list pyobj) (sign : list arr)
  : M (list arr * list arr) :=
  for_enum (combine data_in sign) ([], []) (flatten_step SZ).

(** [R=(R*wt).sum(axis=0)] and [Rvar=(Rvar*(wt**2)).sum(axis=0)]. *)
Definition weighted_sums (R Rvar wt : arr) : M (arr * arr) :=
  let! R := (let! p := Nd.zip_with mul R wt in Nd.sum0 p) in
  let! Rvar := (let! p := Nd.zip_with mul Rvar (Nd.map sq wt) in Nd.sum0 p) in
  ret (R, Rvar).

Definition avg_data (data_in : collection) (weighted : bool)
           (weight : option arr) (r_no_opt : bool) : M response_set :=
  let data_in :=
    match data_in with
    | AsDict items => fst (dict2list items)
    | AsList l => l
    end in
  let! data := clone_first data_in in
  (* [SZ] exists on the [else] path only *)
  let! '(R, Rvar, SZ) :=
    if r_no_opt then
      let! '(R, Rvar) := corr_SVD_switching data data_in in
      ret (R, Rvar, None)
    else
      let! R0 := need AttributeError (attrs data !! "R") in
      let SZ := Nd.shape R0 in
      let! sign := sens_sign_check data data_in in
      let! '(R, Rvar) := flatten_inputs SZ data_in sign in
      let! R := Nd.np_array R in
      let! Rvar := Nd.np_array Rvar in
      ret (R, Rvar, Some SZ) in
  let! wt := weights weighted weight R Rvar in
  let! '(R, Rvar) := weighted_sums R Rvar wt in
  let! data :=
    match SZ with
    | None =>
        let data := setattr data "R" (Some R) in
        ret (setattr data "R_std" (Some (Nd.map sqrt Rvar)))
    | Some SZ =>
        let! R := Nd.reshape SZ R in
        let data := setattr data "R" (Some R) in
        let! Rvar := Nd.reshape SZ Rvar in
        ret (setattr data "R_std" (Some (Nd.map sqrt Rvar)))
    end in
  let data := setattr data "R_u" None in
  let data := setattr data "R_l" None in
  ret data.

(** ** [append_data] *)

Definition flds : list string :=
  ["R"; "R_std"; "R_u"; "R_l"; "Rc"; "Rin"; "Rin_std"; "S2"; "S2in"; "S2in_std"; "S2c"].

(** The [labels] argument: [None], a string (such as [''], which turns
    the prefixes of a dict off), or a list. *)
Inductive labels_arg :=
| LNone
| LStr (s : string)
| LList (l : list string).

(** [str(labels[k])] *)
Definition label_prefix (labels : labels_arg) (k : nat) : M string :=
  match labels with
  | LNone => raise TypeError
  | LStr s =>
      match String.get k s with
      | Some c => ret (String c EmptyString)
      | None => raise IndexError
      end
  | LList l => py_get l (Z.of_nat k)
  end.

(** What one input adds to the list [label]. *)
Definition input_label (labels : labels_arg) (k : nat) (d : pyobj)
  : M (option (list string)) :=
  match labels with
  | LNone => get_label d
  | _ =>
      let! dl := get_label d in
      let! dl := lift TypeError dl in
      let! new := map_m (fun l => let! pre := label_prefix labels k in
                                  ret (pre ++ l)%string) dl in
      ret (Some new)
  end.

(** [np.concatenate(label, axis=0)] *)
Definition concat_labels (label : list (option (list string))) : M (list string) :=
  match label with
  | [] => raise ValueError
  | _ => let! ls := map_m (lift ValueError) label in ret (concat ls)
  end.

(** The loop that collects, for every name of [flds], the values that
    are not [None], and the labels. *)
Definition collect (labels : labels_arg) (data_in : list pyobj) (sign : list arr)
  : M (gmap string (list arr) * list (option (list string))) :=
  let R : gmap string (list arr) :=
    fold_left (fun R f => <[f := []]> R) flds ∅ in
  for_enum (combine data_in sign) (R, [])
    (fun '(R, label) k '(d, s) =>
       let! R :=
         for_each flds R
           (fun R f =>
              let! x := getattr d f in
              match x with
              | Some x => ret (<[f := (R !!! f) ++ [x]]> R)
              | None => ret R
              end) in
       let! l := input_label labels k d in
       ret (R, label ++ [l])).

(** The loop that concatenates every collected field into [data]. *)
Definition concat_fields (R : gmap string (list arr)) (data : response_set)
  : M response_set :=
  for_each flds data
    (fun data f =>
       if negb (length (R !!! f) =? 0)%nat then
         try_except
           (let! c := Nd.concatenate (R !!! f) in
            ret (setattr data f (Some c)))
           (do! print (WarnOmitted f) in
            ret data)
       else ret data).

(** The block under [if index is not None:]. *)
Definition reindex (index : list Z) (data : response_set) : M response_set :=
  let! data :=
    for_each flds data
      (fun data f =>
         match attrs data !! f with
         | Some x =>
             let x0 := Nd.zeros (Nd.shape x) in
             let! x0 := Nd.scatter x0 index x in
             ret (setattr data f (Some x0))
         | None => ret data
         end) in
  match label data with
  | Some l =>
      let lbl := Nd.mk_nd [length l] (repeat EmptyString (length l)) in
      let! lbl := Nd.scatter lbl index (Nd.vector l) in
      ret (set_label data (Some (Nd.data lbl)))
  | None => ret data
  end.

Definition append_data (data_in : collection) (labels : labels_arg)
           (index : option (list Z)) : M response_set :=
  let '(data_in, labels) :=
    match data_in with
    | AsDict items =>
        let '(data_in, dict_label) := dict2list items in
        (data_in,
         match labels with
         | LNone => LList dict_label
         | LStr EmptyString => LNone
         | _ => labels
         end)
    | AsList l => (l, labels)
    end in
  let! d0 := py_get data_in 0 in
  let! data := copy d0 in
  let! sign := sens_sign_check data data_in in
  let! '(R, label) := collect labels data_in sign in
  let! data := concat_fields R data in
  let! l := concat_labels label in
  let data := set_label data (Some l) in
  match index with
  | Some index => reindex index data
  | None => ret data
  end.

(** ** [prod_mat] *)

(** A detector basis: a raw matrix, or an object with the accessor [r()]. *)
Inductive basis :=
| Raw (m : arr)
| Detector (m : arr).

(** [r.r() if hasattr(r,'r') else r] *)
Definition resolve (b : basis) : arr :=
  match b with Raw m => m | Detector m => m end.

(** [for row in a]: the sub-arrays along the first axis. *)
Definition rows (a : arr) : M (list arr) :=
  match Nd.shape a with
  | [] => raise TypeError
  | n :: rest => ret (List.map (Nd.mk_nd rest) (Nd.chunks n (Nd.prod rest) (Nd.data a)))
  end.

(** [np.dot(np.atleast_2d(row2).T,np.atleast_2d(row1)).reshape(n1*n2)] *)
Definition outer_flat (n1 n2 : nat) (row1 row2 : arr) : M arr :=
  let! p := Nd.dot (Nd.transpose (Nd.atleast_2d row2)) (Nd.atleast_2d row1) in
  Nd.reshape [n1 * n2] p.

Definition prod_mat (r1 : basis) (r2 r : option basis) : M arr :=
  let r1 := resolve r1 in
  let r2 := match r2 with None => r1 | Some b => resolve b end in
  let r := match r with None => r1 | Some b => resolve b end in
  let! n1 := Nd.shape_at r1 1 in
  let! n2 := Nd.shape_at r2 1 in
  let! rows1 := rows r1 in
  let! rows2 := rows r2 in
  let! pr0 := map_m (fun p => outer_flat n1 n2 (fst p) (snd p)) (combine rows1 rows2) in
  let! pr0 := Nd.np_array pr0 in
  lstsq r pr0.

(** ** [calc_prod] *)

Inductive data_arg :=
| DList (l : list pyobj)
| DOne (d : pyobj).

Inductive r_arg :=
| RList (l : list basis)
| ROne (b : basis).

(** [l.pop()] *)
Definition pop {A} (l : list A) : M (list A * A) :=
  match rev l with
  | [] => raise IndexError
  | x :: t => ret (rev t, x)
  end.

(** The working state of the fold: [R1], [r1], [R1_var] and the lists
    [r0] and [R_std] that are popped along with [R]. *)
Record fold_state := mk_fold {
  fR1 : option arr;
  fr1 : arr;
  fR1_var : arr;
  fr0 : list arr;
  fR_std : list (option arr);
}.

(** The product of detectors of one round: [p1p2] and the new [R1]. *)
Definition round_product (n1 n2 : nat) (pr R1 R2 : arr) : M (arr * arr) :=
  let! rows1 := rows R1 in
  let! rows2 := rows R2 in
  let! p1p2 := map_m (fun p => outer_flat n1 n2 (fst p) (snd p)) (combine rows1 rows2) in
  let! p1p2 := Nd.np_array p1p2 in
  let p1p2 := Nd.transpose p1p2 in
  let! R1 := Nd.dot pr p1p2 in
  ret (p1p2, Nd.transpose R1).

(** The variance of the product of one round: the new [R1_var]. *)
Definition round_variance (n1 n2 : nat) (pr p1p2 R1 R2 R1_var R2_var : arr) : M arr :=
  let! rows1 := rows R1 in
  let! rows2 := rows R2 in
  let! vars1 := rows R1_var in
  let! vars2 := rows R2_var in
  let! fs := rows (Nd.transpose p1p2) in
  let! p1p2_var :=
    map_m (fun '(row1, (row2, (var1, (var2, f)))) =>
             let! q1 := Nd.zip_with div var1 row1 in
             let! x := Nd.repeat_axis1 n2 (Nd.transpose (Nd.atleast_2d q1)) in
             let! x := Nd.reshape [n1 * n2] x in
             let! q2 := Nd.zip_with div var2 row2 in
             let! y := Nd.repeat_axis0 n1 (Nd.atleast_2d q2) in
             let! y := Nd.reshape [n1 * n2] y in
             let! xy := Nd.zip_with add x y in
             Nd.zip_with mul (Nd.map sq f) xy)
          (combine rows1 (combine rows2 (combine vars1 (combine vars2 fs)))) in
  let! p1p2_var := Nd.np_array p1p2_var in
  let! R1_var := Nd.dot pr (Nd.transpose p1p2_var) in
  ret (Nd.transpose R1_var).

(** One round of [while len(R)>0:], for the [R2] that [R.pop()] gives. *)
Definition fold_step (r : arr) (st : fold_state) (R2 : option arr) : M fold_state :=
  let! '(r0, r2) := pop (fr0 st) in
  let r1 := fr1 st in
  let! n1 := Nd.shape_at r1 1 in
  let! n2 := Nd.shape_at r2 1 in
  let! pr := prod_mat (Raw r1) (Some (Raw r2)) (Some (Raw r)) in
  let r1 := r in
  let! R1 := need TypeError (fR1 st) in
  let! R2 := need TypeError R2 in
  let! '(p1p2, R1) := round_product n1 n2 pr R1 R2 in
  let! '(R_std, s2) := pop (fR_std st) in
  let! s2 := need TypeError s2 in
  let R2_var := Nd.map sq s2 in
  let! R1_var := round_variance n1 n2 pr p1p2 R1 R2 (fR1_var st) R2_var in
  ret (mk_fold (Some R1) r1 R1_var r0 R_std).

(** "Prepare the data": the template [out] and the lists [R], [R_std]. *)
Definition prepare (data : data_arg) (nf : option Z)
  : M (response_set * list (option arr) * list (option arr)) :=
  match nf with
  | None =>
      match data with
      | DList l =>
          let! d0 := py_get l 0 in
          let! out := copy d0 in
          let! '(R, R_std) :=
            for_each l ([], [])
              (fun '(R, R_std) d =>
                 let! x := getattr d "R" in
                 let! y := getattr d "R_std" in
                 ret (R ++ [x], R_std ++ [y])) in
          ret (out, R, R_std)
      | DOne d =>
          (* data[0] of an object that is not a sequence *)
          raise TypeError
      end
  | Some nf =>
      match data with
      | DList _ =>
          (* data.copy() copies the list, which has no attribute R *)
          raise AttributeError
      | DOne d =>
          let! out := copy d in
          let! dR := getattr d "R" in
          let! dR := need AttributeError dR in
          let! n0 := Nd.shape_at dR 0 in
          if (nf =? 0)%Z then raise ZeroDivisionError
          else
            (* n=int(data.R.shape[0]/nf) *)
            let n := Z.to_nat (Z.quot (Z.of_nat n0) nf) in
            let! '(R, R_std) :=
              for_each (seq 0 (Z.to_nat nf)) ([], [])
                (fun '(R, R_std) k =>
                   let! _ := Nd.shape_at dR 1 in
                   let! x := Nd.slice_rows (k * n) ((k + 1) * n) dR in
                   let! dstd := getattr d "R_std" in
                   let! dstd := need TypeError dstd in
                   let! _ := Nd.shape_at dstd 1 in
                   let! y := Nd.slice_rows (k * n) ((k + 1) * n) dstd in
                   ret (R ++ [Some x], R_std ++ [Some y])) in
            ret (out, R, R_std)
      end
  end.

Definition calc_prod (data : data_arg) (r : r_arg) (nf : option Z)
  : M (option response_set) :=
  (* "User input check" *)
  if (match data with DList _ => false | DOne _ => true end)
     && (match nf with None => true | Some _ => false end)
  then
    do! print MsgNeedFrames in
    ret None
  else
    let! '(out, R, R_std) := prepare data nf in
    let r0 :=
      match r with
      | RList l => l
      | ROne b => List.map (fun _ => b) R
      end in
    let r0 := List.map resolve r0 in
    let! r := py_get r0 0 in
    let! '(R, R1) := pop R in
    let! '(r0, r1) := pop r0 in
    let! '(R_std, s1) := pop R_std in
    let! s1 := need TypeError s1 in
    let R1_var := Nd.map sq s1 in
    let! st := for_each (rev R) (mk_fold R1 r1 R1_var r0 R_std) (fold_step r) in
    let out := setattr out "R" (fR1 st) in
    let out := setattr out "R_std" (Some (Nd.map sqrt (fR1_var st))) in
    ret (Some out).

End Functions.

Arguments sens_t : clear implicits.
Arguments response_set : clear implicits.
Arguments pyobj : clear implicits.
Arguments collection : clear implicits.
Arguments basis : clear implicits.
Arguments data_arg : clear implicits.
Arguments r_arg : clear implicits.
Arguments fold_state : clear implicits.

End DR.

(* ===================================================================== *)
(** * The response-set functions over a store *)
(* ===================================================================== *)

(** For the statements about what a call mutates, the same functions are
    modelled over a store: Response Sets and profiles are objects with
    attributes, a numpy array is a view (offset, shape, strides) onto a
    buffer, labels are arrays of strings. An attribute holds a reference,
    so that two objects can share an array; [x[...] = v] writes into the
    buffer of [x] and [obj.attr = v] into the object. The value of a
    numpy expression is computed by the functions of [Nd] and [DR] from
    the arrays it reads; it is given a buffer of its own where the code
    writes into it or keeps it in an attribute. *)
Module Heap.

Definition loc := positive.

(** A numpy array object: a view onto the buffer at [buf]. *)
Record aref := mk_aref { buf : loc; off : nat; shp : list nat; strd : list nat }.

(** The strides of a C-contiguous array of shape [s]. *)
Fixpoint c_strides (s : list nat) : list nat :=
  match s with
  | [] => []
  | _ :: rest => Nd.prod rest :: c_strides rest
  end.

(** The buffer positions of the elements of a view, in C order. *)
Fixpoint positions (o : nat) (s t : list nat) : list nat :=
  match s, t with
  | n :: s', st :: t' => flat_map (fun i => positions (o + i * st) s' t') (seq 0 n)
  | _, _ => [o]
  end.

(** [a.shape[i]] *)
Definition shape_at (h : aref) (i : Z) : M nat := py_get (shp h) i.

(** [np.squeeze(a)]: a view without the axes of length one. *)
Definition view_squeeze (h : aref) : aref :=
  let kept := List.filter (fun p => negb (fst p =? 1)%nat) (combine (shp h) (strd h)) in
  mk_aref (buf h) (off h) (List.map fst kept) (List.map snd kept).

(** [a.T] *)
Definition view_transpose (h : aref) : aref :=
  mk_aref (buf h) (off h) (rev (shp h)) (rev (strd h)).

(** [a[:, ::step]] *)
Definition view_stride_cols (step : Z) (h : aref) : M aref :=
  match shp h, strd h with
  | r :: c :: rest, sr :: sc :: srest =>
      if (step =? 0)%Z then raise ValueError
      else
        let st := Z.to_nat step in
        ret (mk_aref (buf h) (off h)
                     (r :: length (Nd.every st (seq 0 c)) :: rest)
                     (sr :: sc * st :: srest))
  | _, _ => raise IndexError
  end.

(** [a[lo:hi]] *)
Definition view_slice_rows (lo hi : nat) (h : aref) : M aref :=
  match shp h, strd h with
  | n :: rest, sr :: srest =>
      let hi := Nat.min hi n in
      let lo := Nat.min lo hi in
      ret (mk_aref (buf h) (off h + lo * sr) ((hi - lo) :: rest) (sr :: srest))
  | _, _ => raise IndexError
  end.

(** An entry of the list [label] of [append_data]: the label array of
    an input, or a list the comprehension has built. *)
Inductive lblv :=
| LRef (l : loc)
| LVal (ls : list string).

(** The arguments that are objects of the store. *)
Inductive collection :=
| AsList (l : list loc)
| AsDict (items : list (string * loc)).

Inductive data_arg :=
| DList (l : list loc)
| DOne (d : loc).

Section Store.
Context {F : Type} {SF : Scalar F}.

#[local] Abbreviation arr := (Nd.ndarray F).

Variable lstsq : arr -> arr -> M arr.

(** The objects of the store. A Response Set holds its matrix-valued
    attributes by name (no entry for [None]), its label array and its
    profile; a profile holds the two arrays its accessors return; any
    other object is kept with the attributes 'R', 'R_std', 'label' it
    has, as in [DR.pyobj]. *)
Inductive hobj :=
| HData (attrs : gmap string aref) (label : option loc) (sens : option loc)
| HSens (rho tc : aref)
| HOther (R R_std : option (option aref)) (lbl : option (option loc)).

Record heap := mk_heap {
  bufs : gmap loc (list F);
  lbls : gmap loc (list string);
  objs : gmap loc hobj;
}.

(** A computation over the store: what it prints, how it ends, and the
    store it leaves (also when it raises). *)
Definition H (A : Type) : Type := heap -> (list msg * outcome A) * heap.

Definition hret {A} (a : A) : H A := fun σ => (([], Ok a), σ).

Definition hbind {A B} (m : H A) (k : A -> H B) : H B := fun σ =>
  match m σ with
  | ((out, Ok a), σ') =>
      match k a σ' with
      | ((out', r), σ'') => ((out ++ out', r), σ'')
      end
  | ((out, Raise e), σ') => ((out, Raise e), σ')
  end.

(** A computation that does not touch the store. *)
Definition liftM {A} (m : M A) : H A := fun σ => (m, σ).

Definition htry {A} (body handler : H A) : H A := fun σ =>
  match body σ with
  | ((out, Ok a), σ') => ((out, Ok a), σ')
  | ((out, Raise _), σ') =>
      match handler σ' with
      | ((out', r), σ'') => ((out ++ out', r), σ'')
      end
  end.

#[local] Notation "'let*' x ':=' m 'in' k" := (hbind m (fun x => k))
  (at level 10, x name, m at level 100, k at level 200, only parsing).
#[local] Notation "'let*' ' p ':=' m 'in' k" :=
  (hbind m (fun x => match x with p => k end))
  (at level 10, p pattern, m at level 100, k at level 200, only parsing).
#[local] Notation "'do*' m 'in' k" := (hbind m (fun _ => k))
  (at level 10, m at level 100, k at level 200, only parsing).

Fixpoint hfor_each {A St} (l : list A) (s : St) (body : St -> A -> H St) : H St :=
  match l with
  | [] => hret s
  | a :: l' => let* s' := body s a in hfor_each l' s' body
  end.

Fixpoint hfor_enum_from {A St} (k : nat) (l : list A) (s : St)
         (body : St -> nat -> A -> H St) : H St :=
  match l with
  | [] => hret s
  | a :: l' => let* s' := body s k a in hfor_enum_from (S k) l' s' body
  end.
Definition hfor_enum {A St} := @hfor_enum_from A St 0.

Fixpoint hmap {A B} (f : A -> H B) (l : list A) : H (list B) :=
  match l with
  | [] => hret []
  | a :: l' => let* b := f a in let* bs := hmap f l' in hret (b :: bs)
  end.

(** ** Arrays in the store *)

(** Reading the array a view shows. *)
Definition load (h : aref) : H arr := fun σ =>
  match bufs σ !! buf h with
  | Some b =>
      match mapM (fun p => b !! p) (positions (off h) (shp h) (strd h)) with
      | Some d => (([], Ok (Nd.mk_nd (shp h) d)), σ)
      | None => (([], Raise IndexError), σ)
      end
  | None => (([], Raise ValueError), σ)
  end.

(** A new array: a fresh buffer with the elements of [v], and the
    contiguous view of it. *)
Definition alloc (v : arr) : H aref := fun σ =>
  let l := fresh (dom (bufs σ)) in
  (([], Ok (mk_aref l 0 (Nd.shape v) (c_strides (Nd.shape v)))),
   mk_heap (<[l := Nd.data v]> (bufs σ)) (lbls σ) (objs σ)).

(** Writing values at positions of the buffer at [l], in place. *)
Definition write (l : loc) (pvs : list (nat * F)) : H unit := fun σ =>
  match bufs σ !! l with
  | Some b =>
      let b' := fold_left (fun b pv => <[fst pv := snd pv]> b) pvs b in
      (([], Ok tt), mk_heap (<[l := b']> (bufs σ)) (lbls σ) (objs σ))
  | None => (([], Raise ValueError), σ)
  end.

(** [h[...] = vs] *)
Definition store (h : aref) (vs : list F) : H unit :=
  write (buf h) (combine (positions (off h) (shp h) (strd h)) vs).

(** [h[mask] = x] *)
Definition store_mask (h : aref) (mask : list bool) (x : F) : H unit :=
  write (buf h)
        (List.map (fun p => (fst p, x))
           (List.filter snd (combine (positions (off h) (shp h) (strd h)) mask))).

(** An operand that has to be an array: on [None] the operation applied
    to it raises [e]. *)
Definition load_need (e : exn) (x : option aref) : H arr :=
  let* h := liftM (lift e x) in
  load h.

(** ** Labels in the store *)

Definition load_lbl (l : loc) : H (list string) := fun σ =>
  match lbls σ !! l with
  | Some ls => (([], Ok ls), σ)
  | None => (([], Raise ValueError), σ)
  end.

Definition alloc_lbl (ls : list string) : H loc := fun σ =>
  let l := fresh (dom (lbls σ)) in
  (([], Ok l), mk_heap (bufs σ) (<[l := ls]> (lbls σ)) (objs σ)).

Definition store_lbl (l : loc) (ls : list string) : H unit := fun σ =>
  match lbls σ !! l with
  | Some _ => (([], Ok tt), mk_heap (bufs σ) (<[l := ls]> (lbls σ)) (objs σ))
  | None => (([], Raise ValueError), σ)
  end.

(** ** Objects in the store *)

Definition get_obj (l : loc) : H hobj := fun σ =>
  match objs σ !! l with
  | Some o => (([], Ok o), σ)
  | None => (([], Raise AttributeError), σ)
  end.

Definition new_obj (o : hobj) : H loc := fun σ =>
  let l := fresh (dom (objs σ)) in
  (([], Ok l), mk_heap (bufs σ) (lbls σ) (<[l := o]> (objs σ))).

(** An attribute assignment replaces the object at [l]. *)
Definition set_obj (l : loc) (o : hobj) : H unit := fun σ =>
  match objs σ !! l with
  | Some _ => (([], Ok tt), mk_heap (bufs σ) (lbls σ) (<[l := o]> (objs σ)))
  | None => (([], Raise AttributeError), σ)
  end.

Definition hasattr (l : loc) (a : string) : H bool :=
  let* o := get_obj l in
  match o with
  | HData _ _ _ => hret true
  | HSens _ _ => hret false
  | HOther r s lb =>
      hret (if String.eqb a "R" then bool_decide (is_Some r)
            else if String.eqb a "R_std" then bool_decide (is_Some s)
            else if String.eqb a "label" then bool_decide (is_Some lb)
            else false)
  end.

(** [getattr(o, f)] for a matrix-valued attribute. *)
Definition getattr (l : loc) (f : string) : H (option aref) :=
  let* o := get_obj l in
  match o with
  | HData attrs _ _ => hret (attrs !! f)
  | HSens _ _ => liftM (raise AttributeError)
  | HOther r s _ =>
      liftM (if String.eqb f "R" then lift AttributeError r
             else if String.eqb f "R_std" then lift AttributeError s
             else raise AttributeError)
  end.

(** [o.label] *)
Definition get_label (l : loc) : H (option loc) :=
  let* o := get_obj l in
  match o with
  | HData _ lb _ => hret lb
  | HSens _ _ => liftM (raise AttributeError)
  | HOther _ _ lb => liftM (lift AttributeError lb)
  end.

(** [o.sens] *)
Definition get_sens (l : loc) : H (option loc) :=
  let* o := get_obj l in
  match o with
  | HData _ _ s => hret s
  | _ => liftM (raise AttributeError)
  end.

(** Modelled from the spec: [s._rho_eff(mdl_num=None)[0]] and [s.tc()],
    the accessors of a profile; they hand out the arrays the profile
    holds. *)
Definition rho_eff (s : loc) : H aref :=
  let* o := get_obj s in
  match o with
  | HSens rho _ => hret rho
  | _ => liftM (raise AttributeError)
  end.

Definition tc (s : loc) : H aref :=
  let* o := get_obj s in
  match o with
  | HSens _ t => hret t
  | _ => liftM (raise AttributeError)
  end.

(** [setattr(data, f, x)] on a Response Set; [x = None] clears the
    attribute. *)
Definition setattr (l : loc) (f : string) (x : option aref) : H unit :=
  let* o := get_obj l in
  match o with
  | HData attrs lb s =>
      set_obj l (HData (match x with
                        | Some a => <[f := a]> attrs
                        | None => delete f attrs
                        end) lb s)
  | _ => liftM (raise AttributeError)
  end.

Definition set_label (l : loc) (x : option loc) : H unit :=
  let* o := get_obj l in
  match o with
  | HData attrs _ s => set_obj l (HData attrs x s)
  | _ => liftM (raise AttributeError)
  end.

Definition set_sens (l : loc) (x : option loc) : H unit :=
  let* o := get_obj l in
  match o with
  | HData attrs lb _ => set_obj l (HData attrs lb x)
  | _ => liftM (raise AttributeError)
  end.

(** [a.copy()] of an array. *)
Definition copy_arr (h : aref) : H aref :=
  let* v := load h in
  alloc v.

(** Modelled from the spec: [o.copy()], the clone of a Response Set (a
    method of the data class, which is outside this file): a new object
    with a copy of every array and of the labels, and with the profile
    of [o], which is shared by reference. *)
Definition copy (l : loc) : H loc :=
  let* o := get_obj l in
  match o with
  | HData attrs lb s =>
      let* attrs' :=
        hfor_each (map_to_list attrs) ∅
          (fun m fh => let* h' := copy_arr (snd fh) in hret (<[fst fh := h']> m)) in
      let* lb' :=
        match lb with
        | Some ll => let* ls := load_lbl ll in
                     let* ll' := alloc_lbl ls in
                     hret (Some ll')
        | None => hret None
        end in
      new_obj (HData attrs' lb' s)
  | _ => liftM (raise AttributeError)
  end.

(** Modelled from the spec: [o.__class__()], a Response Set with
    cleared values. *)
Definition new_instance (l : loc) : H loc := new_obj (HData ∅ None None).

(** ** [dict2list] *)

Definition dict2list (data_in : list (string * loc)) : H (list loc * list string) :=
  let* '(labels, data) :=
    hfor_each data_in ([], [])
      (fun '(labels, data) '(l, d) =>
         let* a := hasattr d "R" in
         let* b := if a then hasattr d "R_std" else hret false in
         let* c := if b then hasattr d "label" else hret false in
         if c then hret (labels ++ [l], data ++ [d])
         else hret (labels, data)) in
  hret (data, labels).

(** ** [sens_sign_check] *)

(** The first block: the reference profile, subsampled (a view of the
    array of the profile), the stride and the two boundary coordinates
    (which fancy indexing copies). *)
Definition ref_profile (data0 : loc) : H (option (aref * Z * arr)) :=
  let* s := get_sens data0 in
  match s with
  | Some s0 =>
      let* rhoz0 := rho_eff s0 in
      let* n := liftM (shape_at rhoz0 1) in
      let step := Z.of_nat (n / 10) in
      let* rhoz0 := liftM (view_stride_cols step rhoz0) in
      let* t := tc s0 in
      let* t := load t in
      let* z0 := liftM (Nd.first_last t) in
      hret (Some (rhoz0, step, z0))
  | None => hret None
  end.

(** The body of the loop, up to the [append]: the array appended to
    [sign] for the [k]-th candidate [d]. *)
Definition candidate_sign (ref : option (aref * Z * arr)) (nd : nat)
           (k : nat) (d : loc) : H aref :=
  match ref with
  | Some (rhoz0, step, z0) =>
      let* ds := get_sens d in
      match ds with
      | Some s =>
          let* rhoz := rho_eff s in
          let* rhoz := liftM (view_stride_cols step rhoz) in
          let* same :=
            if Nd.shape_eqb (shp rhoz0) (shp rhoz)
            then (let* t := tc s in
                  let* t := load t in
                  liftM (let! z := Nd.first_last t in DR.all_eq z0 z))
            else hret false in
          if same then
            let* a := load rhoz0 in
            let* b := load rhoz in
            let* test := liftM (Nd.zip_with div a b) in
            if existsb (fun t => (tol <? abs (abs t - one))%num) (Nd.data test)
            then
              do* liftM (print (WarnDisagree k)) in
              alloc (Nd.ones nd)
            else
              let* m := liftM (Nd.mode_axis1 (Nd.map sign test)) in
              let* m := alloc m in
              hret (view_squeeze m)
          else
            do* liftM (print (WarnShape k)) in
            alloc (Nd.ones nd)
      | None => alloc (Nd.ones nd)
      end
  | None => alloc (Nd.ones nd)
  end.

Definition sens_sign_check (data0 : loc) (data_in : list loc) : H (list aref) :=
  let* ref := ref_profile data0 in
  let* R0 := getattr data0 "R" in
  let* R0 := liftM (lift AttributeError R0) in
  let* nd := liftM (shape_at R0 1) in
  hfor_enum data_in []
    (fun sign k d =>
       let* s := candidate_sign ref nd k d in
       (* sign[-1][np.isnan(sign[-1])]=1 *)
       let* v := load s in
       do* store_mask s (List.map is_nan (Nd.data v)) one in
       hret (sign ++ [s])).

(** ** [corr_SVD_switching] *)

Definition corr_SVD_switching (data0 : loc) (data_in : list loc) : H (arr * arr) :=
  let* s0 := get_sens data0 in
  let* s0 := liftM (lift AttributeError s0) in
  let* rhoz0 := rho_eff s0 in
  let* '(R, Rvar) :=
    hfor_each data_in ([], [])
      (fun '(R, Rvar) d =>
         let* ds := get_sens d in
         let* s := liftM (lift AttributeError ds) in
         let* rho := rho_eff s in
         let* a := load rhoz0 in
         let* b := load (view_transpose rho) in
         let* mat := liftM (Nd.dot a b) in
         let* dR := getattr d "R" in
         let* dR := liftM (lift AttributeError dR) in
         let* dRT := load (view_transpose dR) in
         let* x := liftM (Nd.dot mat dRT) in
         let* dstd := getattr d "R_std" in
         let* dstd := liftM (lift AttributeError dstd) in
         let* dstdT := load (view_transpose dstd) in
         let* v := liftM (Nd.dot mat (Nd.map DR.sq dstdT)) in
         hret (R ++ [Nd.transpose x], Rvar ++ [Nd.transpose v])) in
  liftM (let! R := Nd.np_array R in
         let! Rvar := Nd.np_array Rvar in
         ret (R, Rvar)).

(** ** [avg_data] *)

(** [try: data=data_in[0].copy()] with its [except:] block. *)
Definition clone_first (data_in : list loc) : H loc :=
  htry
    (let* d0 := liftM (py_get data_in 0) in copy d0)
    (let* d0 := liftM (py_get data_in 0) in
     let* data := new_instance d0 in
     let* s := get_sens d0 in
     do* set_sens data s in
     let* r := getattr d0 "R" in
     let* r := liftM (lift AttributeError r) in
     let* r := copy_arr r in
     do* setattr data "R" (Some r) in
     do* liftM (print WarnDeepCopy) in
     hret data).

(** The body of the loop [for k,(d,s) in enumerate(zip(data_in,sign)):]. *)
Definition flatten_step (SZ : list nat) (acc : list arr * list arr) (k : nat)
           (ds : loc * aref) : H (list arr * list arr) :=
  let '(R, Rvar) := acc in
  let '(d, s) := ds in
  let* dR := getattr d "R" in
  let* dR := load_need TypeError dR in
  let* s := load s in
  let* x := liftM (Nd.zip_with mul s dR) in
  let* dstd := getattr d "R_std" in
  let* dstd := load_need TypeError dstd in
  let v := Nd.map DR.sq dstd in
  let* x := liftM (Nd.reshape [Nd.prod SZ] x) in
  let* v := liftM (Nd.reshape [Nd.prod SZ] v) in
  hret (R ++ [x], Rvar ++ [v]).

Definition flatten_inputs (SZ : list nat) (data_in : list loc) (sign : list aref)
  : H (list arr * list arr) :=
  hfor_enum (combine data_in sign) ([], []) (flatten_step SZ).

Definition avg_data (data_in : collection) (weighted : bool)
           (weight : option arr) (r_no_opt : bool) : H loc :=
  let* data_in :=
    match data_in with
    | AsDict items => let* dl := dict2list items in hret (fst dl)
    | AsList l => hret l
    end in
  let* data := clone_first data_in in
  let* '(R, Rvar, SZ) :=
    if r_no_opt then
      let* '(R, Rvar) := corr_SVD_switching data data_in in
      hret (R, Rvar, None)
    else
      let* R0 := getattr data "R" in
      let* R0 := liftM (lift AttributeError R0) in
      let SZ := shp R0 in
      let* sign := sens_sign_check data data_in in
      let* '(R, Rvar) := flatten_inputs SZ data_in sign in
      let* R := liftM (Nd.np_array R) in
      let* Rvar := liftM (Nd.np_array Rvar) in
      hret (R, Rvar, Some SZ) in
  let* wt := liftM (DR.weights weighted weight R Rvar) in
  let* '(R, Rvar) := liftM (DR.weighted_sums R Rvar wt) in
  do* match SZ with
      | None =>
          let* R := alloc R in
          do* setattr data "R" (Some R) in
          let* s := alloc (Nd.map sqrt Rvar) in
          setattr data "R_std" (Some s)
      | Some SZ =>
          let* R := liftM (Nd.reshape SZ R) in
          let* R := alloc R in
          do* setattr data "R" (Some R) in
          let* Rvar := liftM (Nd.reshape SZ Rvar) in
          let* s := alloc (Nd.map sqrt Rvar) in
          setattr data "R_std" (Some s)
      end in
  do* setattr data "R_u" None in
  do* setattr data "R_l" None in
  hret data.

(** ** [append_data] *)

(** What one input adds to the list [label]. *)
Definition input_label (labels : DR.labels_arg) (k : nat) (d : loc)
  : H (option lblv) :=
  match labels with
  | DR.LNone =>
      let* dl := get_label d in
      hret (LRef <$> dl)
  | _ =>
      let* dl := get_label d in
      let* dl := liftM (lift TypeError dl) in
      let* dl := load_lbl dl in
      let* new := liftM (map_m (fun l => let! pre := DR.label_prefix labels k in
                                         ret (pre ++ l)%string) dl) in
      hret (Some (LVal new))
  end.

(** [np.concatenate(label, axis=0)] *)
Definition concat_labels (label : list (option lblv)) : H (list string) :=
  let* ls := hmap (fun x => match x with
                            | Some (LRef l) => let* ls := load_lbl l in hret (Some ls)
                            | Some (LVal ls) => hret (Some ls)
                            | None => hret None
                            end) label in
  liftM (DR.concat_labels ls).

(** The loop that collects, for every name of [flds], the values that
    are not [None], and the labels. *)
Definition collect (labels : DR.labels_arg) (data_in : list loc) (sign : list aref)
  : H (gmap string (list aref) * list (option lblv)) :=
  let R : gmap string (list aref) :=
    fold_left (fun R f => <[f := []]> R) DR.flds ∅ in
  hfor_enum (combine data_in sign) (R, [])
    (fun '(R, label) k '(d, s) =>
       let* R :=
         hfor_each DR.flds R
           (fun R f =>
              let* x := getattr d f in
              match x with
              | Some x => hret (<[f := (R !!! f) ++ [x]]> R)
              | None => hret R
              end) in
       let* l := input_label labels k d in
       hret (R, label ++ [l])).

(** The loop that concatenates every collected field into [data]. *)
Definition concat_fields (R : gmap string (list aref)) (data : loc) : H unit :=
  hfor_each DR.flds tt
    (fun _ f =>
       if negb (length (R !!! f) =? 0)%nat then
         htry
           (let* vs := hmap load (R !!! f) in
            let* c := liftM (Nd.concatenate vs) in
            let* c := alloc c in
            setattr data f (Some c))
           (liftM (print (WarnOmitted f)))
       else hret tt).

(** The block under [if index is not None:]. *)
Definition reindex (index : list Z) (data : loc) : H unit :=
  do* hfor_each DR.flds tt
        (fun _ f =>
           let* x := getattr data f in
           match x with
           | Some x =>
               let* x0 := alloc (Nd.zeros (shp x)) in
               (* x0[index]=x *)
               let* v0 := load x0 in
               let* v := load x in
               let* v0 := liftM (Nd.scatter v0 index v) in
               do* store x0 (Nd.data v0) in
               setattr data f (Some x0)
           | None => hret tt
           end) in
  let* dl := get_label data in
  match dl with
  | Some l =>
      let* ls := load_lbl l in
      let* lbl := alloc_lbl (repeat EmptyString (length ls)) in
      (* lbl[index]=data.label *)
      let* l0 := load_lbl lbl in
      let* l0 := liftM (Nd.scatter (Nd.vector l0) index (Nd.vector ls)) in
      do* store_lbl lbl (Nd.data l0) in
      set_label data (Some lbl)
  | None => hret tt
  end.

Definition append_data (data_in : collection) (labels : DR.labels_arg)
           (index : option (list Z)) : H loc :=
  let* '(data_in, labels) :=
    match data_in with
    | AsDict items =>
        let* '(data_in, dict_label) := dict2list items in
        hret (data_in,
              match labels with
              | DR.LNone => DR.LList dict_label
              | DR.LStr EmptyString => DR.LNone
              | _ => labels
              end)
    | AsList l => hret (l, labels)
    end in
  let* d0 := liftM (py_get data_in 0) in
  let* data := copy d0 in
  let* sign := sens_sign_check data data_in in
  let* '(R, label) := collect labels data_in sign in
  do* concat_fields R data in
  let* l := concat_labels label in
  let* l := alloc_lbl l in
  do* set_label data (Some l) in
  do* match index with
      | Some index => reindex index data
      | None => hret tt
      end in
  hret data.

(** ** [calc_prod] *)

(** The working state of the fold; [R1] is an array of an input before
    the first round, and [R] and [R_std] hold arrays of the inputs. *)
Record fold_state := mk_fold {
  fR1 : option aref;
  fr1 : arr;
  fR1_var : arr;
  fr0 : list arr;
  fR_std : list (option aref);
}.

(** One round of [while len(R)>0:], for the [R2] that [R.pop()] gives. *)
Definition fold_step (r : arr) (st : fold_state) (R2 : option aref) : H fold_state :=
  let* '(r0, r2) := liftM (DR.pop (fr0 st)) in
  let r1 := fr1 st in
  let* n1 := liftM (Nd.shape_at r1 1) in
  let* n2 := liftM (Nd.shape_at r2 1) in
  let* pr := liftM (DR.prod_mat lstsq (DR.Raw r1) (Some (DR.Raw r2)) (Some (DR.Raw r))) in
  let r1 := r in
  let* R1 := load_need TypeError (fR1 st) in
  let* R2 := load_need TypeError R2 in
  let* '(p1p2, R1) := liftM (DR.round_product n1 n2 pr R1 R2) in
  let* R1' := alloc R1 in
  let* '(R_std, s2) := liftM (DR.pop (fR_std st)) in
  let* s2 := load_need TypeError s2 in
  let R2_var := Nd.map DR.sq s2 in
  let* R1_var := liftM (DR.round_variance n1 n2 pr p1p2 R1 R2 (fR1_var st) R2_var) in
  hret (mk_fold (Some R1') r1 R1_var r0 R_std).

(** "Prepare the data": the template [out] and the lists [R], [R_std],
    which hold the arrays of the inputs, or views of them. *)
Definition prepare (data : data_arg) (nf : option Z)
  : H (loc * list (option aref) * list (option aref)) :=
  match nf with
  | None =>
      match data with
      | DList l =>
          let* d0 := liftM (py_get l 0) in
          let* out := copy d0 in
          let* '(R, R_std) :=
            hfor_each l ([], [])
              (fun '(R, R_std) d =>
                 let* x := getattr d "R" in
                 let* y := getattr d "R_std" in
                 hret (R ++ [x], R_std ++ [y])) in
          hret (out, R, R_std)
      | DOne d => liftM (raise TypeError)
      end
  | Some nf =>
      match data with
      | DList _ => liftM (raise AttributeError)
      | DOne d =>
          let* out := copy d in
          let* dR := getattr d "R" in
          let* dR := liftM (lift AttributeError dR) in
          let* n0 := liftM (shape_at dR 0) in
          if (nf =? 0)%Z then liftM (raise ZeroDivisionError)
          else
            let n := Z.to_nat (Z.quot (Z.of_nat n0) nf) in
            let* '(R, R_std) :=
              hfor_each (seq 0 (Z.to_nat nf)) ([], [])
                (fun '(R, R_std) k =>
                   let* x := liftM (let! _ := shape_at dR 1 in
                                    view_slice_rows (k * n) ((k + 1) * n) dR) in
                   let* dstd := getattr d "R_std" in
                   let* dstd := liftM (lift TypeError dstd) in
                   let* y := liftM (let! _ := shape_at dstd 1 in
                                    view_slice_rows (k * n) ((k + 1) * n) dstd) in
                   hret (R ++ [Some x], R_std ++ [Some y])) in
            hret (out, R, R_std)
      end
  end.

Definition calc_prod (data : data_arg) (r : DR.r_arg F) (nf : option Z)
  : H (option loc) :=
  (* "User input check" *)
  if (match data with DList _ => false | DOne _ => true end)
     && (match nf with None => true | Some _ => false end)
  then
    do* liftM (print MsgNeedFrames) in
    hret None
  else
    let* '(out, R, R_std) := prepare data nf in
    let r0 :=
      match r with
      | DR.RList l => l
      | DR.ROne b => List.map (fun _ => b) R
      end in
    let r0 := List.map DR.resolve r0 in
    let* r := liftM (py_get r0 0) in
    let* '(R, R1) := liftM (DR.pop R) in
    let* '(r0, r1) := liftM (DR.pop r0) in
    let* '(R_std, s1) := liftM (DR.pop R_std) in
    let* s1 := load_need TypeError s1 in
    let R1_var := Nd.map DR.sq s1 in
    let* st := hfor_each (rev R) (mk_fold R1 r1 R1_var r0 R_std) (fold_step r) in
    do* setattr out "R" (fR1 st) in
    let* s := alloc (Nd.map sqrt (fR1_var st)) in
    do* setattr out "R_std" (Some s) in
    hret (Some out).

(** ** What a store holds for a caller *)

(** Every buffer, label array and object of [σ] is in [σ'], as it is
    in [σ]. *)
Definition preserved (σ σ' : heap) : Prop :=
  (forall l b, bufs σ !! l = Some b -> bufs σ' !! l = Some b) /\
  (forall l ls, lbls σ !! l = Some ls -> lbls σ' !! l = Some ls) /\
  (forall l o, objs σ !! l = Some o -> objs σ' !! l = Some o).

(** The array a view shows in [σ]. *)
Definition read_arr (σ : heap) (h : aref) : option arr :=
  b ← bufs σ !! buf h;
  d ← mapM (fun p => b !! p) (positions (off h) (shp h) (strd h));
  Some (Nd.mk_nd (shp h) d).

Definition read_sens (σ : heap) (s : loc) : option (DR.sens_t F) :=
  match objs σ !! s with
  | Some (HSens rho t) =>
      rho ← read_arr σ rho;
      t ← read_arr σ t;
      Some (DR.mk_sens rho t)
  | _ => None
  end.

(** [None] for an attribute that is [None], else the value read by [f]. *)
Definition read_opt {A B} (f : A -> option B) (x : option A) : option (option B) :=
  match x with
  | Some a => Some <$> f a
  | None => Some None
  end.

(** The value of the object at [l] in [σ]: its fields, with the arrays,
    the labels and the profile they refer to. *)
Definition read_obj (σ : heap) (l : loc) : option (DR.pyobj F) :=
  match objs σ !! l with
  | Some (HData attrs lb s) =>
      fs ← mapM (fun fh => pair (fst fh) <$> read_arr σ (snd fh)) (map_to_list attrs);
      lb ← read_opt (fun ll => lbls σ !! ll) lb;
      s ← read_opt (read_sens σ) s;
      Some (DR.Data (DR.mk_data (list_to_map fs) lb s))
  | Some (HOther r s lb) =>
      r ← read_opt (read_opt (read_arr σ)) r;
      s ← read_opt (read_opt (read_arr σ)) s;
      lb ← read_opt (read_opt (fun ll => lbls σ !! ll)) lb;
      Some (DR.Other r s lb)
  | _ => None
  end.

(** A call [m] in the store [σ] leaves the inputs as they are: what [σ]
    holds is in the store after the call, every object of [σ] still has
    the value it had, and an object the call returns is not one of [σ]. *)
Definition leaves_inputs {A} (σ : heap) (m : H A) (result : A -> option loc) : Prop :=
  preserved σ (snd (m σ)) /\
  (forall l o, read_obj σ l = Some o -> read_obj (snd (m σ)) l = Some o) /\
  (forall a l, snd (fst (m σ)) = Ok a -> result a = Some l -> objs σ !! l = None).

(** [m], run in any store that extends [σ0], leaves what [σ0] holds as
    it is, and a value it returns satisfies [Q]. *)
Definition keeps {A} (σ0 : heap) (m : H A) (Q : A -> Prop) : Prop :=
  forall σ, preserved σ0 σ ->
    preserved σ0 (snd (m σ)) /\ forall a, snd (fst (m σ)) = Ok a -> Q a.

(** Not in the store [σ0]: an array whose buffer, a label array or an
    object that [σ0] does not hold. *)
Definition new_arr (σ0 : heap) (h : aref) : Prop := bufs σ0 !! buf h = None.
Definition new_lbl (σ0 : heap) (l : loc) : Prop := lbls σ0 !! l = None.
Definition new_obj_at (σ0 : heap) (l : loc) : Prop := objs σ0 !! l = None.

(** ** Building a store *)

(** A profile and a Response Set with the given values, as new objects;
    [s] is the profile object the Response Set refers to. *)
Definition put_sens (s : DR.sens_t F) : H loc :=
  let* rho := alloc (DR.rho_eff s) in
  let* t := alloc (DR.tc s) in
  new_obj (HSens rho t).

Definition put_data (d : DR.response_set F) (s : option loc) : H loc :=
  let* attrs :=
    hfor_each (map_to_list (DR.attrs d)) ∅
      (fun m fv => let* h := alloc (snd fv) in hret (<[fst fv := h]> m)) in
  let* lb :=
    match DR.label d with
    | Some ls => let* l := alloc_lbl ls in hret (Some l)
    | None => hret None
    end in
  new_obj (HData attrs lb s).

Definition empty : heap := mk_heap ∅ ∅ ∅.

End Store.

Arguments hobj : clear implicits.
Arguments heap : clear implicits.
Arguments H : clear implicits.
Arguments fold_state : clear implicits.

End Heap.

(* ===================================================================== *)
(** * Vocabulary of the statements, and sample data *)
(* ===================================================================== *)

Module Spec.
Import DR.

Section Vocabulary.
Context {F : Type} {SF : Scalar F}.

(** The test of [dict2list]: the object has all of 'R', 'R_std', 'label'. *)
Definition kept (o : pyobj F) : bool :=
  hasattr o "R" && hasattr o "R_std" && hasattr o "label".

(** A Sensitivity Profile as the data model describes it: a matrix of
    [r] detectors by [c] samples over a non-empty decay-rate axis. *)
Definition profile (r c : nat) (s : sens_t F) : Prop :=
  Nd.shape (rho_eff s) = [r; c]
  /\ length (Nd.data (rho_eff s)) = r * c
  /\ exists m, Nd.shape (tc s) = [S m].

(** The profile of a candidate that the loop of [sens_sign_check] can
    work with: none, or a matrix profile. *)
Definition usable_profile (o : option (sens_t F)) : Prop :=
  o = None \/ exists s r c, o = Some s /\ profile r c s.

(** The profile of a reference: none, or a matrix profile of at least ten
    samples. *)
Definition usable_reference (o : option (sens_t F)) : Prop :=
  o = None \/ exists s r c, o = Some s /\ profile r c s /\ 10 <= c.

(** [a] is a well-formed array of [n] experiment rows. *)
Definition has_rows (n : nat) (a : Nd.ndarray F) : Prop :=
  exists rest, Nd.shape a = n :: rest /\ length (Nd.data a) = n * Nd.prod rest.

(** [a] is a well-formed matrix of [ne] experiments by [nd] detectors. *)
Definition matrix (ne nd : nat) (a : Nd.ndarray F) : Prop :=
  Nd.shape a = [ne; nd] /\ length (Nd.data a) = ne * nd.

(** The number of columns that [[:, ::st]] keeps of [c]. *)
Definition sampled (st c : nat) : nat := length (Nd.every st (seq 0 c)).

(** A sign vector for [nd] detectors whose entries are all +1. Its shape
    is [(nd,)]; [np.squeeze] makes it [()] when there is one detector. *)
Definition all_plus_one (nd : nat) (s : Nd.ndarray F) : Prop :=
  Nd.data s = repeat one nd
  /\ (Nd.shape s = [nd] \/ (nd = 1 /\ Nd.shape s = [])).

(** What a number system has to satisfy for a profile to agree with
    itself in [sens_sign_check]: the ratio [x/x] either trips the
    disagreement test or has sign +1 once a NaN is replaced by 1. It
    holds for binary64 ([x/x] is 1 or NaN) and for the reals ([x/x] is 1,
    or [0/0 = 0], which trips the test). *)
Definition self_ratio_law : Prop :=
  forall x : F,
    (tol <? abs (abs (x / x) - one))%num = true
    \/ (if is_nan (sign (x / x)%num) then one else sign (x / x)%num) = one.

(** [k] copies of the row [row] (of [n] entries) stacked into a matrix:
    what [np.array] makes of the flattened inputs of [avg_data] when the
    inputs are identical. *)
Definition stack (k n : nat) (row : list F) : Nd.ndarray F :=
  Nd.mk_nd [k; n] (concat (repeat row k)).

(** The first [n] rows of an optional field. *)
Definition first_rows (n : nat) (x : option (Nd.ndarray F)) : M (option (Nd.ndarray F)) :=
  match x with
  | Some a => let! b := Nd.slice_rows 0 n a in ret (Some b)
  | None => ret None
  end.

(** The attribute [f] and the labels of the Response Set a call returns. *)
Definition field_of (m : M (response_set F)) (f : string)
  : option (option (Nd.ndarray F)) :=
  match result m with
  | Ok d => Some (attrs d !! f)
  | Raise _ => None
  end.

Definition label_of (m : M (response_set F)) : option (option (list string)) :=
  match result m with
  | Ok d => Some (label d)
  | Raise _ => None
  end.

End Vocabulary.

(** A stand-in for the least-squares solver in examples that never reach it. *)
Definition no_lstsq {F} (a b : Nd.ndarray F) : M (Nd.ndarray F) := raise LinAlgError.

(** Sample binary64 data. *)
Definition mat (r c : nat) (l : list float) : Nd.ndarray float := Nd.mk_nd [r; c] l.

Definition rset (R R_std : Nd.ndarray float) (aux : list (string * Nd.ndarray float))
           (lbl : list string) (s : option (sens_t float)) : response_set float :=
  mk_data (list_to_map (("R", R) :: ("R_std", R_std) :: aux)) (Some lbl) s.

(** A profile of two detectors sampled at five rates. *)
Definition sens5 : sens_t float :=
  mk_sens (mat 2 5 [1; 2; 3; 2; 1; 0; 1; 2; 3; 4]%float) (Nd.vector [-14; -3]%float).

(** A profile of two detectors sampled at twelve rates. *)
Definition sens12 : sens_t float :=
  mk_sens (mat 2 12 [1; 2; 3; 4; 5; 6; 5; 4; 3; 2; 1; 1;
                     0; 0; 0; 1; 2; 3; 4; 5; 6; 7; 8; 9]%float)
          (Nd.vector [-14; -3]%float).

Definition one_row (s : option (sens_t float)) : response_set float :=
  rset (mat 1 2 [5; 6]%float) (mat 1 2 [1; 2]%float) [] ["a"%string] s.

(** One experiment, whose first response has standard deviation zero. *)
Definition exact_row : response_set float :=
  rset (mat 1 2 [1; 2]%float) (mat 1 2 [0; 1]%float) [] ["a"%string] None.

(** Two inputs for [append_data]: [setA] has two experiments, [setB] one.
    Their 'Rc' fields have three and four columns; only [setB] has 'S2'. *)
Definition setA : response_set float :=
  rset (mat 2 2 [1; 2; 3; 4]%float) (mat 2 2 [1; 1; 1; 1]%float)
       [("Rc"%string, mat 2 3 [1; 2; 3; 4; 5; 6]%float)] ["a1"; "a2"]%string None.

Definition setB : response_set float :=
  rset (mat 1 2 [5; 6]%float) (mat 1 2 [1; 1]%float)
       [("Rc"%string, mat 1 4 [7; 8; 9; 10]%float); ("S2"%string, Nd.vector [7]%float)]
       ["b1"%string] None.

(** One experiment in exact arithmetic: responses 5 and 6 with standard
    deviations 1 and 2. *)
Definition real_row : response_set R :=
  mk_data (<["R"%string := Nd.mk_nd [1; 2] [5; 6]%R]>
             (<["R_std"%string := Nd.mk_nd [1; 2] [1; 2]%R]> ∅))
          (Some ["a"%string]) None.

(** Two experiments without 'S2', and one experiment with it. *)
Definition setC : response_set float :=
  rset (mat 2 2 [1; 2; 3; 4]%float) (mat 2 2 [1; 1; 1; 1]%float) []
       ["a1"; "a2"]%string None.

Definition setD : response_set float :=
  rset (mat 1 2 [5; 6]%float) (mat 1 2 [1; 1]%float)
       [("S2"%string, Nd.vector [7]%float)] ["b1"%string] None.

(** A sample store: the profile [sens12] at 1, and two Response Sets
    that share it, [setC] at 2 and [one_row] at 3. *)
Definition setC12 : response_set float := set_sens setC (Some sens12).
Definition row12 : response_set float := one_row (Some sens12).

Definition store3 : Heap.heap float :=
  snd (Heap.hbind (Heap.put_sens sens12) (fun s =>
       Heap.hbind (Heap.put_data setC (Some s)) (fun _ =>
       Heap.put_data (one_row None) (Some s))) Heap.empty).

(** What a call over the store prints and, read back from the store it
    leaves, the Response Set it returns, for the comparison with the
    call on values. *)
Definition outcome_in {A} (r : Heap.H float A) (get : A -> option Heap.loc)
           (σ : Heap.heap float)
  : list msg * option (pyobj float) :=
  (fst (fst (r σ)),
   match snd (fst (r σ)) with
   | Ok a => l ← get a; Heap.read_obj (snd (r σ)) l
   | Raise _ => None
   end).

Definition outcome_of {A} (r : M A) (get : A -> option (response_set float))
  : list msg * option (pyobj float) :=
  (fst r, match snd r with Ok a => Data <$> get a | Raise _ => None end).

End Spec.

(* ===================================================================== *)
(** * Further vocabulary *)
(* ===================================================================== *)

Module Terms.
Import DR Spec.

(** The coordinates as the body of [linear_ex] uses them: reversed when
    a difference is negative. *)
Definition ascending (x0 : list float) : list float :=
  if existsb (fun d => (d <? 0)%float) (B64.diff x0) then rev x0 else x0.

(** The labels [ls] of the [k]-th input with the prefix [labels[k]]. *)
Definition prefixed (ps : list string) (k : nat) (ls : list string) : list string :=
  List.map (fun l => (nth k ps EmptyString ++ l)%string) ls.

Section Terms.
Context {F : Type} {SF : Scalar F}.

(** The values of attribute [f] that the inputs have, in input order. *)
Definition present (f : string) (ds : list (response_set F)) : list (Nd.ndarray F) :=
  omap (fun d => attrs d !! f) ds.

(** The warning of the concatenation loop for the collected values [l]
    of attribute [f]. *)
Definition omitted (f : string) (l : list (Nd.ndarray F)) : list msg :=
  match l with
  | [] => []
  | _ => match result (Nd.concatenate l) with
         | Ok _ => []
         | Raise _ => [WarnOmitted f]
         end
  end.

(** [a'] is [a] with its rows moved: row [k] of [a] is row [index[k]]
    of [a']. *)
Definition moved (index : list Z) (a a' : Nd.ndarray F) : Prop :=
  Nd.shape a' = Nd.shape a
  /\ forall k i, index !! k = Some i ->
                 Nd.blocks a' !! Z.to_nat i = Nd.blocks a !! k.

Definition moved_opt (index : list Z) (x x' : option (Nd.ndarray F)) : Prop :=
  match x, x' with
  | Some a, Some a' => moved index a a'
  | None, None => True
  | _, _ => False
  end.

(** The flattened outer product of two rows: entry [i*n1 + j] is
    [row2[i] * row1[j]]. *)
Definition outer (row1 row2 : list F) : list F :=
  flat_map (fun b => List.map (fun a => (b * a)%num) row1) row2.

(** The bases that [calc_prod] works with: [r] itself when it is a
    list, else one copy of [r] per factor. *)
Definition bases (r : r_arg F) (k : nat) : list (Nd.ndarray F) :=
  List.map resolve (match r with RList l => l | ROne b => repeat b k end).

(** The rows [k*n .. (k+1)*n) of [a], as [a[k*n:(k+1)*n,:]] gives them. *)
Definition block (n k : nat) (a : Nd.ndarray F) : Nd.ndarray F :=
  match Nd.slice_rows (k * n) ((k + 1) * n) a with
  | (_, Ok x) => x
  | _ => a
  end.

(** The Response Set that holds the [k]-th block of 'R' and 'R_std'. *)
Definition frame_part (n : nat) (R0 S0 : Nd.ndarray F) (d : response_set F) (k : nat)
  : response_set F :=
  setattr (setattr d "R" (Some (block n k R0))) "R_std" (Some (block n k S0)).

End Terms.

End Terms.

(* ===================================================================== *)
(** * The label classes: [Default2Parent], [NiceStr], [Strings] *)
(* ===================================================================== *)

Module Labels.

Definition loc := positive.

(** The Python values that occur as attribute values here; [PRef] is a
    reference to a [NiceStr] object. *)
Inductive pyval :=
| PNone
| PBool (b : bool)
| PInt (z : Z)
| PStr (s : string)
| PRef (l : loc).

(** A [Default2Parent] object: [self.value] and [self.varname]. *)
Record descriptor := mk_descr { value : list pyval; varname : string }.

(** [Default2Parent(varname)] *)
Definition Default2Parent (varname : string) : descriptor := mk_descr [] varname.

(** A [NiceStr] object: [self.value] (here [text]), [self.parent],
    [self.range] and [self.index]. *)
Record nice := mk_nice {
  text : pyval;
  parent : loc;
  range : bool;
  index : gmap string nat;
}.

(** The objects in existence: the descriptors that the class [NiceStr]
    holds by attribute name, the [Strings] objects (each one its
    instance dictionary) and the [NiceStr] objects. *)
Record world := mk_world {
  descrs : gmap string descriptor;
  strs : gmap loc (gmap string pyval);
  nices : gmap loc nice;
}.

(** The state once the module is loaded: the class [NiceStr] with its
    three descriptors, and no object yet. *)
Definition loaded : world :=
  mk_world (list_to_map [("unit", Default2Parent "unit");
                         ("include_space", Default2Parent "include_space");
                         ("no_prefix", Default2Parent "no_prefix")]%string)
           ∅ ∅.

(** A computation over these objects: how it ends, and the objects it
    leaves (also when it raises). *)
Definition L (A : Type) : Type := world -> outcome A * world.

Definition lret {A} (a : A) : L A := fun w => (Ok a, w).
Definition lraise {A} (e : exn) : L A := fun w => (Raise e, w).

Definition lbind {A B} (m : L A) (k : A -> L B) : L B := fun w =>
  match m w with
  | (Ok a, w') => k a w'
  | (Raise e, w') => (Raise e, w')
  end.

#[local] Notation "'let^' x ':=' m 'in' k" := (lbind m (fun x => k))
  (at level 10, x name, m at level 100, k at level 200, only parsing).
#[local] Notation "'do^' m 'in' k" := (lbind m (fun _ => k))
  (at level 10, m at level 100, k at level 200, only parsing).

Definition llift {A} (e : exn) (o : option A) : L A :=
  match o with Some a => lret a | None => lraise e end.

Definition get_descr (f : string) : L descriptor := fun w =>
  llift AttributeError (descrs w !! f) w.
Definition put_descr (f : string) (d : descriptor) : L unit := fun w =>
  (Ok tt, mk_world (<[f := d]> (descrs w)) (strs w) (nices w)).

Definition get_nice (l : loc) : L nice := fun w =>
  llift AttributeError (nices w !! l) w.
Definition put_nice (l : loc) (s : nice) : L unit := fun w =>
  (Ok tt, mk_world (descrs w) (strs w) (<[l := s]> (nices w))).

Definition get_dict (l : loc) : L (gmap string pyval) := fun w =>
  llift AttributeError (strs w !! l) w.
Definition put_dict (l : loc) (d : gmap string pyval) : L unit := fun w =>
  (Ok tt, mk_world (descrs w) (<[l := d]> (strs w)) (nices w)).

(** ** [Default2Parent] *)

(** The start of [__get__] and of [__set__], for the descriptor held
    under the name [f] and the instance [inst]:
    [if not(self.varname in instance.index): ...] and
    [i=instance.index[self.varname]]. *)
Definition slot (f : string) (inst : loc) : L nat :=
  let^ d := get_descr f in
  let^ s := get_nice inst in
  match index s !! varname d with
  | Some i => lret i
  | None =>
      let i := length (value d) in
      do^ put_nice inst (mk_nice (text s) (parent s) (range s)
                                 (<[varname d := i]> (index s))) in
      do^ put_descr f (mk_descr (value d ++ [PNone]) (varname d)) in
      lret i
  end.

(** [getattr(o, name)] for a [Strings] object [o]. *)
Definition strings_getattr (o : loc) (name : string) : L pyval :=
  let^ d := get_dict o in
  llift AttributeError (d !! name).

(** [Default2Parent.__get__]: what reading the attribute [f] of the
    [NiceStr] object [inst] runs. *)
Definition descr_get (f : string) (inst : loc) : L pyval :=
  let^ i := slot f inst in
  let^ d := get_descr f in
  let^ v := llift IndexError (value d !! i) in
  match v with
  | PNone =>
      let^ s := get_nice inst in
      strings_getattr (parent s) (varname d)
  | _ => lret v
  end.

(** [Default2Parent.__set__]: what assigning to the attribute [f] of
    the [NiceStr] object [inst] runs. *)
Definition descr_set (f : string) (inst : loc) (v : pyval) : L unit :=
  let^ i := slot f inst in
  let^ d := get_descr f in
  if (i <? length (value d))%nat
  then put_descr f (mk_descr (<[i := v]> (value d)) (varname d))
  else lraise IndexError.

(** ** [NiceStr] *)

(** [NiceStr(value, parent)] *)
Definition nice_init (v : pyval) (p : loc) : L loc := fun w =>
  let l := fresh (dom (nices w)) in
  (Ok l, mk_world (descrs w) (strs w) (<[l := mk_nice v p false ∅]> (nices w))).

(** ** [Strings] *)

(** The names that [Strings.__setattr__] stores as they are. *)
Definition plain : list string := ["unit"; "include_space"; "no_prefix"; "_index"]%string.

(** [Strings.__setattr__] *)
Definition strings_setattr (self : loc) (name : string) (v : pyval) : L unit :=
  if bool_decide (name ∈ plain)
  then
    let^ d := get_dict self in
    put_dict self (<[name := v]> d)
  else
    let^ l := nice_init v self in
    let^ d := get_dict self in
    put_dict self (<[name := PRef l]> d).

(** [Strings(unit, include_space, no_prefix)] *)
Definition strings_init (unit include_space no_prefix : pyval) : L loc :=
  let^ self := (fun w => let l := fresh (dom (strs w)) in
                         (Ok l, mk_world (descrs w) (<[l := ∅]> (strs w)) (nices w))) in
  do^ strings_setattr self "unit" unit in
  do^ strings_setattr self "include_space" include_space in
  do^ strings_setattr self "no_prefix" (PBool false) in
  do^ strings_setattr self "_index" (PInt (-1)) in
  lret self.

(** [x + 1] *)
Definition plus_one (x : pyval) : L pyval :=
  match x with
  | PInt z => lret (PInt (z + 1))
  | PBool b => lret (PInt (if b then 2 else 1))
  | _ => lraise TypeError
  end.

(** ['_{}'.format(x)] for the values that [plus_one] gives. *)
Definition underscore (x : pyval) : L string :=
  match x with
  | PInt z => lret ("_" +:+ pretty z)
  | _ => lraise TypeError
  end.

(** [Strings.__call__] *)
Definition strings_call (self : loc) (string : pyval) : L pyval :=
  let^ k := strings_getattr self "_index" in
  let^ k := plus_one k in
  do^ strings_setattr self "_index" k in
  let^ k := strings_getattr self "_index" in
  let^ name := underscore k in
  do^ strings_setattr self name string in
  let^ k := strings_getattr self "_index" in
  let^ name := underscore k in
  strings_getattr self name.

(** The descriptors are held under their own names, every slot that an
    instance has lies in the list of its descriptor, and no two
    instances have the same slot. *)
Definition consistent (w : world) : Prop :=
  (forall f d, descrs w !! f = Some d -> varname d = f)
  /\ (forall f d a s i, descrs w !! f = Some d -> nices w !! a = Some s ->
                        index s !! f = Some i -> i < length (value d))
  /\ (forall f a b s t i, a <> b -> nices w !! a = Some s -> nices w !! b = Some t ->
                          index s !! f = Some i -> index t !! f <> Some i).

(** What reading the attribute [f] of the [NiceStr] object [inst]
    gives, from the objects as they are: the own value in the slot, or
    for [None] there (and without a slot) the attribute of the parent. *)
Definition reading (f : string) (inst : loc) (w : world) : outcome pyval :=
  match descrs w !! f, nices w !! inst with
  | Some d, Some s =>
      match (match index s !! varname d with
             | Some i => value d !! i
             | None => Some PNone
             end) with
      | None => Raise IndexError
      | Some PNone =>
          match strs w !! parent s with
          | Some dict =>
              match dict !! varname d with
              | Some v => Ok v
              | None => Raise AttributeError
              end
          | None => Raise AttributeError
          end
      | Some v => Ok v
      end
  | _, _ => Raise AttributeError
  end.

(** Samples: the objects after [S = Strings(None, True, True)], and
    after the two calls [S('a')], [S('b')] that follow; [S] is the object
    1, the labels are the objects 1 and 2. *)
Definition one_strings : world :=
  snd (strings_init PNone (PBool true) (PBool true) loaded).

Definition two_labels : world :=
  snd (strings_call 1%positive (PStr "b")
         (snd (strings_call 1%positive (PStr "a") one_strings))).

End Labels.

(* ===================================================================== *)
(** * Properties *)
(* ===================================================================== *)

(** ** The monad *)

Section MonadFacts.
Context {A B : Type}.

Lemma bind_ret_l (a : A) (k : A -> M B) : Py.bind (ret a) k = k a.
Proof. unfold Py.bind, ret. destruct (k a); reflexivity. Qed.

Lemma bind_raise (e : exn) (k : A -> M B) : Py.bind (raise e) k = raise e.
Proof. reflexivity. Qed.

Lemma bind_ok (out : list msg) (a : A) (k : A -> M B) :
  Py.bind (out, Ok a) k = (out ++ fst (k a), snd (k a)).
Proof. unfold Py.bind. destruct (k a); reflexivity. Qed.

Lemma bind_ext (m : M A) (k k' : A -> M B) :
  (forall a, k a = k' a) -> Py.bind m k = Py.bind m k'.
Proof.
  intros H. unfold Py.bind. destruct m as [out [a|e]]; [rewrite H|]; reflexivity.
Qed.

Lemma bind_returns (m : M A) (k : A -> M B) (a : A) :
  m = ret a -> Py.bind m k = k a.
Proof. intros ->. apply bind_ret_l. Qed.

End MonadFacts.

(** A computation that prints nothing. *)
Definition silent {A} (m : M A) : Prop := printed m = [].

Lemma silent_ret {A} (a : A) : silent (ret a).
Proof. reflexivity. Qed.

Lemma silent_raise {A} (e : exn) : silent (@raise A e).
Proof. reflexivity. Qed.

Lemma silent_bind {A B} (m : M A) (k : A -> M B) :
  silent m -> (forall a, silent (k a)) -> silent (Py.bind m k).
Proof.
  unfold silent, printed, Py.bind. destruct m as [out [a|e]]; simpl; intros -> Hk.
  - specialize (Hk a). destruct (k a); simpl in *. assumption.
  - reflexivity.
Qed.

Lemma silent_lift {A} (e : exn) (o : option A) : silent (lift e o).
Proof. destruct o; reflexivity. Qed.

Lemma silent_assert (c : bool) : silent (py_assert c).
Proof. destruct c; reflexivity. Qed.

Lemma silent_py_get {A} (l : list A) (i : Z) : silent (py_get l i).
Proof. unfold py_get. destruct (py_index _ _); [apply silent_lift | reflexivity]. Qed.

Lemma silent_py_set {A} (l : list A) (i : Z) (v : A) : silent (py_set l i v).
Proof. unfold py_set. destruct (py_index _ _); reflexivity. Qed.

Lemma silent_map_m {A B} (f : A -> M B) (l : list A) :
  (forall a, silent (f a)) -> silent (map_m f l).
Proof.
  intros Hf. induction l as [|a l IH]; simpl.
  - reflexivity.
  - apply silent_bind; [apply Hf|]. intros b.
    apply silent_bind; [apply IH|]. intros bs. reflexivity.
Qed.

Create HintDb silent.
#[export] Hint Resolve silent_ret silent_raise silent_lift silent_assert
  silent_py_get silent_py_set : silent.

Ltac silent_step :=
  match goal with
  | |- silent (Py.bind _ _) => apply silent_bind; [|intros]
  | |- silent (match ?x with _ => _ end) => destruct x
  | |- silent (if ?c then _ else _) => destruct c
  | |- silent (let '(_, _) := ?p in _) => destruct p
  | |- silent _ => solve [auto with silent]
  end.

(** ** [linear_ex] *)

Section LinearExFacts.
Import LinearEx B64.

Lemma silent_val_get I0 i : silent (val_get I0 i).
Proof. destruct I0; simpl; repeat silent_step. Qed.

Lemma silent_to_int64 v : silent (to_int64 v).
Proof.
  unfold to_int64. destruct (Prim2SF v) as [s|s| |s m e]; try reflexivity.
  cbv zeta. destruct (_ && _); reflexivity.
Qed.

Lemma silent_val_set I0 i v : silent (val_set I0 i v).
Proof.
  destruct I0; cbn [val_set].
  - apply silent_bind; [apply silent_to_int64|]. intros z. repeat silent_step.
  - repeat silent_step.
Qed.

Lemma silent_val_copy I0 i j : silent (val_copy I0 i j).
Proof. destruct I0; simpl; repeat silent_step. Qed.

Lemma silent_swapaxes0 {A} (a : A) d : silent (swapaxes0 a d).
Proof. unfold swapaxes0. repeat silent_step. Qed.

Hint Resolve silent_val_get silent_val_set silent_val_copy silent_swapaxes0 : silent.

Lemma silent_pad_low mode xmin x0 I0 : silent (pad_low mode xmin x0 I0).
Proof. unfold pad_low. repeat silent_step. Qed.

Lemma silent_pad_high mode xmax x0 I0 : silent (pad_high mode xmax x0 I0).
Proof. unfold pad_high. repeat silent_step. Qed.

Lemma silent_np_min l : silent (np_min l).
Proof. destruct l; reflexivity. Qed.

Lemma silent_np_max l : silent (np_max l).
Proof. destruct l; reflexivity. Qed.

Lemma silent_digitize x bins : silent (digitize x bins).
Proof. unfold digitize. repeat silent_step. Qed.

Lemma silent_interpolate1 x0 I0 xi : silent (interpolate1 x0 I0 xi).
Proof. unfold interpolate1. destruct xi. repeat silent_step. Qed.

Hint Resolve silent_pad_low silent_pad_high silent_np_min silent_np_max
  silent_digitize silent_interpolate1 : silent.

Lemma silent_linear_ex x0 I0 x dim mode : silent (linear_ex x0 I0 x dim mode).
Proof.
  unfold linear_ex.
  repeat first [ silent_step | apply silent_map_m; intros ].
Qed.

(** In every mode but 'last_slope' the two padding blocks take their
    [else] branch. *)
Lemma pad_low_other mode xmin x0 I0 :
  is_last_slope mode = false ->
  pad_low mode xmin x0 I0 =
  (let! I0' := val_copy (insert_zero I0) 0 1 in ret ((xmin - 1)%float :: x0, I0')).
Proof. unfold pad_low. intros ->. reflexivity. Qed.

Lemma pad_high_other mode xmax x0 I0 :
  is_last_slope mode = false ->
  pad_high mode xmax x0 I0 =
  (let! I0' := val_copy (append_zero I0) (-1) (-2) in
   ret (x0 ++ [(xmax + 1)%float], I0')).
Proof. unfold pad_high. intros ->. reflexivity. Qed.

Lemma linear_ex_other_modes x0 I0 x dim mode mode' :
  is_last_slope mode = false -> is_last_slope mode' = false ->
  linear_ex x0 I0 x dim mode = linear_ex x0 I0 x dim mode'.
Proof.
  intros H H'. unfold linear_ex.
  repeat match goal with
         | |- Py.bind ?m _ = Py.bind ?m _ => apply bind_ext; intros
         | |- (let '(_, _) := ?p in _) = _ => destruct p
         | |- context [pad_low mode] =>
             rewrite (pad_low_other mode), (pad_low_other mode') by assumption
         | |- context [pad_high mode] =>
             rewrite (pad_high_other mode), (pad_high_other mode') by assumption
         | |- Py.bind (if ?c then _ else _) _ = _ => destruct c
         | |- _ => reflexivity
         end.
Qed.

Lemma py_get_last {A} (l : list A) (a b : A) : py_get (l ++ [a; b]) (-2) = ret a.
Proof.
  unfold py_get, py_index. rewrite length_app. simpl length.
  replace (0 <=? -2)%Z with false by reflexivity.
  replace (- Z.of_nat (length l + 2) <=? -2)%Z with true
    by (symmetry; apply Z.leb_le; lia).
  replace (Z.to_nat (Z.of_nat (length l + 2) + -2)) with (length l + 0)%nat by lia.
  rewrite nth_error_app2 by lia.
  replace (length l + 0 - length l)%nat with 0%nat by lia. reflexivity.
Qed.

Lemma py_set_last {A} (l : list A) (a b c : A) :
  py_set (l ++ [a; b]) (-1) c = ret (l ++ [a; c]).
Proof.
  unfold py_set, py_index. rewrite length_app. simpl length.
  replace (0 <=? -1)%Z with false by reflexivity.
  replace (- Z.of_nat (length l + 2) <=? -1)%Z with true
    by (symmetry; apply Z.leb_le; lia).
  replace (Z.to_nat (Z.of_nat (length l + 2) + -1)) with (length l + 1)%nat by lia.
  f_equal.
  rewrite firstn_app, skipn_app.
  rewrite firstn_all2 by lia.
  replace (length l + 1 - length l)%nat with 1%nat by lia.
  rewrite skipn_all2 by lia.
  replace (S (length l + 1) - length l)%nat with 2%nat by lia.
  simpl. rewrite <- app_assoc. reflexivity.
Qed.

Lemma py_get_second {A} (l : list A) (a b : A) : py_get (a :: b :: l) 1 = ret b.
Proof.
  unfold py_get, py_index. simpl length.
  replace (0 <=? 1)%Z with true by reflexivity.
  replace (1 <? Z.of_nat (S (S (length l))))%Z with true
    by (symmetry; apply Z.ltb_lt; lia).
  reflexivity.
Qed.

Lemma py_set_first {A} (l : list A) (a c : A) : py_set (a :: l) 0 c = ret (c :: l).
Proof.
  unfold py_set, py_index. simpl length.
  replace (0 <=? 0)%Z with true by reflexivity.
  replace (0 <? Z.of_nat (S (length l)))%Z with true
    by (symmetry; apply Z.ltb_lt; lia).
  reflexivity.
Qed.

(** What the two blocks synthesize outside 'last_slope' mode: the new
    boundary sample repeats the boundary value next to it. *)
Lemma pad_low_repeats mode xmin x0 :
  is_last_slope mode = false ->
  (forall a l, pad_low mode xmin x0 (FltArr (a :: l))
               = ret ((xmin - 1)%float :: x0, FltArr (a :: a :: l)))
  /\ (forall a l, pad_low mode xmin x0 (IntArr (a :: l))
                  = ret ((xmin - 1)%float :: x0, IntArr (a :: a :: l))).
Proof.
  intros H. split; intros a l; rewrite pad_low_other by assumption;
    unfold insert_zero, val_copy;
    rewrite py_get_second, bind_ret_l, py_set_first; reflexivity.
Qed.

Lemma pad_high_repeats mode xmax x0 :
  is_last_slope mode = false ->
  (forall l a, pad_high mode xmax x0 (FltArr (l ++ [a]))
               = ret (x0 ++ [(xmax + 1)%float], FltArr (l ++ [a; a])))
  /\ (forall l a, pad_high mode xmax x0 (IntArr (l ++ [a]))
                  = ret (x0 ++ [(xmax + 1)%float],
                         FltArr (List.map of_int64 l ++ [of_int64 a; of_int64 a]))).
Proof.
  intros H. split; intros l a; rewrite pad_high_other by assumption;
    unfold append_zero, val_copy.
  - rewrite <- app_assoc. simpl app.
    rewrite py_get_last, bind_ret_l, py_set_last. reflexivity.
  - rewrite map_app. simpl List.map. rewrite <- app_assoc. simpl app.
    rewrite py_get_last, bind_ret_l, py_set_last. reflexivity.
Qed.

(** C4: the end-to-end example. With [x0=[0,1,2]], [I0=[0,10,20]],
    [x=[-1,0.5,3]] and [mode='last_slope'], [linear_ex] returns
    [[-10,5,30]], for [I0] given as Python ints (an int64 array) and as
    floats alike. The two synthesized samples lie on the line of slope 10
    through the two lowest and the two highest samples: (-2,-20) below
    and (4,40) above; 0.5 is interpolated between (0,0) and (1,10). *)
Theorem linear_ex_example :
  linear_ex [0; 1; 2]%float (IntArr [0; 10; 20]%Z) (QVec [-1; 0.5; 3]%float)
            None "last_slope"
  = ret (AVec [-10; 5; 30]%float)
  /\ linear_ex [0; 1; 2]%float (FltArr [0; 10; 20]%float) (QVec [-1; 0.5; 3]%float)
               None "last_slope"
     = ret (AVec [-10; 5; 30]%float)
  /\ pad_low "last_slope" (-1)%float [0; 1; 2]%float (IntArr [0; 10; 20]%Z)
     = ret ([-2; 0; 1; 2]%float, IntArr [-20; 0; 10; 20]%Z)
  /\ pad_high "last_slope" 3%float [-2; 0; 1; 2]%float (IntArr [-20; 0; 10; 20]%Z)
     = ret ([-2; 0; 1; 2; 4]%float, FltArr [-20; 0; 10; 20; 40]%float)
  /\ digitize [-1; 0.5; 3]%float [-2; 0; 1; 2; 4]%float = ret [1; 2; 4]%Z.
Proof. repeat split; vm_compute; reflexivity. Qed.

(** C10: [linear_ex] does not validate [mode]. For every string whose
    lower-case form is not 'last_slope', a call returns, raises and prints
    exactly as the call in 'last_value' mode does (and it never prints):
    under [if x.min()<=x0[0]] the synthesized first sample repeats the
    first value of [I0], under [if x.max()>=x0[-1]] the synthesized last
    sample repeats the last value. *)
Theorem linear_ex_mode_not_validated (mode : string) :
  lower mode <> "last_slope"%string ->
  (forall x0 I0 x dim,
      linear_ex x0 I0 x dim mode = linear_ex x0 I0 x dim "last_value"
      /\ printed (linear_ex x0 I0 x dim mode) = [])
  /\ (forall xmin x0 a l,
         pad_low mode xmin x0 (FltArr (a :: l))
         = ret ((xmin - 1)%float :: x0, FltArr (a :: a :: l)))
  /\ (forall xmin x0 a l,
         pad_low mode xmin x0 (IntArr (a :: l))
         = ret ((xmin - 1)%float :: x0, IntArr (a :: a :: l)))
  /\ (forall xmax x0 l a,
         pad_high mode xmax x0 (FltArr (l ++ [a]))
         = ret (x0 ++ [(xmax + 1)%float], FltArr (l ++ [a; a])))
  /\ (forall xmax x0 l a,
         pad_high mode xmax x0 (IntArr (l ++ [a]))
         = ret (x0 ++ [(xmax + 1)%float],
                FltArr (List.map of_int64 l ++ [of_int64 a; of_int64 a]))).
Proof.
  intros Hmode.
  assert (H : is_last_slope mode = false).
  { unfold is_last_slope. apply String.eqb_neq. assumption. }
  repeat split.
  - apply linear_ex_other_modes; [assumption | reflexivity].
  - apply silent_linear_ex.
  - intros xmin x0. apply (pad_low_repeats mode xmin x0 H).
  - intros xmin x0. apply (pad_low_repeats mode xmin x0 H).
  - intros xmax x0. apply (pad_high_repeats mode xmax x0 H).
  - intros xmax x0. apply (pad_high_repeats mode xmax x0 H).
Qed.

(** The misspelt mode 'last_slop' on the samples of the example: the two
    queries outside [0,2] get the boundary values 0 and 20. *)
Lemma linear_ex_mode_not_validated_witness :
  linear_ex [0; 1; 2]%float (FltArr [0; 10; 20]%float) (QVec [-1; 0.5; 3]%float)
            None "last_slop"
  = linear_ex [0; 1; 2]%float (FltArr [0; 10; 20]%float) (QVec [-1; 0.5; 3]%float)
              None "last_value"
  /\ linear_ex [0; 1; 2]%float (FltArr [0; 10; 20]%float) (QVec [-1; 0.5; 3]%float)
               None "last_slop"
     = ret (AVec [0; 5; 20]%float).
Proof.
  split.
  - apply (proj1 (linear_ex_mode_not_validated "last_slop"
                    ltac:(vm_compute; discriminate))).
  - vm_compute. reflexivity.
Defined.

End LinearExFacts.

(** ** [dict2list] and dict inputs *)

Section DictFacts.
Import DR Spec.
Context {F : Type} {SF : Scalar F}.

Lemma dict2list_fold (items : list (string * pyobj F)) labels data :
  fold_left
    (fun '(labels, data) '(l, d) =>
       if hasattr d "R" && hasattr d "R_std" && hasattr d "label"
       then (labels ++ [l], data ++ [d])
       else (labels, data))
    items (labels, data)
  = (labels ++ List.map fst (List.filter (fun kv => kept (snd kv)) items),
     data ++ List.map snd (List.filter (fun kv => kept (snd kv)) items)).
Proof.
  unfold kept.
  revert labels data. induction items as [|[l d] items IH]; intros labels data; simpl.
  - rewrite !app_nil_r. reflexivity.
  - destruct (hasattr d "R" && hasattr d "R_std" && hasattr d "label"); simpl.
    + rewrite IH, <- !app_assoc. reflexivity.
    + apply IH.
Qed.

Lemma dict2list_filter (items : list (string * pyobj F)) :
  dict2list items
  = (List.map snd (List.filter (fun kv => kept (snd kv)) items),
     List.map fst (List.filter (fun kv => kept (snd kv)) items)).
Proof. unfold dict2list. rewrite dict2list_fold. reflexivity. Qed.

Lemma kept_other (r s : option (option (Nd.ndarray F))) l :
  kept (Other r s l) = false <-> r = None \/ s = None \/ l = None.
Proof.
  unfold kept, hasattr. simpl.
  destruct r, s, l; simpl; split; intros H; try discriminate; auto;
    destruct H as [H|[H|H]]; discriminate.
Qed.

(** C9: a dict handed to [avg_data] or [append_data] goes through
    [dict2list], which keeps, in iteration order, the entries whose value
    has all of 'R', 'R_std' and 'label', and drops the others without
    printing or raising ([dict2list] has no such effect): the call is
    the call on the list of kept values, and the default label prefixes
    of [append_data] are the kept keys. *)
Theorem dict_entries_without_attributes_omitted (items : list (string * pyobj F)) :
  let keep := List.filter (fun kv => kept (snd kv)) items in
  dict2list items = (List.map snd keep, List.map fst keep)
  /\ (forall d : response_set F, kept (Data d) = true)
  /\ (forall (r s : option (option (Nd.ndarray F))) l,
         kept (Other r s l) = false <-> r = None \/ s = None \/ l = None)
  /\ (forall weighted weight r_no_opt,
         avg_data (AsDict items) weighted weight r_no_opt
         = avg_data (AsList (List.map snd keep)) weighted weight r_no_opt)
  /\ (forall index,
         append_data (AsDict items) LNone index
         = append_data (AsList (List.map snd keep)) (LList (List.map fst keep)) index)
  /\ (forall index,
         append_data (AsDict items) (LStr "") index
         = append_data (AsList (List.map snd keep)) LNone index)
  /\ (forall l index,
         append_data (AsDict items) (LList l) index
         = append_data (AsList (List.map snd keep)) (LList l) index).
Proof.
  intros keep. subst keep.
  repeat split.
  - apply dict2list_filter.
  - apply kept_other.
  - apply kept_other.
  - unfold avg_data. rewrite dict2list_filter. reflexivity.
  - unfold append_data. rewrite dict2list_filter. reflexivity.
  - unfold append_data. rewrite dict2list_filter. reflexivity.
  - unfold append_data. rewrite dict2list_filter. reflexivity.
Qed.

End DictFacts.

(** ** The input check of [calc_prod] *)

Section CalcProdFacts.
Import DR Spec.

(** C8 as the code has it: without a list and without [nf], [calc_prod]
    prints its message and returns [None] at once; it raises nothing and
    computes nothing. *)
Theorem calc_prod_missing_nf_returns_none
        {F : Type} {SF : Scalar F} (lstsq : Nd.ndarray F -> Nd.ndarray F -> M (Nd.ndarray F))
        (d : pyobj F) (r : r_arg F) :
  calc_prod lstsq (DOne d) r None = ([MsgNeedFrames], Ok None).
Proof. reflexivity. Qed.

(** C8 as stated fails: for a single Response Set and [nf=None] the call
    completes normally (no exception reaches the caller) and yields
    [None]. *)
Lemma calc_prod_missing_nf_not_fatal :
  ~ raises (calc_prod no_lstsq (DOne (Data setA)) (ROne (Raw (mat 1 1 [1%float]))) None)
  /\ returns (calc_prod no_lstsq (DOne (Data setA)) (ROne (Raw (mat 1 1 [1%float]))) None)
             None.
Proof.
  split.
  - intros [e He]. discriminate He.
  - reflexivity.
Qed.

End CalcProdFacts.

(** ** Arrays *)

Section NdFacts.
Context {A : Type}.
Implicit Types (l : list A) (s t : list nat).

Lemma chunks_length m k l : length (Nd.chunks m k l) = m.
Proof. revert l. induction m as [|m IH]; intros l; simpl; [|rewrite IH]; reflexivity. Qed.

Lemma chunks_all_length m k l :
  length l = m * k -> Forall (fun c => length c = k) (Nd.chunks m k l).
Proof.
  revert l. induction m as [|m IH]; intros l Hl; simpl.
  - constructor.
  - constructor.
    + rewrite length_take. lia.
    + apply IH. rewrite length_drop. lia.
Qed.

Lemma concat_chunks m k l : length l = m * k -> concat (Nd.chunks m k l) = l.
Proof.
  revert l. induction m as [|m IH]; intros l Hl; simpl.
  - destruct l; [reflexivity | discriminate].
  - rewrite IH by (rewrite length_drop; lia). apply take_drop.
Qed.

Lemma chunks_app m k l l' :
  length l = k -> Nd.chunks (S m) k (l ++ l') = l :: Nd.chunks m k l'.
Proof.
  intros Hl. simpl. rewrite take_app_length', drop_app_length' by (symmetry; assumption).
  reflexivity.
Qed.

Lemma chunks_concat_repeat m k l :
  length l = k -> Nd.chunks m k (concat (repeat l m)) = repeat l m.
Proof.
  intros Hl. induction m as [|m IH]; [reflexivity|].
  cbn [repeat concat]. rewrite chunks_app by assumption. rewrite IH. reflexivity.
Qed.

Lemma pad_shape_same s : Nd.pad_shape (length s) s = s.
Proof. unfold Nd.pad_shape. rewrite Nat.sub_diag. reflexivity. Qed.

Lemma bshape_same s : Nd.bshape s s = Some s.
Proof.
  induction s as [|a s IH]; simpl; [reflexivity|].
  rewrite IH, Nat.eqb_refl. reflexivity.
Qed.

Lemma expand_same t l : length l = Nd.prod t -> Nd.expand t t l = l.
Proof.
  revert l. induction t as [|n t IH]; intros l Hl; simpl; [reflexivity|].
  rewrite Nat.eqb_refl. simpl in Hl.
  rewrite <- (concat_chunks n (Nd.prod t) l) at 2 by assumption.
  f_equal.
  pose proof (chunks_all_length n (Nd.prod t) l Hl) as Hall.
  induction Hall as [|c cs Hc _ IHc]; simpl; [reflexivity|].
  rewrite IH by assumption. f_equal. assumption.
Qed.

Lemma shape_eqb_refl s : Nd.shape_eqb s s = true.
Proof. unfold Nd.shape_eqb. destruct (decide (s = s)); congruence. Qed.

Lemma shape_eqb_eq s t : Nd.shape_eqb s t = true <-> s = t.
Proof. unfold Nd.shape_eqb. destruct (decide (s = t)); split; congruence. Qed.

Lemma combine_diag l : combine l l = List.map (fun x => (x, x)) l.
Proof. induction l as [|x l IH]; simpl; [|rewrite IH]; reflexivity. Qed.

(** The number of elements [every] keeps depends on the length only. *)
Lemma every_aux_length {B} st k l (l' : list B) :
  length l = length l' ->
  length (Nd.every_aux st k l) = length (Nd.every_aux st k l').
Proof.
  revert k l'. induction l as [|x l IH]; intros k [|y l'] Hl; try discriminate.
  - reflexivity.
  - simpl. destruct k; simpl; [f_equal|]; apply IH; simpl in Hl; lia.
Qed.

Lemma every_aux_Forall (P : A -> Prop) st k l :
  Forall P l -> Forall P (Nd.every_aux st k l).
Proof.
  intros H. revert k. induction H as [|x l Hx _ IH]; intros k; simpl.
  - constructor.
  - destruct k; [constructor; [assumption|]|]; apply IH.
Qed.

Lemma every_aux_nonempty st l : l <> [] -> Nd.every_aux st 0 l <> [].
Proof. destruct l; [congruence | simpl; discriminate]. Qed.

Lemma length_concat_const (ls : list (list A)) k :
  Forall (fun c => length c = k) ls -> length (concat ls) = length ls * k.
Proof.
  induction 1 as [|c cs Hc _ IH]; simpl; [reflexivity|].
  rewrite length_app, IH, Hc. reflexivity.
Qed.

End NdFacts.

Section NdZipFacts.
Context {A B C : Type}.

Lemma zip_with_same_shape (f : A -> B -> C) (a : Nd.ndarray A) (b : Nd.ndarray B) :
  Nd.shape a = Nd.shape b ->
  Nd.zip_with f a b
  = ret (Nd.mk_nd (Nd.shape a)
           (List.map (fun p => f (fst p) (snd p))
              (combine (Nd.expand (Nd.shape a) (Nd.shape a) (Nd.data a))
                       (Nd.expand (Nd.shape a) (Nd.shape a) (Nd.data b))))).
Proof.
  intros Hs. unfold Nd.zip_with, Nd.broadcast_to, Nd.ndim. rewrite <- Hs.
  rewrite Nat.max_id, pad_shape_same, bshape_same, pad_shape_same. reflexivity.
Qed.

End NdZipFacts.

(** An array zipped with itself. *)
Lemma zip_with_self {A C} (f : A -> A -> C) (a : Nd.ndarray A) :
  Nd.zip_with f a a
  = ret (Nd.mk_nd (Nd.shape a)
           (List.map (fun x => f x x)
                     (Nd.expand (Nd.shape a) (Nd.shape a) (Nd.data a)))).
Proof.
  rewrite zip_with_same_shape by reflexivity. rewrite combine_diag, List.map_map.
  reflexivity.
Qed.

(** ** [sens_sign_check] *)

Section SignFacts.
Import DR Spec.
Context {F : Type} {SF : Scalar F}.
Implicit Types (a : Nd.ndarray F) (d : response_set F) (s : sens_t F).

Lemma py_get_first {A} (x : A) (l : list A) : py_get (x :: l) 0 = ret x.
Proof.
  unfold py_get, py_index. simpl length.
  replace (0 <=? 0)%Z with true by reflexivity.
  replace (0 <? Z.of_nat (S (length l)))%Z with true
    by (symmetry; apply Z.ltb_lt; lia).
  reflexivity.
Qed.

Lemma py_get_minus_one {A} (l : list A) (x : A) : py_get (l ++ [x]) (-1) = ret x.
Proof.
  unfold py_get, py_index. rewrite length_app. simpl length.
  replace (0 <=? -1)%Z with false by reflexivity.
  replace (- Z.of_nat (length l + 1) <=? -1)%Z with true
    by (symmetry; apply Z.leb_le; lia).
  replace (Z.to_nat (Z.of_nat (length l + 1) + -1)) with (length l + 0)%nat by lia.
  rewrite nth_error_app2 by lia.
  replace (length l + 0 - length l)%nat with 0%nat by lia. reflexivity.
Qed.

Lemma py_get_minus_one_ok {A} (l : list A) :
  l <> [] -> exists x, py_get l (-1) = ret x.
Proof.
  intros Hl. destruct (exists_last Hl) as [l' [x ->]].
  exists x. apply py_get_minus_one.
Qed.

Lemma shape_at_1 a r c : Nd.shape a = [r; c] -> Nd.shape_at a 1 = ret c.
Proof. intros H. unfold Nd.shape_at. rewrite H. reflexivity. Qed.

Lemma stride_cols_matrix a r c st :
  Nd.shape a = [r; c] -> st <> 0 ->
  Nd.stride_cols (Z.of_nat st) a
  = ret (Nd.mk_nd [r; sampled st c]
           (concat (List.map (fun row => concat (Nd.every st (Nd.chunks c 1 row)))
                             (Nd.chunks r (c * 1) (Nd.data a))))).
Proof.
  intros Hs Hst. unfold Nd.stride_cols. rewrite Hs.
  destruct (Z.eqb_spec (Z.of_nat st) 0) as [E|E]; [lia|].
  rewrite Nat2Z.id. reflexivity.
Qed.

Lemma sampled_pos st c : 0 < c -> 0 < sampled st c.
Proof.
  unfold sampled, Nd.every. destruct c; [lia|]. intros _. simpl. lia.
Qed.

Lemma strided_length (rows : list (list F)) c st :
  Forall (fun row => length row = c * 1) rows ->
  length (concat (List.map (fun row => concat (Nd.every st (Nd.chunks c 1 row))) rows))
  = length rows * sampled st c.
Proof.
  intros Hrows.
  rewrite (length_concat_const _ (sampled st c)); [rewrite length_map; reflexivity|].
  apply Forall_map. eapply Forall_impl; [exact Hrows|].
  intros row Hrow. simpl.
  rewrite (length_concat_const _ 1).
  - unfold sampled, Nd.every. rewrite Nat.mul_1_r.
    apply every_aux_length. rewrite chunks_length, length_seq. reflexivity.
  - apply every_aux_Forall. apply chunks_all_length. assumption.
Qed.

Lemma first_last_vector a m :
  Nd.shape a = [S m] -> exists z, Nd.first_last a = ret z /\ Nd.shape z = [2].
Proof.
  intros Hs. unfold Nd.first_last. rewrite Hs.
  remember (Nd.chunks (S m) (Nd.prod []) (Nd.data a)) as bs eqn:Hbs.
  assert (Hlen : length bs = S m) by (subst bs; apply chunks_length).
  destruct bs as [|b0 bs]; [discriminate|].
  rewrite py_get_first, bind_ret_l.
  destruct (py_get_minus_one_ok (b0 :: bs)) as [b1 Hb1]; [discriminate|].
  rewrite Hb1, bind_ret_l. eexists. split; reflexivity.
Qed.

(** The reference block on a profile of at least ten samples. *)
Lemma ref_profile_ok d s r c :
  sens d = Some s -> profile r c s -> 10 <= c ->
  exists rhoz0 z0,
    ref_profile d = ret (Some (rhoz0, Z.of_nat (c / 10), z0))
    /\ Nd.stride_cols (Z.of_nat (c / 10)) (rho_eff s) = ret rhoz0
    /\ Nd.first_last (tc s) = ret z0
    /\ Nd.shape rhoz0 = [r; sampled (c / 10) c]
    /\ length (Nd.data rhoz0) = r * sampled (c / 10) c
    /\ Nd.shape z0 = [2].
Proof.
  intros Hs (Hshape & Hlen & m & Htc) Hc.
  assert (Hst : c / 10 <> 0).
  { intros E. apply Nat.div_small_iff in E; lia. }
  destruct (first_last_vector _ _ Htc) as (z0 & Hz0 & Hz0s).
  eexists _, z0. unfold ref_profile. rewrite Hs.
  rewrite (shape_at_1 _ _ _ Hshape), bind_ret_l.
  rewrite (stride_cols_matrix _ _ _ _ Hshape Hst), bind_ret_l.
  rewrite Hz0, bind_ret_l.
  repeat split; try reflexivity; try assumption.
  simpl Nd.data. rewrite strided_length.
  - rewrite chunks_length. reflexivity.
  - apply chunks_all_length. rewrite Hlen. lia.
Qed.

Lemma all_eq_returns (z0 z : Nd.ndarray F) :
  Nd.shape z0 = [2] -> Nd.shape z = [2] -> exists b, all_eq z0 z = ret b.
Proof.
  intros H0 H. unfold all_eq.
  rewrite zip_with_same_shape by congruence. rewrite bind_ret_l.
  eexists. reflexivity.
Qed.

Lemma mode_axis1_matrix a r c :
  Nd.shape a = [r; c] ->
  Nd.mode_axis1 a
  = ret (if (r * c =? 0)%nat then Nd.mk_nd [0] []
         else Nd.mk_nd [r; 1] (omap Nd.mode1D (Nd.chunks r c (Nd.data a)))).
Proof.
  intros H. unfold Nd.mode_axis1. rewrite H.
  destruct (r * c =? 0)%nat; reflexivity.
Qed.

(** With a usable reference, the loop body returns for every Response
    Set without a profile or with a matrix profile. *)
Lemma candidate_sign_returns rhoz0 st z0 nd k d r0 c0 :
  Nd.shape rhoz0 = [r0; c0] -> st <> 0 -> Nd.shape z0 = [2] ->
  (sens d = None \/ exists s r c, sens d = Some s /\ profile r c s) ->
  exists out sg,
    candidate_sign (Some (rhoz0, Z.of_nat st, z0)) nd k (Data d) = (out, Ok sg).
Proof.
  intros H0 Hst Hz0 Hd. unfold candidate_sign, get_sens.
  rewrite bind_ret_l.
  destruct Hd as [-> | (s & r & c & -> & Hshape & Hlen & m & Htc)].
  { eexists _, _. reflexivity. }
  rewrite (stride_cols_matrix _ _ _ _ Hshape Hst), bind_ret_l.
  simpl Nd.shape.
  destruct (Nd.shape_eqb (Nd.shape rhoz0) [r; sampled st c]) eqn:E.
  - destruct (first_last_vector _ _ Htc) as (z & -> & Hz).
    rewrite bind_ret_l.
    destruct (all_eq_returns z0 z Hz0 Hz) as [[|] ->]; rewrite bind_ret_l.
    + apply shape_eqb_eq in E.
      rewrite zip_with_same_shape by (rewrite E; reflexivity).
      rewrite bind_ret_l. simpl Nd.data.
      match goal with |- context [existsb ?f ?l] => destruct (existsb f l) end.
      * eexists _, _. reflexivity.
      * erewrite mode_axis1_matrix by (simpl; exact H0).
        rewrite bind_ret_l. eexists _, _. reflexivity.
    + eexists _, _. reflexivity.
  - rewrite bind_ret_l. eexists _, _. reflexivity.
Qed.

Lemma fold_pick_In {A} (g : A -> A -> bool) (t : list A) (v : A) :
  In (fold_left (fun best w => if g w best then w else best) t v) (v :: t).
Proof.
  revert v. induction t as [|w t IH]; intros v; simpl.
  - left. reflexivity.
  - destruct (IH (if g w v then w else v)) as [H|H].
    + destruct (g w v); [right; left | left]; symmetry; exact (eq_sym H).
    + right. right. exact H.
Qed.

Lemma mode1D_In (l : list F) (v : F) : Nd.mode1D l = Some v -> In v l.
Proof.
  destruct l as [|x t]; simpl; [discriminate|].
  intros [= <-]. apply fold_pick_In.
Qed.

Lemma modes_of_rows (P : F -> Prop) (rows : list (list F)) :
  Forall (fun c => c <> [] /\ Forall P c) rows ->
  length (omap Nd.mode1D rows) = length rows /\ Forall P (omap Nd.mode1D rows).
Proof.
  induction 1 as [|c cs [Hne Hc] _ [IHl IHP]]; simpl.
  - split; [reflexivity | constructor].
  - destruct (Nd.mode1D c) as [v|] eqn:E.
    + simpl. split; [f_equal; exact IHl|].
      constructor; [|exact IHP].
      apply mode1D_In in E. rewrite Forall_forall in Hc.
      apply Hc. apply list_elem_of_In. exact E.
    + destruct c; [congruence | discriminate].
Qed.

Lemma map_to_one (l : list F) :
  Forall (fun v => (if is_nan v then one else v) = one) l ->
  List.map (fun x => if is_nan x then one else x) l = repeat one (length l).
Proof.
  induction 1 as [|v l Hv _ IH]; simpl; [reflexivity|].
  rewrite Hv, IH. reflexivity.
Qed.

Lemma nan_to_one_ones nd : nan_to_one (Nd.ones nd) = Nd.ones (F:=F) nd.
Proof.
  unfold nan_to_one, Nd.map, Nd.ones. simpl. f_equal.
  induction nd as [|n IH]; simpl; [reflexivity|].
  rewrite IH. destruct (is_nan one); reflexivity.
Qed.

Lemma all_plus_one_ones nd : all_plus_one nd (Nd.ones nd).
Proof. split; [reflexivity | left; reflexivity]. Qed.

Lemma chunks_Forall (P : F -> Prop) m k (l : list F) :
  Forall P l -> Forall (Forall P) (Nd.chunks m k l).
Proof.
  revert l. induction m as [|m IH]; intros l Hl; simpl; constructor.
  - apply Forall_take. assumption.
  - apply IH. apply Forall_drop. assumption.
Qed.

Lemma existsb_false_Forall {A} (f : A -> bool) (l : list A) :
  existsb f l = false -> Forall (fun x => f x = false) l.
Proof.
  induction l as [|x l IH]; simpl; intros H; constructor;
    apply orb_false_iff in H; destruct H; auto.
Qed.

(** A candidate whose profile is the reference profile gets the sign +1
    for every detector, whichever branch the loop body takes. *)
Lemma candidate_sign_self d s nd c k rhoz0 z0 :
  self_ratio_law ->
  sens d = Some s -> profile nd c s -> 10 <= c ->
  Nd.stride_cols (Z.of_nat (c / 10)) (rho_eff s) = ret rhoz0 ->
  Nd.first_last (tc s) = ret z0 ->
  Nd.shape rhoz0 = [nd; sampled (c / 10) c] ->
  length (Nd.data rhoz0) = nd * sampled (c / 10) c ->
  Nd.shape z0 = [2] ->
  exists out sg,
    candidate_sign (Some (rhoz0, Z.of_nat (c / 10), z0)) nd k (Data d) = (out, Ok sg)
    /\ all_plus_one nd (nan_to_one sg).
Proof.
  intros Hlaw Hs Hprof Hc Hstride Hfl Hshape Hlen Hz0.
  unfold candidate_sign, get_sens. rewrite bind_ret_l, Hs, Hstride, bind_ret_l.
  rewrite shape_eqb_refl, Hfl, bind_ret_l.
  destruct (all_eq_returns z0 z0 Hz0 Hz0) as [[|] ->]; rewrite bind_ret_l.
  2:{ eexists _, _. split; [reflexivity|].
      rewrite nan_to_one_ones. apply all_plus_one_ones. }
  rewrite zip_with_self, bind_ret_l. simpl Nd.data.
  rewrite expand_same
    by (rewrite Hshape; unfold Nd.prod; cbn [fold_right]; rewrite Nat.mul_1_r; exact Hlen).
  match goal with |- context [existsb ?f ?l] => destruct (existsb f l) eqn:Ex end.
  { eexists _, _. split; [reflexivity|].
    rewrite nan_to_one_ones. apply all_plus_one_ones. }
  erewrite mode_axis1_matrix by (simpl; exact Hshape).
  rewrite bind_ret_l. eexists _, _. split; [reflexivity|].
  assert (Hpos : 0 < sampled (c / 10) c) by (apply sampled_pos; lia).
  destruct (nd * sampled (c / 10) c =? 0)%nat eqn:E0.
  { apply Nat.eqb_eq in E0. assert (nd = 0) by nia. subst nd.
    split; [reflexivity | left; reflexivity]. }
  apply Nat.eqb_neq in E0.
  set (signs := List.map sign (List.map (fun x => (x / x)%num) (Nd.data rhoz0))).
  assert (HP : Forall (fun v => (if is_nan v then one else v) = one) signs).
  { subst signs. apply Forall_map.
    apply existsb_false_Forall in Ex.
    rewrite Forall_map in Ex |- *.
    eapply Forall_impl; [exact Ex|]. intros x Hx. simpl in Hx |- *.
    destruct (Hlaw x) as [Ht|Ht]; [congruence | exact Ht]. }
  assert (Hrows : Forall (fun r => r <> [] /\ Forall (fun v => (if is_nan v then one else v) = one) r)
                         (Nd.chunks nd (sampled (c / 10) c) signs)).
  { apply Forall_and. split.
    - eapply Forall_impl.
      + apply chunks_all_length. subst signs. rewrite !length_map. exact Hlen.
      + intros r Hr Hnil. subst r.
        change (0 = sampled (c / 10) c) in Hr. lia.
    - apply chunks_Forall. exact HP. }
  destruct (modes_of_rows _ _ Hrows) as [Hl HPm].
  rewrite chunks_length in Hl. subst signs.
  unfold all_plus_one, nan_to_one, Nd.map, Nd.squeeze. cbn [Nd.data Nd.shape].
  split.
  - rewrite map_to_one by exact HPm. rewrite Hl. reflexivity.
  - cbn [List.filter]. destruct (nd =? 1)%nat eqn:E1; cbn [negb Nat.eqb].
    + right. apply Nat.eqb_eq in E1. split; [exact E1 | reflexivity].
    + left. reflexivity.
Qed.

(** The loop of [sens_sign_check], for a body that returns on every
    candidate of the list. *)
Lemma sign_loop_returns (body : nat -> pyobj F -> M (Nd.ndarray F))
      (P : Nd.ndarray F -> Prop) (l : list (pyobj F)) :
  (forall k o, In o l -> exists out sg, body k o = (out, Ok sg) /\ P (nan_to_one sg)) ->
  forall k acc,
  exists out sgs,
    for_enum_from k l acc
      (fun sign k o => let! sg := body k o in ret (sign ++ [nan_to_one sg]))
    = (out, Ok (acc ++ sgs))
    /\ length sgs = length l /\ Forall P sgs.
Proof.
  induction l as [|o l IH]; intros Hbody k acc.
  - exists [], []. simpl. rewrite app_nil_r. repeat split. constructor.
  - destruct (Hbody k o (or_introl eq_refl)) as (out & sg & Hb & HP).
    destruct (IH (fun k o Ho => Hbody k o (or_intror Ho)) (S k) (acc ++ [nan_to_one sg]))
      as (out' & sgs & Hrest & Hlen & Hall).
    exists (out ++ out'), (nan_to_one sg :: sgs).
    cbn [for_enum_from]. rewrite Hb, bind_ok. cbn [ret fst snd].
    rewrite bind_ok, Hrest. cbn [fst snd]. rewrite app_nil_r.
    rewrite <- !app_assoc. repeat split.
    + cbn [length]. f_equal. exact Hlen.
    + constructor; assumption.
Qed.

Lemma sens_sign_check_returns d R0 ne nd (data_in : list (pyobj F)) :
  attrs d !! "R" = Some R0 -> Nd.shape R0 = [ne; nd] ->
  usable_reference (sens d) ->
  Forall (fun o => exists d', o = Data d' /\ usable_profile (sens d')) data_in ->
  exists out sgs,
    sens_sign_check d data_in = (out, Ok sgs) /\ length sgs = length data_in.
Proof.
  intros HR Hshape Href Hin. unfold sens_sign_check.
  assert (Hloop : forall ref,
             (ref = None \/ exists rhoz0 st z0 r0 c0,
                 ref = Some (rhoz0, Z.of_nat st, z0) /\ Nd.shape rhoz0 = [r0; c0]
                 /\ st <> 0 /\ Nd.shape z0 = [2]) ->
             exists out sgs,
               for_enum data_in []
                 (fun sign k o => let! sg := candidate_sign ref nd k o in
                                  ret (sign ++ [nan_to_one sg]))
               = (out, Ok sgs) /\ length sgs = length data_in).
  { intros ref Hr.
    destruct (sign_loop_returns (candidate_sign ref nd) (fun _ => True) data_in) with (k := 0) (acc := @nil (Nd.ndarray F))
      as (out & sgs & Hrun & Hlen & _).
    - intros k o Ho. rewrite Forall_forall in Hin.
      destruct (Hin o) as (d' & -> & Hd'); [apply list_elem_of_In; exact Ho|].
      destruct Hr as [-> | (rhoz0 & st & z0 & r0 & c0 & -> & H0 & Hst & Hz0)].
      + exists [], (Nd.ones nd). split; [reflexivity | exact I].
      + destruct (candidate_sign_returns rhoz0 st z0 nd k d' r0 c0 H0 Hst Hz0 Hd')
          as (out & sg & Hsg).
        exists out, sg. split; [exact Hsg | exact I].
    - exists out, sgs. split; [exact Hrun | exact Hlen]. }
  destruct Href as [Hnone | (s & r & c & Hs & Hprof & Hc)].
  - unfold ref_profile. rewrite Hnone, bind_ret_l, HR. unfold need, lift.
    rewrite bind_ret_l, (shape_at_1 _ _ _ Hshape), bind_ret_l.
    apply Hloop. left. reflexivity.
  - destruct (ref_profile_ok d s r c Hs Hprof Hc)
      as (rhoz0 & z0 & -> & _ & _ & Hsh & _ & Hz0).
    rewrite bind_ret_l, HR. unfold need, lift.
    rewrite bind_ret_l, (shape_at_1 _ _ _ Hshape), bind_ret_l.
    apply Hloop. right. exists rhoz0, (c / 10), z0, r, (sampled (c / 10) c).
    repeat split; try assumption.
    intros E. apply Nat.div_small_iff in E; lia.
Qed.

(** Every candidate that is the reference itself gets the all +1 vector. *)
Lemma sens_sign_check_self d R0 ne nd k :
  self_ratio_law ->
  attrs d !! "R" = Some R0 -> Nd.shape R0 = [ne; nd] ->
  (sens d = None \/ exists s c, sens d = Some s /\ profile nd c s /\ 10 <= c) ->
  exists out sgs,
    sens_sign_check d (repeat (Data d) k) = (out, Ok sgs)
    /\ length sgs = k /\ Forall (all_plus_one nd) sgs.
Proof.
  intros Hlaw HR Hshape Href. unfold sens_sign_check.
  assert (Hloop : forall ref,
             (forall j, exists out sg,
                   candidate_sign ref nd j (Data d) = (out, Ok sg)
                   /\ all_plus_one nd (nan_to_one sg)) ->
             exists out sgs,
               for_enum (repeat (Data d) k) []
                 (fun sign k o => let! sg := candidate_sign ref nd k o in
                                  ret (sign ++ [nan_to_one sg]))
               = (out, Ok sgs) /\ length sgs = k /\ Forall (all_plus_one nd) sgs).
  { intros ref Hr.
    destruct (sign_loop_returns (candidate_sign ref nd) (all_plus_one nd)
                                (repeat (Data d) k)) with (k := 0) (acc := @nil (Nd.ndarray F))
      as (out & sgs & Hrun & Hlen & Hall).
    - intros j o Ho. apply repeat_spec in Ho. subst o. apply Hr.
    - exists out, sgs. rewrite repeat_length in Hlen. repeat split; assumption. }
  destruct Href as [Hnone | (s & c & Hs & Hprof & Hc)].
  - unfold ref_profile. rewrite Hnone, bind_ret_l, HR. unfold need, lift.
    rewrite bind_ret_l, (shape_at_1 _ _ _ Hshape), bind_ret_l.
    apply Hloop. intros j. exists [], (Nd.ones nd). split; [reflexivity|].
    rewrite nan_to_one_ones. apply all_plus_one_ones.
  - destruct (ref_profile_ok d s nd c Hs Hprof Hc)
      as (rhoz0 & z0 & -> & Hst & Hfl & Hsh & Hlen & Hz0).
    rewrite bind_ret_l, HR. unfold need, lift.
    rewrite bind_ret_l, (shape_at_1 _ _ _ Hshape), bind_ret_l.
    apply Hloop. intros j.
    apply (candidate_sign_self d s nd c j rhoz0 z0); assumption.
Qed.

(** The reference block of [sens_sign_check] as the code has it: for a
    reference whose profile is a matrix of [n] samples per detector, the
    stride of the subsampling is [floor(n/10)]; for [n >= 10] it is at
    least 1 and the block completes, with the profile subsampled by that
    stride. *)
Theorem subsampling_stride_is_floor_tenth d s r n :
  sens d = Some s -> profile r n s ->
  ref_profile d
  = (let! rhoz0 := Nd.stride_cols (Z.of_nat (n / 10)) (rho_eff s) in
     let! z0 := Nd.first_last (tc s) in
     ret (Some (rhoz0, Z.of_nat (n / 10), z0)))
  /\ (10 <= n ->
      1 <= n / 10
      /\ exists rhoz0 z0,
          ref_profile d = ret (Some (rhoz0, Z.of_nat (n / 10), z0))
          /\ Nd.stride_cols (Z.of_nat (n / 10)) (rho_eff s) = ret rhoz0
          /\ Nd.shape rhoz0 = [r; sampled (n / 10) n]).
Proof.
  intros Hs Hprof. split.
  - destruct Hprof as (Hshape & _). unfold ref_profile. rewrite Hs.
    rewrite (shape_at_1 _ _ _ Hshape), bind_ret_l. reflexivity.
  - intros Hn. split.
    + apply Nat.div_le_lower_bound; lia.
    + destruct (ref_profile_ok d s r n Hs Hprof Hn)
        as (rhoz0 & z0 & H1 & H2 & _ & H3 & _).
      exists rhoz0, z0. repeat split; assumption.
Qed.

End SignFacts.

(** ** binary64 *)

Section B64Facts.
Import DR Spec.

Lemma new_location_exact m : new_location m 0 = loc_Exact.
Proof.
  unfold new_location, new_location_even, new_location_odd.
  destruct (Z.even m); reflexivity.
Qed.

(** A finite non-zero binary64 number divided by itself is exactly 1. *)
Lemma SF64div_self sg m e :
  SF64div (S754_finite sg m e) (S754_finite sg m e)
  = S754_finite false 4503599627370496 (-52).
Proof.
  unfold SF64div, SFdiv, SFdiv_core_binary.
  replace (Zdigits2 (Z.pos m) + e - (Zdigits2 (Z.pos m) + e))%Z with 0%Z by lia.
  replace (e - e)%Z with 0%Z by lia.
  change (Z.min (fexp prec emax 0) 0) with (-53)%Z.
  cbv zeta. change (0 - -53)%Z with 53%Z. cbv iota.
  assert (H : IntDef.Z.div_eucl (Z.shiftl (Z.pos m) 53) (Z.pos m)
              = (9007199254740992, 0)%Z).
  { change IntDef.Z.div_eucl with Z.div_eucl.
    pose proof (Z.div_eucl_eq (Z.shiftl (Z.pos m) 53) (Z.pos m) ltac:(lia)) as Heq.
    pose proof (Z.mod_pos_bound (Z.shiftl (Z.pos m) 53) (Z.pos m) ltac:(lia)) as Hb.
    unfold Z.modulo in Hb.
    destruct (Z.div_eucl _ _) as [q r].
    rewrite Z.shiftl_mul_pow2 in Heq by lia.
    assert (q = 2 ^ 53)%Z by nia. subst q.
    f_equal. lia. }
  rewrite H, new_location_exact. destruct sg; reflexivity.
Qed.

Lemma b64_div_self (x : float) : (x / x = 1 \/ x / x = nan)%float.
Proof.
  rewrite <- (SF2Prim_Prim2SF (x / x)). rewrite FloatAxioms.div_spec.
  destruct (Prim2SF x) as [sg|sg| |sg m e].
  - right; reflexivity.
  - right; reflexivity.
  - right; reflexivity.
  - left. rewrite SF64div_self. reflexivity.
Qed.

Lemma b64_self_ratio : self_ratio_law (F := float).
Proof.
  intros x. right. cbn [Num.div Num.sign Num.is_nan Num.one b64].
  destruct (b64_div_self x) as [-> | ->]; vm_compute; reflexivity.
Qed.

(** Where the reference block completes: for a Response Set [d] whose [R]
    is a matrix of [nd] detectors and that has no profile, or a matrix
    profile of [nd] rows and at least ten samples,
    [sens_sign_check(d, [d])] returns one sign vector; it has [nd]
    entries and all of them are +1. *)
Theorem self_sign_is_plus_one (d : response_set float) R0 ne nd :
  attrs d !! "R"%string = Some R0 -> Nd.shape R0 = [ne; nd] ->
  (sens d = None \/ exists s c, sens d = Some s /\ profile nd c s /\ 10 <= c) ->
  exists out sg,
    sens_sign_check d [Data d] = (out, Ok [sg])
    /\ Nd.data sg = repeat 1%float nd
    /\ length (Nd.data sg) = nd.
Proof.
  intros HR Hshape Href.
  destruct (sens_sign_check_self d R0 ne nd 1 b64_self_ratio HR Hshape Href)
    as (out & sgs & Hrun & Hlen & Hall).
  destruct sgs as [|sg [|? ?]]; try discriminate.
  exists out, sg. apply Forall_inv in Hall. destruct Hall as [Hdata _].
  split; [exact Hrun|]. split; [exact Hdata|].
  rewrite Hdata. apply repeat_length.
Qed.

Lemma sens12_profile : profile 2 12 sens12.
Proof. repeat split. exists 1. reflexivity. Qed.

Lemma self_sign_is_plus_one_witness :
  exists out sg,
    sens_sign_check (one_row (Some sens12)) [Data (one_row (Some sens12))]
    = (out, Ok [sg])
    /\ Nd.data sg = repeat 1%float 2
    /\ length (Nd.data sg) = 2.
Proof.
  apply (self_sign_is_plus_one (one_row (Some sens12)) (mat 1 2 [5; 6]%float) 1 2).
  - reflexivity.
  - reflexivity.
  - right. exists sens12, 12. split; [reflexivity|].
    split; [exact sens12_profile | lia].
Defined.

(** C5, the code at a failing input: a Response Set whose profile has
    five samples per detector, paired with itself, yields no sign
    vector. The stride is [floor(5/10) = 0], where the specification
    asks for a stride of at least 1, and the slice [rhoz0[:,::0]]
    raises. *)
Theorem self_sign_fails_below_ten_samples :
  sens_sign_check (one_row (Some sens5)) [Data (one_row (Some sens5))]
  = raise ValueError.
Proof. vm_compute. reflexivity. Qed.

(** C6, the code at a failing input: for a profile of five samples per
    detector the stride is [floor(5/10) = 0], not at least 1; the slice
    with that stride raises, and so does the reference block of
    [sens_sign_check]. *)
Theorem stride_zero_below_ten_samples :
  Nd.shape_at (rho_eff sens5) 1 = ret 5
  /\ Z.of_nat (5 / 10) = 0%Z
  /\ Nd.stride_cols (Z.of_nat (5 / 10)) (rho_eff sens5) = raise ValueError
  /\ ref_profile (one_row (Some sens5)) = raise ValueError.
Proof. repeat split. Qed.

Lemma subsampling_stride_is_floor_tenth_witness :
  ref_profile (one_row (Some sens12))
  = (let! rhoz0 := Nd.stride_cols (Z.of_nat (12 / 10)) (rho_eff sens12) in
     let! z0 := Nd.first_last (tc sens12) in
     ret (Some (rhoz0, Z.of_nat (12 / 10), z0)))
  /\ (10 <= 12 ->
      1 <= 12 / 10
      /\ exists rhoz0 z0,
          ref_profile (one_row (Some sens12)) = ret (Some (rhoz0, Z.of_nat (12 / 10), z0))
          /\ Nd.stride_cols (Z.of_nat (12 / 10)) (rho_eff sens12) = ret rhoz0
          /\ Nd.shape rhoz0 = [2; sampled (12 / 10) 12]).
Proof.
  apply (subsampling_stride_is_floor_tenth (one_row (Some sens12)) sens12 2 12).
  - reflexivity.
  - exact sens12_profile.
Defined.

End B64Facts.

(** ** [append_data] and [avg_data] on the sample data *)

Section Evaluations.
Import DR Spec.

(** C7, the code at a failing input: 'Rc' has three columns in [setA] and
    four in [setB]. The call prints the warning for 'Rc' and concatenates
    the other fields, but 'Rc' is not omitted from the result: it still
    holds the two rows cloned from the first input, next to three rows of
    'R' and three labels. With an [index] the same inputs make the call
    raise. *)
Theorem incompatible_field_keeps_first_input :
  let r := append_data (AsList [Data setA; Data setB]) LNone None in
  printed r = [WarnOmitted "Rc"]
  /\ field_of r "Rc" = Some (Some (mat 2 3 [1; 2; 3; 4; 5; 6]%float))
  /\ field_of r "Rc" = Some (attrs setA !! "Rc"%string)
  /\ field_of r "R" = Some (Some (mat 3 2 [1; 2; 3; 4; 5; 6]%float))
  /\ field_of r "R_std" = Some (Some (mat 3 2 [1; 1; 1; 1; 1; 1]%float))
  /\ field_of r "S2" = Some (Some (Nd.vector [7]%float))
  /\ label_of r = Some (Some ["a1"; "a2"; "b1"]%string)
  /\ append_data (AsList [Data setA; Data setB]) LNone (Some [2; 0; 1]%Z)
     = ([WarnOmitted "Rc"], Raise ValueError).
Proof. repeat split; vm_compute; reflexivity. Qed.

(** C3 as stated fails: [setC] has no 'S2' and [setD] has one. 'S2' is
    present in the result, with the single row of [setD]; its first
    [|setC.label| = 2] rows are that row, not the (absent) 'S2' of
    [setC]. *)
Lemma appended_field_absent_in_first_input :
  let r := append_data (AsList [Data setC; Data setD]) LNone None in
  label setC = Some ["a1"; "a2"]%string
  /\ attrs setC !! "S2"%string = None
  /\ field_of r "S2" = Some (Some (Nd.vector [7]%float))
  /\ first_rows 2 (Some (Nd.vector [7]%float)) = ret (Some (Nd.vector [7]%float))
  /\ first_rows 2 (Some (Nd.vector [7]%float)) <> ret (attrs setC !! "S2"%string).
Proof. repeat split; try (vm_compute; reflexivity). vm_compute. discriminate. Qed.

(** C1, the code at a failing input: identical copies of a Response Set
    whose profile has five samples per detector, one copy or two,
    weighted or not. The sign check takes the stride [floor(5/10) = 0],
    the slice [rhoz0[:,::0]] raises, and [avg_data] raises a
    [ValueError] instead of returning the responses of the copies. *)
Theorem average_of_copies_fails_below_ten_samples :
  avg_data (AsList (repeat (Data (one_row (Some sens5))) 2)) true None false
  = raise ValueError
  /\ avg_data (AsList (repeat (Data (one_row (Some sens5))) 2)) false None false
     = raise ValueError
  /\ avg_data (AsList (repeat (Data (one_row (Some sens5))) 1)) true None false
     = raise ValueError
  /\ avg_data (AsList (repeat (Data (one_row (Some sens5))) 1)) false None false
     = raise ValueError.
Proof. repeat split; vm_compute; reflexivity. Qed.

(** In binary64, without a profile: two identical copies of [exact_row],
    whose first standard deviation is 0, averaged with [weighted=True].
    The weight [1/0] is infinite, its normalisation [inf/inf] is NaN,
    and the first response of the result is NaN instead of 1. *)
Lemma weighted_average_of_copies_nan :
  let r := avg_data (AsList [Data exact_row; Data exact_row]) true None false in
  attrs exact_row !! "R"%string = Some (mat 1 2 [1; 2]%float)
  /\ field_of r "R" = Some (Some (mat 1 2 [nan; 2]%float))
  /\ field_of r "R" <> Some (attrs exact_row !! "R"%string).
Proof. repeat split; try (vm_compute; reflexivity). vm_compute. discriminate. Qed.

(** In binary64 the average of identical copies is the original only up
    to rounding: ten copies of the responses [1, 2], unweighted and
    summed row after row, give [0.99999999999999989, 1.9999999999999998]. *)
Lemma average_of_ten_copies_rounds :
  field_of (avg_data (AsList (repeat (Data exact_row) 10)) false None false) "R"
  = Some (Some (mat 1 2 [0.99999999999999989; 1.9999999999999998]%float)).
Proof. vm_compute. reflexivity. Qed.

End Evaluations.

(** ** [append_data] *)

Section AppendFacts.
Import DR Spec.
Context {F : Type} {SF : Scalar F}.
Implicit Types (d : response_set F) (R : gmap string (list (Nd.ndarray F))).

Lemma flds_NoDup : NoDup flds.
Proof. apply (bool_decide_unpack _). vm_compute. exact I. Qed.

(** The dict of empty lists that [collect] starts from. *)
Lemma empty_lists_lookup (fs : list string) R f :
  R !!! f = [] -> fold_left (fun R f => <[f := []]> R) fs R !!! f = [].
Proof.
  revert R. induction fs as [|g fs IH]; intros R HR; simpl; [exact HR|].
  apply IH. rewrite lookup_total_insert. case_decide; [reflexivity | exact HR].
Qed.

(** What one input adds to the lists. *)
Definition add_fields d (fs : list string) R : gmap string (list (Nd.ndarray F)) :=
  fold_left (fun R f => match attrs d !! f with
                        | Some x => <[f := (R !!! f) ++ [x]]> R
                        | None => R
                        end) fs R.

Lemma collect_fields_run d (fs : list string) R :
  for_each fs R
    (fun R f =>
       let! x := getattr (Data d) f in
       match x with
       | Some x => ret (<[f := (R !!! f) ++ [x]]> R)
       | None => ret R
       end)
  = ret (add_fields d fs R).
Proof.
  revert R. induction fs as [|f fs IH]; intros R; [reflexivity|].
  cbn [for_each getattr]. rewrite bind_ret_l. unfold add_fields. cbn [fold_left].
  destruct (attrs d !! f); rewrite bind_ret_l; apply IH.
Qed.

Lemma add_fields_lookup d (fs : list string) R f :
  NoDup fs ->
  add_fields d fs R !!! f
  = R !!! f ++ (if decide (f ∈ fs) then option_list (attrs d !! f) else []).
Proof.
  intros Hnd. revert R. induction Hnd as [|g fs Hg Hnd IH]; intros R.
  - unfold add_fields. cbn [fold_left].
    rewrite decide_False by (apply not_elem_of_nil). rewrite app_nil_r. reflexivity.
  - unfold add_fields in *. cbn [fold_left]. rewrite IH.
    destruct (decide (f = g)) as [->|Hne].
    + rewrite (decide_False (P := g ∈ fs)) by assumption.
      rewrite (decide_True (P := g ∈ g :: fs)) by (apply elem_of_cons; left; reflexivity).
      rewrite app_nil_r.
      destruct (attrs d !! g); unfold option_list; cbn [option_rect].
      * rewrite lookup_total_insert_eq. reflexivity.
      * rewrite app_nil_r. reflexivity.
    + assert (Hiff : f ∈ g :: fs <-> f ∈ fs).
      { rewrite elem_of_cons. tauto. }
      destruct (attrs d !! g); [rewrite lookup_total_insert_ne by congruence|];
        destruct (decide (f ∈ fs)) as [Hin|Hin].
      * rewrite (decide_True (P := f ∈ g :: fs)) by (apply Hiff; exact Hin). reflexivity.
      * rewrite (decide_False (P := f ∈ g :: fs)) by (rewrite Hiff; exact Hin). reflexivity.
      * rewrite (decide_True (P := f ∈ g :: fs)) by (apply Hiff; exact Hin). reflexivity.
      * rewrite (decide_False (P := f ∈ g :: fs)) by (rewrite Hiff; exact Hin). reflexivity.
Qed.

(** [np.concatenate] prints nothing; its result as a function. *)
Lemma silent_concatenate {A} (l : list (Nd.ndarray A)) : silent (Nd.concatenate l).
Proof. unfold Nd.concatenate. repeat silent_step. Qed.

(** What the concatenation loop leaves in attribute [f]. *)
Definition concat_field (l : list (Nd.ndarray F)) (old : option (Nd.ndarray F))
  : option (Nd.ndarray F) :=
  match l with
  | [] => old
  | _ => match result (Nd.concatenate l) with
         | Ok c => Some c
         | Raise _ => old
         end
  end.

Lemma concat_fields_step R d f :
  exists out d',
    (if negb (length (R !!! f) =? 0)%nat then
       try_except
         (let! c := Nd.concatenate (R !!! f) in ret (setattr d f (Some c)))
         (do! print (WarnOmitted f) in ret d)
     else ret d) = (out, Ok d')
    /\ label d' = label d /\ sens d' = sens d
    /\ attrs d' !! f = concat_field (R !!! f) (attrs d !! f)
    /\ (forall g, g <> f -> attrs d' !! g = attrs d !! g).
Proof.
  unfold concat_field.
  destruct (R !!! f) as [|a l] eqn:E; cbn [length Nat.eqb negb].
  { exists [], d. repeat split. }
  pose proof (silent_concatenate (a :: l)) as Hs. unfold silent, printed in Hs.
  destruct (Nd.concatenate (a :: l)) as [out [c|e]]; simpl in Hs; subst out.
  - exists [], (setattr d f (Some c)). cbn. repeat split.
    + apply lookup_insert_eq.
    + intros g Hg. apply lookup_insert_ne. congruence.
  - exists [WarnOmitted f], d. cbn. repeat split.
Qed.

Lemma concat_fields_run R (fs : list string) d :
  NoDup fs ->
  exists out d',
    for_each fs d
      (fun data f =>
         if negb (length (R !!! f) =? 0)%nat then
           try_except
             (let! c := Nd.concatenate (R !!! f) in ret (setattr data f (Some c)))
             (do! print (WarnOmitted f) in ret data)
         else ret data) = (out, Ok d')
    /\ label d' = label d /\ sens d' = sens d
    /\ (forall f, attrs d' !! f
                  = if decide (f ∈ fs) then concat_field (R !!! f) (attrs d !! f)
                    else attrs d !! f).
Proof.
  intros Hnd. revert d. induction Hnd as [|g fs Hg Hnd IH]; intros d.
  - exists [], d. do 3 (split; [reflexivity|]). intros f.
    rewrite decide_False by (apply not_elem_of_nil). reflexivity.
  - destruct (concat_fields_step R d g) as (out1 & d1 & Hstep & Hl1 & Hs1 & Hg1 & Ho1).
    destruct (IH d1) as (out2 & d2 & Hrest & Hl2 & Hs2 & Hf2).
    exists (out1 ++ out2), d2. cbn [for_each]. rewrite Hstep, bind_ok, Hrest.
    cbn [fst snd]. do 3 (split; [congruence|]).
    intros f. rewrite Hf2.
    destruct (decide (f = g)) as [->|Hne].
    + rewrite (decide_False (P := g ∈ fs)) by assumption.
      rewrite (decide_True (P := g ∈ g :: fs)) by (apply elem_of_cons; left; reflexivity).
      exact Hg1.
    + assert (Hiff : f ∈ g :: fs <-> f ∈ fs).
      { rewrite elem_of_cons. tauto. }
      rewrite (Ho1 f Hne).
      destruct (decide (f ∈ fs)) as [Hin|Hin].
      * rewrite (decide_True (P := f ∈ g :: fs)) by (apply Hiff; exact Hin). reflexivity.
      * rewrite (decide_False (P := f ∈ g :: fs)) by (rewrite Hiff; exact Hin). reflexivity.
Qed.

Lemma collect_two (A B : response_set F) (s1 s2 : Nd.ndarray F) :
  collect LNone [Data A; Data B] [s1; s2]
  = ret (add_fields B flds
           (add_fields A flds (fold_left (fun R f => <[f := []]> R) flds ∅)),
         [label A; label B]).
Proof.
  unfold collect, for_enum. cbn [combine for_enum_from].
  rewrite collect_fields_run, bind_ret_l. cbn [input_label get_label].
  rewrite !bind_ret_l.
  rewrite collect_fields_run, bind_ret_l. cbn [input_label get_label].
  rewrite !bind_ret_l. reflexivity.
Qed.

Lemma collected_two (A B : response_set F) f :
  f ∈ flds ->
  add_fields B flds (add_fields A flds (fold_left (fun R f => <[f := []]> R) flds ∅)) !!! f
  = option_list (attrs A !! f) ++ option_list (attrs B !! f).
Proof.
  intros Hf. rewrite !add_fields_lookup by apply flds_NoDup.
  rewrite !decide_True by assumption.
  rewrite empty_lists_lookup; [reflexivity|].
  rewrite lookup_total_empty. reflexivity.
Qed.

Lemma firstn_exact {A} (l l' : list A) n : length l = n -> firstn n (l ++ l') = l.
Proof. intros <-. apply take_app_length. Qed.

Lemma concatenate_matrices (a b : Nd.ndarray F) n m c :
  matrix n c a -> matrix m c b ->
  exists r, Nd.concatenate [a; b] = ret r /\ has_rows (n + m) r.
Proof.
  intros [Ha Hla] [Hb Hlb]. unfold Nd.concatenate. rewrite Ha.
  cbn [forallb]. rewrite Ha, Hb, shape_eqb_refl. cbn [andb].
  eexists. split; [reflexivity|].
  exists [c]. unfold list_sum. cbn [Nd.shape Nd.data List.map fold_right hd concat].
  rewrite Ha, Hb. cbn [hd]. rewrite Nat.add_0_r. split; [reflexivity|].
  rewrite app_nil_r, length_app, Hla, Hlb. unfold Nd.prod. cbn [fold_right]. lia.
Qed.

(** The first rows of a concatenation that succeeds are its first part. *)
Lemma concatenate_first_rows (a : Nd.ndarray F) (l : list (Nd.ndarray F)) n c :
  has_rows n a -> Nd.concatenate (a :: l) = ret c -> Nd.slice_rows 0 n c = ret a.
Proof.
  intros (rest & Hshape & Hlen). destruct a as [sh da]. cbn in Hshape, Hlen. subst sh.
  unfold Nd.concatenate. cbn [Nd.shape].
  match goal with |- context [forallb ?f ?l] => destruct (forallb f l) end;
    [|discriminate].
  intros [= <-].
  unfold Nd.slice_rows, list_sum. cbn [Nd.shape Nd.data List.map fold_right hd concat].
  rewrite (Nat.min_l n) by lia. rewrite Nat.min_0_l, Nat.sub_0_r.
  cbn [Nat.mul]. rewrite drop_0, firstn_exact by exact Hlen. reflexivity.
Qed.

(** The concatenation of a single array is that array. *)
Lemma concatenate_single (b : Nd.ndarray F) n :
  has_rows n b -> Nd.concatenate [b] = ret b.
Proof.
  intros (rest & Hshape & _). destruct b as [sh db]. cbn in Hshape. subst sh.
  unfold Nd.concatenate. cbn [Nd.shape forallb]. rewrite shape_eqb_refl.
  cbn [andb]. unfold list_sum. cbn [Nd.shape Nd.data List.map fold_right hd concat].
  rewrite Nat.add_0_r, app_nil_r. reflexivity.
Qed.

(** C3 as the code has it. [A] and [B] have response matrices of [nA] and
    [nB] rows and the same number of detectors, and as many labels as
    rows. Then [append_data([A, B])] returns a Response Set
    - whose labels are those of [A] followed by those of [B], the first
      [nA] of them the labels of [A];
    - whose 'R' has [nA + nB] rows, the first [nA] of them the 'R' of [A];
    - in which a field of [flds] that [A] defines with [nA] rows, and
      that can be concatenated with what [B] has for it, is that
      concatenation, its first [nA] rows the field of [A];
    - in which a field of [flds] that only [B] defines is the field of
      [B], and a field that neither defines is absent. *)
Theorem append_two_first_rows (A B : response_set F) RA RB nA nB nd lA lB :
  attrs A !! "R"%string = Some RA -> attrs B !! "R"%string = Some RB ->
  matrix nA nd RA -> matrix nB nd RB ->
  label A = Some lA -> label B = Some lB ->
  length lA = nA -> length lB = nB ->
  usable_reference (sens A) -> usable_profile (sens B) ->
  exists out res,
    append_data (AsList [Data A; Data B]) LNone None = (out, Ok res)
    /\ label res = Some (lA ++ lB)
    /\ firstn nA (lA ++ lB) = lA
    /\ (exists r, attrs res !! "R"%string = Some r /\ has_rows (nA + nB) r
                  /\ Nd.slice_rows 0 nA r = ret RA)
    /\ (forall f a c, f ∈ flds -> attrs A !! f = Some a -> has_rows nA a ->
          Nd.concatenate (a :: option_list (attrs B !! f)) = ret c ->
          attrs res !! f = Some c /\ Nd.slice_rows 0 nA c = ret a)
    /\ (forall f b n, f ∈ flds -> attrs A !! f = None -> attrs B !! f = Some b ->
          has_rows n b -> attrs res !! f = Some b)
    /\ (forall f, f ∈ flds -> attrs A !! f = None -> attrs B !! f = None ->
          attrs res !! f = None).
Proof.
  intros HRA HRB HmA HmB HlA HlB HnA HnB HsA HsB.
  assert (HuA : usable_profile (sens A)).
  { destruct HsA as [E | (s & r & c & E & Hp & _)]; [left; exact E|].
    right. exists s, r, c. split; assumption. }
  destruct (sens_sign_check_returns A RA nA nd [Data A; Data B] HRA (proj1 HmA) HsA)
    as (out1 & sgs & Hsign & Hlen).
  { repeat constructor; eexists; split; try reflexivity; assumption. }
  destruct sgs as [|s1 [|s2 [|? ?]]]; try discriminate.
  destruct (concat_fields_run
              (add_fields B flds
                 (add_fields A flds (fold_left (fun R f => <[f := []]> R) flds ∅)))
              flds A flds_NoDup) as (out2 & d' & Hcat & Hl' & Hs' & Hf').
  exists (out1 ++ out2), (set_label d' (Some (lA ++ lB))).
  split.
  { unfold append_data. rewrite py_get_first, bind_ret_l. cbn [copy].
    rewrite bind_ret_l, Hsign, bind_ok. rewrite collect_two, bind_ret_l.
    unfold concat_fields. rewrite Hcat, bind_ok.
    rewrite HlA, HlB. cbn [concat_labels map_m lift]. rewrite !bind_ret_l.
    cbn [fst snd concat ret]. rewrite !app_nil_r. reflexivity. }
  split; [reflexivity|].
  split; [apply firstn_exact; exact HnA|].
  cbn [set_label attrs].
  assert (HR : "R"%string ∈ flds) by (apply (bool_decide_unpack _); vm_compute; exact I).
  assert (Hfield : forall f, f ∈ flds ->
            attrs d' !! f
            = concat_field (option_list (attrs A !! f) ++ option_list (attrs B !! f))
                           (attrs A !! f)).
  { intros f Hf. rewrite Hf', decide_True by exact Hf.
    rewrite collected_two by exact Hf. reflexivity. }
  split; [|split; [|split]].
  - rewrite (Hfield _ HR), HRA, HRB. unfold option_list. cbn [option_rect app].
    destruct (concatenate_matrices RA RB nA nB nd HmA HmB) as (r & Hr & Hrows).
    unfold concat_field. rewrite Hr. exists r. split; [reflexivity|].
    split; [exact Hrows|].
    apply (concatenate_first_rows RA [RB] nA r); [|exact Hr].
    exists [nd]. destruct HmA as [Hsh Hl]. split; [exact Hsh|].
    rewrite Hl. unfold Nd.prod. cbn [fold_right]. lia.
  - intros f a c Hf Ha Hrows Hc.
    rewrite (Hfield _ Hf), Ha. unfold option_list at 1. cbn [option_rect app].
    unfold concat_field. rewrite Hc. split; [reflexivity|].
    exact (concatenate_first_rows a _ nA c Hrows Hc).
  - intros f b n Hf Ha Hb Hrows.
    rewrite (Hfield _ Hf), Ha, Hb. unfold option_list. cbn [option_rect app].
    unfold concat_field. rewrite (concatenate_single b n Hrows). reflexivity.
  - intros f Hf Ha Hb.
    rewrite (Hfield _ Hf), Ha, Hb. reflexivity.
Qed.

End AppendFacts.

Section AppendWitness.
Import DR Spec.

Lemma append_two_first_rows_witness :
  exists out res,
    append_data (AsList [Data setC; Data setD]) LNone None = (out, Ok res)
    /\ label res = Some (["a1"%string; "a2"%string] ++ ["b1"%string])
    /\ firstn 2 (["a1"%string; "a2"%string] ++ ["b1"%string])
       = ["a1"%string; "a2"%string]
    /\ (exists r, attrs res !! "R"%string = Some r /\ has_rows (2 + 1) r
                  /\ Nd.slice_rows 0 2 r = ret (mat 2 2 [1; 2; 3; 4]%float))
    /\ (forall f a c, f ∈ flds -> attrs setC !! f = Some a -> has_rows 2 a ->
          Nd.concatenate (a :: option_list (attrs setD !! f)) = ret c ->
          attrs res !! f = Some c /\ Nd.slice_rows 0 2 c = ret a)
    /\ (forall f b n, f ∈ flds -> attrs setC !! f = None -> attrs setD !! f = Some b ->
          has_rows n b -> attrs res !! f = Some b)
    /\ (forall f, f ∈ flds -> attrs setC !! f = None -> attrs setD !! f = None ->
          attrs res !! f = None).
Proof.
  apply (append_two_first_rows setC setD
           (mat 2 2 [1; 2; 3; 4]%float) (mat 1 2 [5; 6]%float) 2 1 2).
  - vm_compute. reflexivity.
  - vm_compute. reflexivity.
  - split; reflexivity.
  - split; reflexivity.
  - reflexivity.
  - reflexivity.
  - reflexivity.
  - reflexivity.
  - left. reflexivity.
  - left. reflexivity.
Defined.

End AppendWitness.

(** ** Stacks of identical rows *)

Section StackFacts.
Import Spec.
Context {A : Type}.
Implicit Types (l row : list A) (t : list nat).

Lemma concat_repeat_length row k : length (concat (repeat row k)) = k * length row.
Proof. induction k as [|k IH]; simpl; [|rewrite length_app, IH]; reflexivity. Qed.

Lemma concat_repeat_repeat (c : A) n k :
  concat (repeat (repeat c n) k) = repeat c (k * n).
Proof.
  induction k as [|k IH]; simpl; [reflexivity|].
  rewrite IH, repeat_app. reflexivity.
Qed.

Lemma prod_ones n : Nd.prod (repeat 1 n) = 1.
Proof. induction n as [|n IH]; simpl; [|rewrite IH]; reflexivity. Qed.

Lemma bshape_ones_l t : Nd.bshape (repeat 1 (length t)) t = Some t.
Proof.
  induction t as [|n t IH]; cbn [length repeat Nd.bshape]; [reflexivity|].
  rewrite IH. destruct (Nat.eqb_spec 1 n) as [<-|_]; [reflexivity|].
  rewrite Nat.eqb_refl. reflexivity.
Qed.

Lemma bshape_ones_r t : Nd.bshape t (repeat 1 (length t)) = Some t.
Proof.
  induction t as [|n t IH]; cbn [length repeat Nd.bshape]; [reflexivity|].
  rewrite IH. destruct (Nat.eqb_spec n 1) as [->|_]; [reflexivity|].
  rewrite Nat.eqb_refl. reflexivity.
Qed.

(** A scalar broadcast to shape [t]. *)
Lemma expand_scalar (c : A) t :
  Nd.expand t (repeat 1 (length t)) [c] = repeat c (Nd.prod t).
Proof.
  induction t as [|n t IH]; [reflexivity|].
  cbn [length repeat Nd.expand]. rewrite prod_ones.
  destruct (Nat.eqb_spec 1 n) as [<-|Hn].
  - cbn [Nd.chunks firstn List.map concat]. rewrite IH, app_nil_r.
    change (Nd.prod (1 :: t)) with (1 * Nd.prod t). rewrite Nat.mul_1_l. reflexivity.
  - rewrite IH, concat_repeat_repeat. reflexivity.
Qed.

Lemma broadcast_scalar (c : A) t :
  Nd.broadcast_to t (Nd.scalar c) = repeat c (Nd.prod t).
Proof.
  unfold Nd.broadcast_to, Nd.pad_shape, Nd.scalar. cbn [Nd.shape Nd.data length].
  rewrite Nat.sub_0_r, app_nil_r. apply expand_scalar.
Qed.

(** A row broadcast over [k] rows. *)
Lemma expand_row row k n :
  length row = n ->
  Nd.expand [k; n] [1; n] row = concat (repeat row k).
Proof.
  intros Hn.
  assert (Hrow : Nd.expand [n] [n] row = row).
  { apply expand_same. cbn. lia. }
  change (Nd.expand [k; n] [1; n] row)
    with (if (1 =? k)%nat
          then concat (List.map (Nd.expand [n] [n]) (Nd.chunks 1 (Nd.prod [n]) row))
          else concat (repeat (Nd.expand [n] [n] row) k)).
  destruct (Nat.eqb_spec 1 k) as [<-|_].
  - cbn [Nd.chunks List.map concat repeat].
    rewrite firstn_all2 by (cbn; lia). rewrite Hrow. reflexivity.
  - rewrite Hrow. reflexivity.
Qed.

Lemma chunks_repeat (c : A) m k : Nd.chunks m k (repeat c (m * k)) = repeat (repeat c k) m.
Proof.
  induction m as [|m IH]; [reflexivity|].
  cbn [Nd.chunks repeat]. replace (S m * k) with (k + m * k) by lia.
  rewrite repeat_app, take_app_length', drop_app_length' by (rewrite repeat_length; reflexivity).
  rewrite IH. reflexivity.
Qed.

(** A constant array broadcast to a shape it is compatible with. *)
Lemma expand_const (c : A) t s :
  Forall2 (fun a b => a = b \/ a = 1) s t ->
  Nd.expand t s (repeat c (Nd.prod s)) = repeat c (Nd.prod t).
Proof.
  induction 1 as [|m n s t Hmn _ IH]; [reflexivity|].
  change (Nd.prod (m :: s)) with (m * Nd.prod s).
  change (Nd.prod (n :: t)) with (n * Nd.prod t).
  cbn [Nd.expand].
  destruct (Nat.eqb_spec m n) as [<-|Hne].
  - rewrite chunks_repeat. rewrite map_repeat, IH. apply concat_repeat_repeat.
  - destruct Hmn as [->| ->]; [congruence|].
    rewrite Nat.mul_1_l, IH. apply concat_repeat_repeat.
Qed.

Lemma combine_repeat_l {B} (c : B) l :
  combine (repeat c (length l)) l = List.map (fun x => (c, x)) l.
Proof. induction l as [|x l IH]; simpl; [|rewrite IH]; reflexivity. Qed.

Lemma combine_repeat_r {B} (c : B) l :
  combine l (repeat c (length l)) = List.map (fun x => (x, c)) l.
Proof. induction l as [|x l IH]; simpl; [|rewrite IH]; reflexivity. Qed.

Lemma combine_app_same {B} l1 l2 (k1 k2 : list B) :
  length l1 = length k1 ->
  combine (l1 ++ l2) (k1 ++ k2) = combine l1 k1 ++ combine l2 k2.
Proof.
  revert k1. induction l1 as [|x l1 IH]; intros [|y k1] Hl; try discriminate.
  - reflexivity.
  - simpl. f_equal. apply IH. simpl in Hl. lia.
Qed.

Lemma combine_concat_repeat {B} row (row' : list B) k :
  length row = length row' ->
  combine (concat (repeat row k)) (concat (repeat row' k))
  = concat (repeat (combine row row') k).
Proof.
  intros Hl. induction k as [|k IH]; simpl; [reflexivity|].
  rewrite combine_app_same by exact Hl. rewrite IH. reflexivity.
Qed.

Lemma map_concat_repeat {B} (f : A -> B) row k :
  List.map f (concat (repeat row k)) = concat (repeat (List.map f row) k).
Proof.
  induction k as [|k IH]; simpl; [reflexivity|].
  rewrite map_app, IH. reflexivity.
Qed.

End StackFacts.

Section StackZip.
Import Spec.
Context {F : Type}.
Implicit Types (X Y T : list F).

Lemma stack_length k n X : length X = n -> length (Nd.data (stack k n X)) = Nd.prod [k; n].
Proof.
  intros H. unfold stack. cbn [Nd.data]. rewrite concat_repeat_length, H.
  unfold Nd.prod. cbn [fold_right]. lia.
Qed.

Lemma zip_stack_stack (f : F -> F -> F) k n X Y :
  length X = n -> length Y = n ->
  Nd.zip_with f (stack k n X) (stack k n Y)
  = ret (stack k n (List.map (fun p => f (fst p) (snd p)) (combine X Y))).
Proof.
  intros HX HY. rewrite zip_with_same_shape by reflexivity.
  change (Nd.shape (stack k n X)) with [k; n].
  rewrite !expand_same by (apply stack_length; assumption).
  unfold stack. cbn [Nd.data].
  rewrite combine_concat_repeat by congruence.
  rewrite map_concat_repeat. reflexivity.
Qed.

Lemma zip_scalar_stack (f : F -> F -> F) c k n Y :
  length Y = n ->
  Nd.zip_with f (Nd.scalar c) (stack k n Y)
  = ret (stack k n (List.map (f c) Y)).
Proof.
  intros HY. unfold Nd.zip_with.
  change (Nat.max (Nd.ndim (Nd.scalar c)) (Nd.ndim (stack k n Y))) with 2.
  change (Nd.pad_shape 2 (Nd.shape (Nd.scalar c))) with (repeat 1 (length [k; n])).
  change (Nd.pad_shape 2 (Nd.shape (stack k n Y))) with [k; n].
  rewrite bshape_ones_l, broadcast_scalar.
  unfold Nd.broadcast_to. change (Nd.pad_shape (length [k; n]) (Nd.shape (stack k n Y))) with [k; n].
  rewrite expand_same by (apply stack_length; assumption).
  rewrite <- (stack_length k n Y HY), combine_repeat_l.
  rewrite List.map_map. unfold stack. cbn [Nd.data fst snd].
  rewrite map_concat_repeat. reflexivity.
Qed.

Lemma zip_stack_scalar (f : F -> F -> F) c k n X :
  length X = n ->
  Nd.zip_with f (stack k n X) (Nd.scalar c)
  = ret (stack k n (List.map (fun x => f x c) X)).
Proof.
  intros HX. unfold Nd.zip_with.
  change (Nat.max (Nd.ndim (stack k n X)) (Nd.ndim (Nd.scalar c))) with 2.
  change (Nd.pad_shape 2 (Nd.shape (Nd.scalar c))) with (repeat 1 (length [k; n])).
  change (Nd.pad_shape 2 (Nd.shape (stack k n X))) with [k; n].
  rewrite bshape_ones_r, broadcast_scalar.
  unfold Nd.broadcast_to. change (Nd.pad_shape (length [k; n]) (Nd.shape (stack k n X))) with [k; n].
  rewrite expand_same by (apply stack_length; assumption).
  rewrite <- (stack_length k n X HX), combine_repeat_r.
  rewrite List.map_map. unfold stack. cbn [Nd.data fst snd].
  rewrite map_concat_repeat. reflexivity.
Qed.

Lemma bshape_rows k n : Nd.bshape [k; n] [1; n] = Some [k; n].
Proof.
  cbn [Nd.bshape]. rewrite Nat.eqb_refl.
  destruct (k =? 1)%nat; reflexivity.
Qed.

Lemma zip_stack_row (f : F -> F -> F) k n X T :
  length X = n -> length T = n ->
  Nd.zip_with f (stack k n X) (Nd.mk_nd [n] T)
  = ret (stack k n (List.map (fun p => f (fst p) (snd p)) (combine X T))).
Proof.
  intros HX HT. unfold Nd.zip_with.
  change (Nat.max (Nd.ndim (stack k n X)) (Nd.ndim (Nd.mk_nd [n] T))) with 2.
  change (Nd.pad_shape 2 (Nd.shape (Nd.mk_nd [n] T))) with [1; n].
  change (Nd.pad_shape 2 (Nd.shape (stack k n X))) with [k; n].
  rewrite bshape_rows. unfold Nd.broadcast_to.
  change (Nd.pad_shape (length [k; n]) (Nd.shape (stack k n X))) with [k; n].
  change (Nd.pad_shape (length [k; n]) (Nd.shape (Nd.mk_nd [n] T))) with [1; n].
  rewrite expand_same by (apply stack_length; assumption).
  cbn [Nd.data]. rewrite (expand_row T k n HT).
  unfold stack. cbn [Nd.data].
  rewrite combine_concat_repeat by congruence.
  rewrite map_concat_repeat. reflexivity.
Qed.

Lemma map_stack (g : F -> F) k n X : Nd.map g (stack k n X) = stack k n (List.map g X).
Proof. unfold Nd.map, stack. cbn [Nd.shape Nd.data]. rewrite map_concat_repeat. reflexivity. Qed.

End StackZip.

(** ** [avg_data] in exact arithmetic *)

Section AvgExact.
Import DR Spec.
Local Open Scope R_scope.

Lemma combine_map_l {A B} (g : A -> B) (l : list A) :
  combine (List.map g l) l = List.map (fun w => (g w, w)) l.
Proof. induction l as [|x l IH]; simpl; [|rewrite IH]; reflexivity. Qed.

Lemma combine_map_r {A B} (g : A -> B) (l : list A) :
  combine l (List.map g l) = List.map (fun w => (w, g w)) l.
Proof. induction l as [|x l IH]; simpl; [|rewrite IH]; reflexivity. Qed.

(** [j] further copies of the row [W] added to the row [map g W]. *)
Lemma sum_rows (g : R -> R) (W : list R) (j : nat) :
  fold_left (fun acc r => List.map (fun p => Num.add (fst p) (snd p)) (combine acc r))
            (repeat W j) (List.map g W)
  = List.map (fun w => g w + INR j * w) W.
Proof.
  revert g. induction j as [|j IH]; intros g.
  - cbn [repeat fold_left]. apply map_ext. intros w. simpl. ring.
  - cbn [repeat fold_left]. rewrite combine_map_l, List.map_map.
    change (List.map (fun x => Num.add (fst (g x, x)) (snd (g x, x))) W)
      with (List.map (fun w => g w + w) W).
    rewrite (IH (fun w => g w + w)).
    apply map_ext. intros w. rewrite S_INR. ring.
Qed.

Lemma sum0_stack (k n : nat) (X : list R) :
  (0 < k)%nat -> length X = n ->
  Nd.sum0 (stack k n X) = ret (Nd.mk_nd [n] (List.map (fun x => INR k * x) X)).
Proof.
  intros Hk HX. unfold Nd.sum0, stack. cbn [Nd.shape Nd.data].
  change (Nd.prod [n]) with (n * 1)%nat. rewrite Nat.mul_1_r.
  rewrite chunks_concat_repeat by exact HX.
  destruct k as [|k]; [lia|]. cbn [repeat].
  rewrite <- (map_id X) at 2. rewrite sum_rows.
  do 2 f_equal. apply map_ext. intros x. rewrite S_INR. ring.
Qed.

Lemma INR_pos_neq (k : nat) : (0 < k)%nat -> INR k <> 0.
Proof. intros H. apply not_0_INR. lia. Qed.

(** The weights of [k] identical inputs are all [1/k]. *)
Lemma weights_identical (weighted : bool) (k n : nat) (X V : list R) :
  (0 < k)%nat -> length X = n -> length V = n ->
  (weighted = true -> Forall (fun v => v <> 0) V) ->
  exists wt,
    weights weighted None (stack k n X) (stack k n V) = ret wt
    /\ Nd.zip_with Num.mul (stack k n X) wt
       = ret (stack k n (List.map (fun x => x * (1 / INR k)) X))
    /\ Nd.zip_with Num.mul (stack k n V) (Nd.map sq wt)
       = ret (stack k n (List.map (fun v => v * (1 / INR k * (1 / INR k))) V)).
Proof.
  intros Hk HX HV Hnz. unfold weights. destruct weighted.
  - specialize (Hnz eq_refl).
    rewrite zip_scalar_stack by exact HV. rewrite bind_ret_l.
    rewrite sum0_stack by (rewrite ?length_map; assumption). rewrite bind_ret_l.
    rewrite zip_stack_row by (rewrite ?length_map; assumption).
    rewrite combine_map_r, !List.map_map. cbn [fst snd].
    assert (Hw : List.map (fun v => Num.div (Num.div Num.one v) (INR k * Num.div Num.one v)) V
                 = List.map (fun _ => 1 / INR k) V).
    { apply map_ext_Forall. eapply Forall_impl; [exact Hnz|].
      intros v Hv. cbn [Num.div Num.one reals]. field.
      split; first [exact Hv | apply INR_pos_neq; exact Hk]. }
    rewrite Hw. eexists. split; [reflexivity|]. split.
    + rewrite zip_stack_stack by (rewrite ?length_map; assumption).
      f_equal. f_equal. clear Hw Hnz. subst n.
      revert V HV. induction X as [|x X IH]; intros [|v V] HV; try discriminate; [reflexivity|].
      cbn [List.map combine fst snd Num.mul reals]. f_equal.
      apply IH. simpl in HV. lia.
    + rewrite map_stack, List.map_map.
      rewrite zip_stack_stack by (rewrite ?length_map; assumption).
      f_equal. f_equal. rewrite combine_map_r, List.map_map. reflexivity.
  - unfold Nd.shape_at, stack. cbn [Nd.shape]. rewrite py_get_first, bind_ret_l.
    destruct (Nat.eqb_spec k 0) as [->|_]; [lia|].
    eexists. split; [reflexivity|]. split.
    + fold (stack k n X). rewrite zip_stack_scalar by exact HX. reflexivity.
    + fold (stack k n V). change (Nd.map sq (Nd.scalar (Num.div Num.one (Num.of_nat k))))
        with (Nd.scalar (sq (Num.div Num.one (Num.of_nat k)))).
      rewrite zip_stack_scalar by exact HV. reflexivity.
Qed.

Lemma bshape_rows_l (k n : nat) : Nd.bshape [1%nat; n] [k; n] = Some [k; n].
Proof.
  cbn [Nd.bshape]. rewrite Nat.eqb_refl.
  destruct (Nat.eqb_spec 1 k) as [<-|_]; [reflexivity|].
  rewrite Nat.eqb_refl. reflexivity.
Qed.

(** Multiplying a response matrix by an all +1 sign vector. *)
Lemma zip_ones (s R0 : Nd.ndarray R) ne nd :
  all_plus_one nd s -> matrix ne nd R0 -> Nd.zip_with Num.mul s R0 = ret R0.
Proof.
  intros [Hd Hs] [HR Hl]. destruct s as [sh sd], R0 as [rs rd].
  cbn [Nd.shape Nd.data] in *. subst sd rs.
  assert (Hfin : List.map (fun p : R * R => Num.mul (fst p) (snd p))
                          (combine (repeat Num.one (ne * nd)) rd) = rd).
  { rewrite <- Hl, combine_repeat_l, List.map_map. cbn [fst snd].
    rewrite <- (map_id rd) at 2. apply map_ext. intros x.
    cbn [Num.mul Num.one reals]. ring. }
  assert (Hexp : Nd.expand [ne; nd] [ne; nd] rd = rd).
  { apply expand_same. unfold Nd.prod. cbn [fold_right]. lia. }
  unfold Nd.zip_with, Nd.broadcast_to, Nd.ndim. cbn [Nd.shape Nd.data].
  destruct Hs as [-> | [-> ->]].
  - change (Nat.max (length [nd]) (length [ne; nd])) with 2%nat.
    change (Nd.pad_shape 2 [nd]) with [1%nat; nd].
    change (Nd.pad_shape 2 [ne; nd]) with [ne; nd].
    rewrite bshape_rows_l.
    change (Nd.pad_shape (length [ne; nd]) [nd]) with [1%nat; nd].
    change (Nd.pad_shape (length [ne; nd]) [ne; nd]) with [ne; nd].
    rewrite expand_row by apply repeat_length.
    rewrite concat_repeat_repeat, Hexp, Hfin. reflexivity.
  - change (Nat.max (length (@nil nat)) (length [ne; 1%nat])) with 2%nat.
    change (Nd.pad_shape 2 []) with (repeat 1%nat (length [ne; 1%nat])).
    change (Nd.pad_shape 2 [ne; 1%nat]) with [ne; 1%nat].
    rewrite bshape_ones_l.
    change (Nd.pad_shape (length [ne; 1%nat]) []) with (repeat 1%nat (length [ne; 1%nat])).
    change (Nd.pad_shape (length [ne; 1%nat]) [ne; 1%nat]) with [ne; 1%nat].
    change (repeat Num.one 1) with [Num.one (F := R)].
    rewrite expand_scalar.
    change (Nd.prod [ne; 1%nat]) with (ne * (1 * 1))%nat.
    rewrite Nat.mul_1_l, Hexp, Hfin. reflexivity.
Qed.

Lemma reshape_flat {A} (a : Nd.ndarray A) :
  Nd.reshape [Nd.prod (Nd.shape a)] a = ret (Nd.mk_nd [Nd.prod (Nd.shape a)] (Nd.data a)).
Proof.
  unfold Nd.reshape, Nd.size.
  change (Nd.prod [Nd.prod (Nd.shape a)]) with (Nd.prod (Nd.shape a) * 1)%nat.
  rewrite Nat.mul_1_r, Nat.eqb_refl. reflexivity.
Qed.

Lemma reshape_back {A} (sh : list nat) (l : list A) :
  Nd.reshape sh (Nd.mk_nd [Nd.prod sh] l) = ret (Nd.mk_nd sh l).
Proof.
  unfold Nd.reshape, Nd.size. cbn [Nd.shape Nd.data].
  change (Nd.prod [Nd.prod sh]) with (Nd.prod sh * 1)%nat.
  rewrite Nat.mul_1_r, Nat.eqb_refl. reflexivity.
Qed.

(** The loop of [avg_data] over identical inputs with all +1 signs. *)
Lemma flatten_identical_from (d : response_set R) R0 S0 ne nd
      (sgs : list (Nd.ndarray R)) :
  attrs d !! "R"%string = Some R0 -> attrs d !! "R_std"%string = Some S0 ->
  matrix ne nd R0 -> matrix ne nd S0 ->
  Forall (all_plus_one nd) sgs ->
  forall j accR accV,
    for_enum_from j (combine (repeat (Data d) (length sgs)) sgs) (accR, accV)
                  (flatten_step [ne; nd])
    = ret (accR ++ repeat (Nd.mk_nd [Nd.prod [ne; nd]] (Nd.data R0)) (length sgs),
           accV ++ repeat (Nd.mk_nd [Nd.prod [ne; nd]] (List.map sq (Nd.data S0)))
                          (length sgs)).
Proof.
  intros HR HS HmR HmS Hall.
  induction Hall as [|s sgs Hs _ IH]; intros j accR accV.
  - cbn [length repeat combine for_enum_from]. rewrite !app_nil_r. reflexivity.
  - cbn [length repeat combine for_enum_from flatten_step getattr].
    rewrite bind_ret_l, HR. cbn [need lift]. rewrite bind_ret_l.
    rewrite (zip_ones s R0 ne nd Hs HmR), bind_ret_l.
    rewrite bind_ret_l, HS. cbn [need lift]. rewrite bind_ret_l.
    destruct HmR as [HshR HlR], HmS as [HshS HlS].
    rewrite <- HshR at 1. rewrite reshape_flat, bind_ret_l.
    replace [ne; nd] with (Nd.shape (Nd.map sq S0)) at 1 by exact HshS.
    rewrite reshape_flat, bind_ret_l, bind_ret_l.
    rewrite IH by (split; assumption). cbn [Nd.map Nd.shape Nd.data].
    rewrite HshR, HshS. rewrite <- !app_assoc. reflexivity.
Qed.

(** The loop of [avg_data] over identical inputs with all +1 signs. *)
Lemma flatten_identical (d : response_set R) R0 S0 ne nd (sgs : list (Nd.ndarray R)) :
  attrs d !! "R"%string = Some R0 -> attrs d !! "R_std"%string = Some S0 ->
  matrix ne nd R0 -> matrix ne nd S0 ->
  Forall (all_plus_one nd) sgs ->
  flatten_inputs [ne; nd] (repeat (Data d) (length sgs)) sgs
  = ret (repeat (Nd.mk_nd [Nd.prod [ne; nd]] (Nd.data R0)) (length sgs),
         repeat (Nd.mk_nd [Nd.prod [ne; nd]] (List.map sq (Nd.data S0))) (length sgs)).
Proof.
  intros HR HS HmR HmS Hall. unfold flatten_inputs, for_enum.
  rewrite (flatten_identical_from d R0 S0 ne nd sgs HR HS HmR HmS Hall).
  reflexivity.
Qed.

Lemma np_array_repeat {A} (n : nat) (X : list A) (k : nat) :
  (0 < k)%nat ->
  Nd.np_array (repeat (Nd.mk_nd [n] X) k) = ret (Nd.mk_nd [k; n] (concat (repeat X k))).
Proof.
  intros Hk. destruct k as [|k]; [lia|].
  unfold Nd.np_array. cbn [repeat].
  assert (Hall : forallb (fun b => Nd.shape_eqb (Nd.shape (Nd.mk_nd [n] X)) (Nd.shape b))
                         (Nd.mk_nd [n] X :: repeat (Nd.mk_nd [n] X) k) = true).
  { apply forallb_forall. intros b Hb.
    change (In b (repeat (Nd.mk_nd [n] X) (S k))) in Hb.
    apply repeat_spec in Hb. subst b. apply shape_eqb_refl. }
  rewrite Hall.
  change (Nd.mk_nd [n] X :: repeat (Nd.mk_nd [n] X) k) with (repeat (Nd.mk_nd [n] X) (S k)).
  rewrite repeat_length, map_repeat. reflexivity.
Qed.

Lemma reals_self_ratio : self_ratio_law (F := R).
Proof.
  intros x. cbn [Num.div Num.sub Num.abs Num.sign Num.is_nan Num.ltb Num.one Num.tol reals].
  destruct (Req_dec x 0) as [->|Hx].
  - left. replace (0 / 0) with 0 by (unfold Rdiv; ring). rewrite Rabs_R0.
    replace (0 - 1) with (- (1)) by ring. rewrite Rabs_Ropp, Rabs_R1.
    destruct (Rlt_dec (1 / 1000) 1) as [_|Hn]; [reflexivity | exfalso; lra].
  - right. replace (x / x) with 1 by (field; exact Hx).
    destruct (Rlt_dec 0 1) as [_|Hn]; [reflexivity | exfalso; lra].
Qed.

Lemma clone_first_data {F} (d : response_set F) (l : list (pyobj F)) :
  clone_first (Data d :: l) = ret d.
Proof. unfold clone_first. rewrite py_get_first, bind_ret_l. reflexivity. Qed.

Lemma sqrt_of_square_over (s : R) (k : nat) :
  (0 < k)%nat -> sqrt (s * s / INR k) * sqrt (s * s / INR k) = s * s / INR k.
Proof.
  intros Hk. apply sqrt_sqrt.
  apply Rmult_le_pos; [nra|].
  left. apply Rinv_0_lt_compat. apply lt_0_INR. exact Hk.
Qed.

(** The average of identical copies in exact arithmetic, that is on the
    real-number instance of the code and not on its binary64 instance.
    [k >= 1] identical copies of the Response Set
    [d] are averaged, weighted or not; [d] has response and
    standard-deviation matrices of the same shape and no profile, or a
    matrix profile of at least ten samples with one row per detector;
    for the weighted average no standard deviation is zero. Then
    [avg_data] returns a Response Set whose 'R' is the 'R' of [d], and
    whose 'R_std' holds, for every entry [s] of the 'R_std' of [d], the
    square root of [s*s/k]: a common input variance [v] becomes the
    variance [v/k]. 'R_u' and 'R_l' are cleared. *)
Theorem average_of_identical_copies
        (d : response_set R) (k ne nd : nat) R0 S0 (weighted : bool) :
  (0 < k)%nat ->
  attrs d !! "R"%string = Some R0 -> attrs d !! "R_std"%string = Some S0 ->
  matrix ne nd R0 -> matrix ne nd S0 ->
  (sens d = None \/ exists s c, sens d = Some s /\ profile nd c s /\ (10 <= c)%nat) ->
  (weighted = true -> Forall (fun s => s <> 0) (Nd.data S0)) ->
  exists out res,
    avg_data (AsList (repeat (Data d) k)) weighted None false = (out, Ok res)
    /\ attrs res !! "R"%string = Some R0
    /\ attrs res !! "R_std"%string
       = Some (Nd.map (fun s => sqrt (s * s / INR k)) S0)
    /\ (forall v, Forall (fun s => s * s = v) (Nd.data S0) ->
                  Forall (fun t => t * t = v / INR k)
                         (Nd.data (Nd.map (fun s => sqrt (s * s / INR k)) S0)))
    /\ attrs res !! "R_u"%string = None
    /\ attrs res !! "R_l"%string = None.
Proof.
  intros Hk HR HS HmR HmS Href Hnz.
  destruct (sens_sign_check_self d R0 ne nd k reals_self_ratio HR (proj1 HmR) Href)
    as (out & sgs & Hsign & Hlen & Hall).
  set (N := Nd.prod [ne; nd]).
  assert (HlX : length (Nd.data R0) = N).
  { destruct HmR as [_ H]. rewrite H. unfold N, Nd.prod. cbn [fold_right]. lia. }
  assert (HlV : length (List.map sq (Nd.data S0)) = N).
  { destruct HmS as [_ H]. rewrite length_map, H. unfold N, Nd.prod. cbn [fold_right]. lia. }
  destruct (weights_identical weighted k N (Nd.data R0) (List.map sq (Nd.data S0)) Hk HlX HlV)
    as (wt & Hwt & HzR & HzV).
  { intros Hw. apply Forall_map. eapply Forall_impl; [exact (Hnz Hw)|].
    intros s Hs. unfold sq. cbn [Num.mul reals]. nra. }
  exists out. eexists. split.
  { unfold avg_data. destruct k as [|k']; [lia|]. cbn [repeat].
    rewrite clone_first_data, bind_ret_l.
    change (Data d :: repeat (Data d) k') with (repeat (Data d) (S k')).
    rewrite HR. cbn [need lift]. rewrite bind_ret_l.
    rewrite Hsign, bind_ok. rewrite (proj1 HmR).
    rewrite <- Hlen. rewrite (flatten_identical d R0 S0 ne nd sgs HR HS HmR HmS Hall).
    rewrite bind_ret_l. rewrite Hlen.
    rewrite !np_array_repeat by lia. rewrite !bind_ret_l.
    fold N. fold (stack (S k') N (Nd.data R0)).
    fold (stack (S k') N (List.map sq (Nd.data S0))).
    cbn [ret fst snd]. rewrite app_nil_r, bind_ok. cbv beta iota.
    rewrite Hwt, bind_ret_l. unfold weighted_sums.
    rewrite HzR, bind_ret_l.
    rewrite sum0_stack by (first [exact Hk | rewrite length_map; exact HlX]).
    rewrite bind_ret_l.
    rewrite HzV, bind_ret_l.
    rewrite sum0_stack by (first [exact Hk | rewrite length_map; exact HlV]).
    rewrite !bind_ret_l. unfold N. rewrite !reshape_back, !bind_ret_l.
    cbn [fst snd ret]. rewrite app_nil_r. reflexivity. }
  assert (HRnew : Nd.mk_nd [ne; nd]
                    (List.map (fun x => INR k * x)
                              (List.map (fun x => x * (1 / INR k)) (Nd.data R0))) = R0).
  { destruct R0 as [sh da]. destruct HmR as [Hsh _]. cbn [Nd.shape Nd.data] in *.
    subst sh. f_equal. rewrite List.map_map. rewrite <- (map_id da) at 2.
    apply map_ext. intros x. field. apply INR_pos_neq. exact Hk. }
  assert (HSnew : Nd.map Num.sqrt
                    (Nd.mk_nd [ne; nd]
                       (List.map (fun x => INR k * x)
                          (List.map (fun v => v * (1 / INR k * (1 / INR k)))
                                    (List.map sq (Nd.data S0)))))
                  = Nd.map (fun s => sqrt (s * s / INR k)) S0).
  { destruct S0 as [sh da]. destruct HmS as [Hsh _]. cbn [Nd.shape Nd.data] in *.
    subst sh. unfold Nd.map. cbn [Nd.shape Nd.data]. f_equal.
    rewrite !List.map_map. apply map_ext. intros s.
    cbn [Num.sqrt reals]. f_equal. unfold sq. cbn [Num.mul reals].
    field. apply INR_pos_neq. exact Hk. }
  cbn [setattr attrs].
  split.
  { rewrite !lookup_delete_ne by discriminate.
    rewrite lookup_insert_ne by discriminate. rewrite lookup_insert_eq.
    f_equal. exact HRnew. }
  split.
  { rewrite !lookup_delete_ne by discriminate.
    rewrite lookup_insert_eq. f_equal. exact HSnew. }
  split.
  { intros v Hv. unfold Nd.map. cbn [Nd.data]. apply Forall_map.
    eapply Forall_impl; [exact Hv|]. intros s Hs. cbn beta in Hs |- *.
    rewrite sqrt_of_square_over by exact Hk. rewrite Hs. reflexivity. }
  split.
  { rewrite lookup_delete_ne by discriminate. apply lookup_delete_eq. }
  apply lookup_delete_eq.
Qed.

Lemma average_of_identical_copies_witness :
  exists out res,
    avg_data (AsList (repeat (Data real_row) 3)) true None false = (out, Ok res)
    /\ attrs res !! "R"%string = Some (Nd.mk_nd [1; 2]%nat [5; 6])
    /\ attrs res !! "R_std"%string
       = Some (Nd.map (fun s => sqrt (s * s / INR 3)) (Nd.mk_nd [1; 2]%nat [1; 2]))
    /\ (forall v, Forall (fun s => s * s = v) (Nd.data (Nd.mk_nd [1; 2]%nat [1; 2])) ->
                  Forall (fun t => t * t = v / INR 3)
                         (Nd.data (Nd.map (fun s => sqrt (s * s / INR 3))
                                          (Nd.mk_nd [1; 2]%nat [1; 2]))))
    /\ attrs res !! "R_u"%string = None
    /\ attrs res !! "R_l"%string = None.
Proof.
  apply (average_of_identical_copies real_row 3 1 2
           (Nd.mk_nd [1; 2]%nat [5; 6]) (Nd.mk_nd [1; 2]%nat [1; 2]) true).
  - lia.
  - reflexivity.
  - reflexivity.
  - split; reflexivity.
  - split; reflexivity.
  - left. reflexivity.
  - intros _. repeat constructor; lra.
Defined.

End AvgExact.

(* --------------------------------------------------------------------- *)
(** ** The store: what a call leaves as it was *)

Section FrameFacts.
Context {F : Type} {SF : Scalar F}.
Variable lstsq : Nd.ndarray F -> Nd.ndarray F -> M (Nd.ndarray F).

Import Heap.

Implicit Types σ : heap F.

Lemma preserved_refl σ : preserved σ σ.
Proof. repeat split; auto. Qed.

Lemma preserved_trans σ1 σ2 σ3 :
  preserved σ1 σ2 -> preserved σ2 σ3 -> preserved σ1 σ3.
Proof.
  intros (a1 & b1 & c1) (a2 & b2 & c2). repeat split; auto.
Qed.

Lemma keeps_weaken {A} σ0 (m : H F A) (P Q : A -> Prop) :
  keeps σ0 m P -> (forall a, P a -> Q a) -> keeps σ0 m Q.
Proof.
  intros Hm HPQ σ Hσ. destruct (Hm σ Hσ) as [H1 H2]. split; auto.
Qed.

Lemma keeps_ret {A} σ0 (a : A) (Q : A -> Prop) : Q a -> keeps σ0 (hret a) Q.
Proof.
  intros HQ σ Hσ. split; [exact Hσ|]. cbn. intros b [= <-]. exact HQ.
Qed.

Lemma keeps_liftM {A} σ0 (m : M A) : keeps σ0 (liftM m) (fun _ => True).
Proof. intros σ Hσ. split; [exact Hσ | auto]. Qed.

Lemma keeps_raise {A} σ0 (e : exn) (Q : A -> Prop) : keeps σ0 (liftM (raise e)) Q.
Proof. intros σ Hσ. split; [exact Hσ | discriminate]. Qed.

Lemma keeps_bind {A B} σ0 (m : H F A) (k : A -> H F B) (P : A -> Prop) (Q : B -> Prop) :
  keeps σ0 m P -> (forall a, P a -> keeps σ0 (k a) Q) -> keeps σ0 (hbind m k) Q.
Proof.
  intros Hm Hk σ Hσ. destruct (Hm σ Hσ) as [H1 H2]. unfold hbind.
  destruct (m σ) as [[out [a|e]] σ']; cbn in *.
  - specialize (Hk a (H2 a eq_refl) σ' H1).
    destruct (k a σ') as [[out' r] σ'']; cbn in *. exact Hk.
  - split; [exact H1 | discriminate].
Qed.

Lemma keeps_try {A} σ0 (body handler : H F A) (Q : A -> Prop) :
  keeps σ0 body Q -> keeps σ0 handler Q -> keeps σ0 (htry body handler) Q.
Proof.
  intros Hb Hh σ Hσ. destruct (Hb σ Hσ) as [H1 H2]. unfold htry.
  destruct (body σ) as [[out [a|e]] σ']; cbn in *.
  - split; [exact H1|]. intros b [= <-]. auto.
  - specialize (Hh σ' H1). destruct (handler σ') as [[out' r] σ'']; cbn in *.
    exact Hh.
Qed.

Lemma keeps_for_each {A St} σ0 (I : St -> Prop) (body : St -> A -> H F St) (l : list A) :
  (forall s a, I s -> keeps σ0 (body s a) I) ->
  forall s, I s -> keeps σ0 (hfor_each l s body) I.
Proof.
  intros Hb. induction l as [|a l IH]; intros s Hs; cbn [hfor_each].
  - apply keeps_ret. exact Hs.
  - eapply keeps_bind; [apply Hb; exact Hs | exact IH].
Qed.

Lemma keeps_for_enum {A St} σ0 (I : St -> Prop) (body : St -> nat -> A -> H F St)
      (l : list A) :
  (forall s k a, I s -> keeps σ0 (body s k a) I) ->
  forall s, I s -> keeps σ0 (hfor_enum l s body) I.
Proof.
  intros Hb. unfold hfor_enum. generalize 0.
  induction l as [|a l IH]; intros k s Hs; cbn [hfor_enum_from].
  - apply keeps_ret. exact Hs.
  - eapply keeps_bind; [apply Hb; exact Hs | intros; apply IH; assumption].
Qed.

Lemma keeps_map {A B} σ0 (f : A -> H F B) (l : list A) :
  (forall a, keeps σ0 (f a) (fun _ => True)) ->
  keeps σ0 (hmap f l) (fun _ => True).
Proof.
  intros Hf. induction l as [|a l IH]; cbn [hmap].
  - apply keeps_ret. exact I.
  - eapply keeps_bind; [apply Hf|]. intros b _.
    eapply keeps_bind; [apply IH|]. intros bs _. apply keeps_ret. exact I.
Qed.

(** *** The primitives *)

Lemma keeps_load σ0 h : keeps σ0 (load h) (fun _ => True).
Proof.
  intros σ Hσ. unfold load.
  destruct (bufs σ !! buf h) as [b|]; [|split; [exact Hσ | auto]].
  destruct (mapM _ _); split; auto.
Qed.

Lemma fresh_not_held {A} (m0 m : gmap loc A) :
  (forall l a, m0 !! l = Some a -> m !! l = Some a) ->
  m0 !! fresh (dom m) = None /\
  forall x l a, m0 !! l = Some a -> <[fresh (dom m) := x]> m !! l = Some a.
Proof.
  intros Hm.
  assert (Hf : m !! fresh (dom m) = None)
    by (apply not_elem_of_dom, is_fresh).
  split.
  - destruct (m0 !! fresh (dom m)) as [a|] eqn:E; [|reflexivity].
    apply Hm in E. congruence.
  - intros x l a Hl. apply Hm in Hl.
    rewrite lookup_insert_ne; [exact Hl|]. intros <-. congruence.
Qed.

Lemma overwrite_not_held {A} (m0 m : gmap loc A) l0 x :
  (forall l a, m0 !! l = Some a -> m !! l = Some a) ->
  m0 !! l0 = None ->
  forall l a, m0 !! l = Some a -> <[l0 := x]> m !! l = Some a.
Proof.
  intros Hm Hl0 l a Hl.
  rewrite lookup_insert_ne; [auto|]. intros <-. congruence.
Qed.

Lemma keeps_alloc σ0 v : keeps σ0 (alloc v) (new_arr σ0).
Proof.
  intros σ (Hb & Hl & Ho). destruct (fresh_not_held _ _ Hb) as [Hn Hi].
  unfold alloc, preserved, new_arr; cbn. split.
  - repeat split; auto.
  - intros a [= <-]. exact Hn.
Qed.

Lemma keeps_write σ0 l pvs :
  bufs σ0 !! l = None -> keeps σ0 (write l pvs) (fun _ => True).
Proof.
  intros Hn σ (Hb & Hl & Ho). unfold write.
  destruct (bufs σ !! l) as [b|]; cbn; (split; [|auto]).
  - repeat split; cbn; auto. apply overwrite_not_held; assumption.
  - repeat split; auto.
Qed.

Lemma keeps_store σ0 h vs : new_arr σ0 h -> keeps σ0 (store h vs) (fun _ => True).
Proof. intros Hn. apply keeps_write. exact Hn. Qed.

Lemma keeps_store_mask σ0 h mask x :
  new_arr σ0 h -> keeps σ0 (store_mask h mask x) (fun _ => True).
Proof. intros Hn. apply keeps_write. exact Hn. Qed.

Lemma keeps_load_lbl σ0 l : keeps σ0 (load_lbl l) (fun _ => True).
Proof.
  intros σ Hσ. unfold load_lbl. destruct (lbls σ !! l); split; auto.
Qed.

Lemma keeps_alloc_lbl σ0 ls : keeps σ0 (alloc_lbl ls) (new_lbl σ0).
Proof.
  intros σ (Hb & Hl & Ho). destruct (fresh_not_held _ _ Hl) as [Hn Hi].
  unfold alloc_lbl, preserved, new_lbl; cbn. split.
  - repeat split; auto.
  - intros a [= <-]. exact Hn.
Qed.

Lemma keeps_store_lbl σ0 l ls :
  new_lbl σ0 l -> keeps σ0 (store_lbl l ls) (fun _ => True).
Proof.
  intros Hn σ (Hb & Hl & Ho). unfold store_lbl.
  destruct (lbls σ !! l) as [b|]; cbn; (split; [|auto]).
  - repeat split; cbn; auto. apply overwrite_not_held; assumption.
  - repeat split; auto.
Qed.

Lemma keeps_get_obj σ0 l : keeps σ0 (get_obj l) (fun _ => True).
Proof.
  intros σ Hσ. unfold get_obj. destruct (objs σ !! l); split; auto.
Qed.

Lemma keeps_new_obj σ0 o : keeps σ0 (new_obj o) (new_obj_at σ0).
Proof.
  intros σ (Hb & Hl & Ho). destruct (fresh_not_held _ _ Ho) as [Hn Hi].
  unfold new_obj, preserved, new_obj_at; cbn. split.
  - repeat split; auto.
  - intros a [= <-]. exact Hn.
Qed.

Lemma keeps_set_obj σ0 l o :
  new_obj_at σ0 l -> keeps σ0 (set_obj l o) (fun _ => True).
Proof.
  intros Hn σ (Hb & Hl & Ho). unfold set_obj.
  destruct (objs σ !! l) as [b|]; cbn; (split; [|auto]).
  - repeat split; cbn; auto. apply overwrite_not_held; assumption.
  - repeat split; auto.
Qed.

(** *** The functions *)

Create HintDb frame discriminated.

#[local] Hint Resolve keeps_liftM keeps_load keeps_alloc keeps_load_lbl keeps_alloc_lbl
  keeps_get_obj keeps_new_obj keeps_store keeps_store_mask keeps_store_lbl
  keeps_set_obj : frame.

Ltac frame_call :=
  first [ apply keeps_raise
        | solve [eauto 3 with frame nocore]
        | eapply keeps_weaken; [solve [eauto 3 with frame nocore] | solve [auto]] ].

(** One step through a computation: a [bind] whose first part is a call,
    a branch or a loop with no invariant to keep, a branch, a [return]. *)
Ltac frame_step :=
  lazymatch goal with
  | |- keeps _ (hbind (match ?x with _ => _ end) _) _ =>
      eapply keeps_bind with (P := fun _ => True);
      [destruct x; repeat frame_step | intros ? _]
  | |- keeps _ (hbind (hfor_each _ _ _) _) _ =>
      eapply keeps_bind with (P := fun _ => True);
      [repeat frame_step | intros ? _]
  | |- keeps _ (hbind (hmap _ _) _) _ =>
      eapply keeps_bind with (P := fun _ => True);
      [repeat frame_step | intros ? _]
  | |- keeps _ (hbind _ _) _ => eapply keeps_bind; [frame_call | intros ? ?]
  | |- keeps _ (hret _) _ => apply keeps_ret; first [exact I | assumption]
  | |- keeps _ (htry _ _) _ => apply keeps_try
  | |- keeps _ (hfor_each _ _ _) _ =>
      eapply keeps_for_each with (I := fun _ => True); [intros ? ? _ | exact I]
  | |- keeps _ (hfor_enum _ _ _) _ =>
      eapply keeps_for_enum with (I := fun _ => True); [intros ? ? ? _ | exact I]
  | |- keeps _ (hmap _ _) _ => eapply keeps_map; intros ?
  | |- keeps _ (match ?x with _ => _ end) _ => destruct x
  | |- keeps _ (match ?x with _ => _ end _) _ => destruct x
  | |- keeps _ (match ?x with _ => _ end _ _) _ => destruct x
  | |- keeps _ _ _ => frame_call
  end.

Ltac frame := repeat frame_step.

Lemma keeps_hasattr σ0 l a : keeps σ0 (hasattr l a) (fun _ => True).
Proof. unfold hasattr. frame. Qed.

Lemma keeps_getattr σ0 l f : keeps σ0 (getattr l f) (fun _ => True).
Proof. unfold getattr. frame. Qed.

Lemma keeps_get_label σ0 l : keeps σ0 (get_label l) (fun _ => True).
Proof. unfold get_label. frame. Qed.

Lemma keeps_get_sens σ0 l : keeps σ0 (get_sens l) (fun _ => True).
Proof. unfold get_sens. frame. Qed.

Lemma keeps_rho_eff σ0 l : keeps σ0 (rho_eff l) (fun _ => True).
Proof. unfold rho_eff. frame. Qed.

Lemma keeps_tc σ0 l : keeps σ0 (tc l) (fun _ => True).
Proof. unfold tc. frame. Qed.

Lemma keeps_load_need σ0 e x : keeps σ0 (load_need e x) (fun _ => True).
Proof. unfold load_need. frame. Qed.

#[local] Hint Resolve keeps_hasattr keeps_getattr keeps_get_label keeps_get_sens
  keeps_rho_eff keeps_tc keeps_load_need : frame.

(** An attribute assignment on an object that is not in [σ0]. *)
Lemma keeps_setattr σ0 l f x :
  new_obj_at σ0 l -> keeps σ0 (setattr l f x) (fun _ => True).
Proof. intros Hl. unfold setattr. frame. Qed.

Lemma keeps_set_label σ0 l x :
  new_obj_at σ0 l -> keeps σ0 (set_label l x) (fun _ => True).
Proof. intros Hl. unfold set_label. frame. Qed.

Lemma keeps_set_sens σ0 l x :
  new_obj_at σ0 l -> keeps σ0 (set_sens l x) (fun _ => True).
Proof. intros Hl. unfold set_sens. frame. Qed.

Lemma keeps_copy_arr σ0 h : keeps σ0 (copy_arr h) (new_arr σ0).
Proof. unfold copy_arr. frame. Qed.

#[local] Hint Resolve keeps_setattr keeps_set_label keeps_set_sens keeps_copy_arr : frame.

(** The clone is an object that is not in [σ0]. *)
Lemma keeps_copy σ0 l : keeps σ0 (copy l) (new_obj_at σ0).
Proof. unfold copy. frame. Qed.

Lemma keeps_new_instance σ0 l : keeps σ0 (new_instance l) (new_obj_at σ0).
Proof. unfold new_instance. frame. Qed.

#[local] Hint Resolve keeps_copy keeps_new_instance : frame.

Lemma keeps_dict2list σ0 items : keeps σ0 (dict2list items) (fun _ => True).
Proof. unfold dict2list. frame. Qed.

Lemma keeps_ref_profile σ0 data0 : keeps σ0 (ref_profile data0) (fun _ => True).
Proof. unfold ref_profile. frame. Qed.

(** Every array appended to [sign] has a buffer that is not in [σ0]:
    it is [np.ones(nd)], or a view of what [mode] returns. *)
Lemma keeps_candidate_sign σ0 ref nd k d :
  keeps σ0 (candidate_sign ref nd k d) (new_arr σ0).
Proof. unfold candidate_sign. frame. Qed.

#[local] Hint Resolve keeps_dict2list keeps_ref_profile keeps_candidate_sign : frame.

Lemma keeps_sens_sign_check σ0 data0 data_in :
  keeps σ0 (sens_sign_check data0 data_in) (fun _ => True).
Proof. unfold sens_sign_check. frame. Qed.

Lemma keeps_corr_SVD_switching σ0 data0 data_in :
  keeps σ0 (corr_SVD_switching data0 data_in) (fun _ => True).
Proof. unfold corr_SVD_switching. frame. Qed.

Lemma keeps_clone_first σ0 data_in : keeps σ0 (clone_first data_in) (new_obj_at σ0).
Proof. unfold clone_first. frame. Qed.

Lemma keeps_flatten_inputs σ0 SZ data_in sign :
  keeps σ0 (flatten_inputs SZ data_in sign) (fun _ => True).
Proof. unfold flatten_inputs. frame_step. unfold flatten_step. frame. Qed.

#[local] Hint Resolve keeps_sens_sign_check keeps_corr_SVD_switching keeps_clone_first
  keeps_flatten_inputs : frame.

Lemma keeps_avg_data σ0 data_in weighted weight r_no_opt :
  keeps σ0 (avg_data data_in weighted weight r_no_opt) (new_obj_at σ0).
Proof. unfold avg_data. frame. Qed.

Lemma keeps_input_label σ0 labels k d :
  keeps σ0 (input_label labels k d) (fun _ => True).
Proof. unfold input_label. frame. Qed.

Lemma keeps_concat_labels σ0 label : keeps σ0 (concat_labels label) (fun _ => True).
Proof. unfold concat_labels. frame. Qed.

#[local] Hint Resolve keeps_input_label keeps_concat_labels : frame.

Lemma keeps_collect σ0 labels data_in sign :
  keeps σ0 (collect labels data_in sign) (fun _ => True).
Proof. unfold collect. frame. Qed.

Lemma keeps_concat_fields σ0 R data :
  new_obj_at σ0 data -> keeps σ0 (concat_fields R data) (fun _ => True).
Proof. intros Hd. unfold concat_fields. frame. Qed.

(** The scatter-insertion writes into [x0] and [lbl], which the block
    has just made, and assigns to the attributes of [data]. *)
Lemma keeps_reindex σ0 index data :
  new_obj_at σ0 data -> keeps σ0 (reindex index data) (fun _ => True).
Proof. intros Hd. unfold reindex. frame. Qed.

#[local] Hint Resolve keeps_collect keeps_concat_fields keeps_reindex : frame.

Lemma keeps_append_data σ0 data_in labels index :
  keeps σ0 (append_data data_in labels index) (new_obj_at σ0).
Proof. unfold append_data. frame. Qed.

Lemma keeps_fold_step σ0 r st R2 :
  keeps σ0 (fold_step lstsq r st R2) (fun _ => True).
Proof. unfold fold_step. frame. Qed.

Lemma keeps_prepare σ0 data nf :
  keeps σ0 (prepare data nf) (fun x => new_obj_at σ0 (fst (fst x))).
Proof. unfold prepare. frame. Qed.

#[local] Hint Resolve keeps_fold_step keeps_prepare : frame.

Lemma keeps_calc_prod σ0 data r nf :
  keeps σ0 (calc_prod lstsq data r nf)
        (fun x => forall l, x = Some l -> new_obj_at σ0 l).
Proof.
  unfold calc_prod. destruct (_ && _).
  - frame_step. apply keeps_ret. discriminate.
  - frame_step. destruct a as [[out R] R_std]; cbn [fst] in *.
    repeat lazymatch goal with
           | |- keeps _ (hret (Some _)) _ =>
               apply keeps_ret; intros ? [= <-]; assumption
           | |- _ => frame_step
           end.
Qed.

(** *** The values of the objects *)

Lemma mapM_mono {A B} (f g : A -> option B) (l : list A) (k : list B) :
  (forall a b, f a = Some b -> g a = Some b) ->
  mapM f l = Some k -> mapM g l = Some k.
Proof.
  intros Hfg. revert k. induction l as [|a l IH]; intros k; cbn; [auto|].
  destruct (f a) as [b|] eqn:Ea; cbn; [|discriminate].
  rewrite (Hfg _ _ Ea). cbn.
  destruct (mapM f l) as [k'|]; cbn; [|discriminate].
  rewrite (IH k' eq_refl). auto.
Qed.

Lemma read_opt_mono {A B} (f g : A -> option B) (x : option A) y :
  (forall a b, f a = Some b -> g a = Some b) ->
  read_opt f x = Some y -> read_opt g x = Some y.
Proof.
  intros Hfg. destruct x as [a|]; cbn; [|auto].
  destruct (f a) as [b|] eqn:Ea; cbn; [|discriminate].
  rewrite (Hfg _ _ Ea). auto.
Qed.

Lemma read_arr_preserved σ σ' h v :
  preserved σ σ' -> read_arr σ h = Some v -> read_arr σ' h = Some v.
Proof.
  intros (Hb & _ & _). unfold read_arr.
  destruct (bufs σ !! buf h) as [b|] eqn:E; cbn; [|discriminate].
  rewrite (Hb _ _ E). auto.
Qed.

Lemma read_sens_preserved σ σ' s v :
  preserved σ σ' -> read_sens σ s = Some v -> read_sens σ' s = Some v.
Proof.
  intros Hp. pose proof Hp as (_ & _ & Ho). unfold read_sens.
  destruct (objs σ !! s) as [o|] eqn:E; [|discriminate].
  rewrite (Ho _ _ E). destruct o as [| rho t |]; try discriminate.
  destruct (read_arr σ rho) as [a|] eqn:Ea; cbn; [|discriminate].
  rewrite (read_arr_preserved _ _ _ _ Hp Ea). cbn.
  destruct (read_arr σ t) as [b|] eqn:Eb; cbn; [|discriminate].
  rewrite (read_arr_preserved _ _ _ _ Hp Eb). auto.
Qed.

(** An object of [σ] has in [σ'] the value it has in [σ]. *)
Lemma read_obj_preserved σ σ' l o :
  preserved σ σ' -> read_obj σ l = Some o -> read_obj σ' l = Some o.
Proof.
  intros Hp. pose proof Hp as (_ & Hl & Ho).
  assert (HA : forall x y, read_opt (read_arr σ) x = Some y ->
                           read_opt (read_arr σ') x = Some y).
  { intros x y. apply read_opt_mono. intros; eapply read_arr_preserved; eassumption. }
  assert (HL : forall x y, read_opt (fun ll => lbls σ !! ll) x = Some y ->
                           read_opt (fun ll => lbls σ' !! ll) x = Some y).
  { intros x y. apply read_opt_mono. intros; apply Hl; assumption. }
  assert (HS : forall x y, read_opt (read_sens σ) x = Some y ->
                           read_opt (read_sens σ') x = Some y).
  { intros x y. apply read_opt_mono. intros; eapply read_sens_preserved; eassumption. }
  unfold read_obj.
  destruct (objs σ !! l) as [x|] eqn:E; [|discriminate].
  rewrite (Ho _ _ E). destruct x as [attrs lb s | | r s lb]; [|discriminate|].
  - destruct (mapM _ (map_to_list attrs)) as [fs|] eqn:Ef; cbn; [|discriminate].
    assert (HM : mapM (fun fh => pair (fst fh) <$> read_arr σ' (snd fh))
                      (map_to_list attrs) = Some fs).
    { eapply mapM_mono; [|exact Ef]. intros [f h] b. cbn.
      destruct (read_arr σ h) as [v|] eqn:Ev; [|discriminate].
      rewrite (read_arr_preserved _ _ _ _ Hp Ev). auto. }
    rewrite HM; cbn.
    destruct (read_opt _ lb) as [lb'|] eqn:El; cbn; [|discriminate].
    rewrite (HL _ _ El); cbn.
    destruct (read_opt _ s) as [s'|] eqn:Es; cbn; [|discriminate].
    rewrite (HS _ _ Es); cbn. auto.
  - destruct (read_opt _ r) as [r'|] eqn:Er; cbn; [|discriminate].
    rewrite (read_opt_mono _ (read_opt (read_arr σ')) _ _ HA Er); cbn.
    destruct (read_opt _ s) as [s'|] eqn:Es; cbn; [|discriminate].
    rewrite (read_opt_mono _ (read_opt (read_arr σ')) _ _ HA Es); cbn.
    destruct (read_opt _ lb) as [lb'|] eqn:El; cbn; [|discriminate].
    rewrite (read_opt_mono _ (read_opt (fun ll => lbls σ' !! ll)) _ _ HL El); cbn.
    auto.
Qed.

Lemma keeps_leaves_inputs {A} σ (m : H F A) (result : A -> option loc) :
  keeps σ m (fun a => forall l, result a = Some l -> new_obj_at σ l) ->
  leaves_inputs σ m result.
Proof.
  intros Hm. destruct (Hm σ (preserved_refl σ)) as [Hp Hr].
  split; [exact Hp|]. split.
  - intros l o. apply read_obj_preserved. exact Hp.
  - intros a l Ha Hl. exact (Hr a Ha l Hl).
Qed.

(** C2. Every call of [avg_data], of [append_data] (with any [labels]
    and any [index]) and of [calc_prod], in any store and whether it
    returns or raises, leaves every buffer, every label array and every
    object that the store held before the call as it was; so every
    object of the store, and with it every input Response Set, has all
    its fields (the matrices, the labels, the profile) with the values
    they had. The object a call returns is a new one: the attribute
    assignments, and the scatter-insertion under [index], write to new
    objects and new arrays only. *)
Theorem combination_leaves_inputs_unchanged (σ : heap F) :
  (forall data_in weighted weight r_no_opt,
      leaves_inputs σ (avg_data data_in weighted weight r_no_opt) Some) /\
  (forall data_in labels index,
      leaves_inputs σ (append_data data_in labels index) Some) /\
  (forall data r nf,
      leaves_inputs σ (calc_prod lstsq data r nf) (fun out => out)).
Proof.
  split; [|split]; intros; apply keeps_leaves_inputs.
  - eapply keeps_weaken; [apply keeps_avg_data|]. intros a Ha l [= <-]. exact Ha.
  - eapply keeps_weaken; [apply keeps_append_data|]. intros a Ha l [= <-]. exact Ha.
  - apply keeps_calc_prod.
Qed.

End FrameFacts.

(** *** The store-level functions on a sample store *)

Section StoreExamples.
Import Spec.

Lemma store3_holds :
  Heap.read_obj store3 2%positive = Some (DR.Data setC12)
  /\ Heap.read_obj store3 3%positive = Some (DR.Data row12)
  /\ Heap.objs store3 !! 4%positive = None.
Proof. repeat split; vm_compute; reflexivity. Qed.

(** Reading a view gives the slice of the array: for the matrix of the
    profile, [a[:, ::5]], [a.T] and [a[1:2]], and [np.squeeze] of the
    latter. *)
Lemma views_read_as_slices :
  let a := DR.rho_eff sens12 in
  let h := Heap.mk_aref 1%positive 0 [2; 12] [12; 1] in
  let via (v : M Heap.aref) :=
    snd (fst (Heap.hbind (Heap.liftM v) Heap.load store3)) in
  Heap.read_arr store3 h = Some a
  /\ via (Heap.view_stride_cols 5 h) = snd (Nd.stride_cols 5 a)
  /\ via (ret (Heap.view_transpose h)) = Ok (Nd.transpose a)
  /\ via (Heap.view_slice_rows 1 2 h) = snd (Nd.slice_rows 1 2 a)
  /\ via (let! r := Heap.view_slice_rows 1 2 h in ret (Heap.view_squeeze r))
     = snd (let! r := Nd.slice_rows 1 2 a in ret (Nd.squeeze r)).
Proof. repeat split; vm_compute; reflexivity. Qed.

(** On the sample store the calls print and return what the functions
    on values print and return for the values of the inputs: an append
    with an [index], a weighted average, and a product of one factor. *)
Lemma append_over_store :
  outcome_in (Heap.append_data (Heap.AsList [2; 3]%positive) DR.LNone
                               (Some [2; 0; 1]%Z)) Some store3
  = outcome_of (DR.append_data (DR.AsList [DR.Data setC12; DR.Data row12]) DR.LNone
                               (Some [2; 0; 1]%Z)) Some
  /\ label_of (DR.append_data (DR.AsList [DR.Data setC12; DR.Data row12]) DR.LNone
                              (Some [2; 0; 1]%Z))
     = Some (Some ["a2"; "a"; "a1"]%string).
Proof. split; vm_compute; reflexivity. Qed.

Lemma avg_over_store :
  let r := DR.avg_data (DR.AsList [DR.Data row12; DR.Data row12; DR.Data row12])
                       true None false in
  outcome_in (Heap.avg_data (Heap.AsList [3; 3; 3]%positive) true None false)
             Some store3
  = outcome_of r Some
  /\ field_of r "R" = Some (Some (mat 1 2 [5; 6]%float)).
Proof. split; vm_compute; reflexivity. Qed.

Lemma calc_prod_over_store :
  let r := DR.calc_prod no_lstsq (DR.DList [DR.Data row12])
                        (DR.ROne (DR.Raw (mat 2 2 [1; 0; 0; 1]%float))) None in
  outcome_in (Heap.calc_prod no_lstsq (Heap.DList [3]%positive)
                             (DR.ROne (DR.Raw (mat 2 2 [1; 0; 0; 1]%float))) None)
             (fun out => out) store3
  = outcome_of r (fun out => out)
  /\ snd r = Ok (Some row12).
Proof. split; vm_compute; reflexivity. Qed.

(** With one factor the loop of [calc_prod] does not run and [out.R]
    is the array object of the input itself, which the call has not
    written to. *)
Lemma calc_prod_single_shares_array :
  let r := Heap.calc_prod no_lstsq (Heap.DList [3]%positive)
                          (DR.ROne (DR.Raw (mat 2 2 [1; 0; 0; 1]%float))) None store3 in
  snd (fst r) = Ok (Some 4%positive)
  /\ fst (fst (Heap.getattr 4%positive "R" (snd r)))
     = fst (fst (Heap.getattr 3%positive "R" store3)).
Proof. split; vm_compute; reflexivity. Qed.

(** The store tells a write into an array of an input: after
    [R[...] = [0, 0]] on the array 'R' of the object at 3, the store is
    not [preserved]. *)
Lemma write_into_input_not_preserved :
  let write_R :=
    Heap.hbind (Heap.getattr 3%positive "R") (fun x =>
    match x with
    | Some h => Heap.store h [0; 0]%float
    | None => Heap.hret tt
    end) in
  snd (fst (write_R store3)) = Ok tt
  /\ ~ Heap.preserved store3 (snd (write_R store3)).
Proof.
  split; [vm_compute; reflexivity|].
  intros (Hb & _ & _).
  specialize (Hb 6%positive [5; 6]%float eq_refl).
  apply (f_equal (fun o => match o with
                           | Some (x :: _) => PrimFloat.eqb x 5
                           | _ => false
                           end)) in Hb.
  vm_compute in Hb. discriminate.
Qed.

End StoreExamples.

(* ===================================================================== *)
(** * Further properties of the code *)
(* ===================================================================== *)

(* ===================================================================== *)
(** * Further properties of the code *)
(* ===================================================================== *)

(** ** Returning computations *)

Section ReturnFacts.
Context {A B : Type}.

(** A [bind] that returns: both parts return, and the output is the
    output of the first followed by that of the second. *)
Lemma bind_Ok_inv (m : M A) (k : A -> M B) out b :
  Py.bind m k = (out, Ok b) ->
  exists o1 a o2, m = (o1, Ok a) /\ k a = (o2, Ok b) /\ out = o1 ++ o2.
Proof.
  unfold Py.bind. destruct m as [o1 [a|e]]; [|discriminate].
  destruct (k a) as [o2 r] eqn:E. intros [= <- ->]. eauto 6.
Qed.

Lemma ret_Ok_inv (a b : A) out : ret a = (out, Ok b) -> b = a /\ out = [].
Proof. intros [= <- <-]. split; reflexivity. Qed.

Lemma bind_Raise_l (m : M A) (k : A -> M B) out e :
  m = (out, Raise e) -> Py.bind m k = (out, Raise e).
Proof. intros ->. reflexivity. Qed.

End ReturnFacts.

(** A loop that returns keeps an invariant its body keeps. *)
Lemma for_each_Ok_inv {A St} (I : St -> Prop) (body : St -> A -> M St) (l : list A) :
  (forall s a out s', I s -> In a l -> body s a = (out, Ok s') -> I s') ->
  forall s out s', I s -> for_each l s body = (out, Ok s') -> I s'.
Proof.
  induction l as [|a l IH]; intros Hb s out s' Hs; cbn [for_each].
  - intros [= _ <-]. exact Hs.
  - intros Hr. apply bind_Ok_inv in Hr as (o1 & s1 & o2 & H1 & H2 & _).
    eapply IH; [|eapply Hb; [exact Hs|left; reflexivity|exact H1]|exact H2].
    intros; eapply Hb; eauto. right; assumption.
Qed.

Lemma for_enum_from_Ok_inv {A St} (I : nat -> St -> Prop)
      (body : St -> nat -> A -> M St) (l : list A) :
  (forall s k a out s', I k s -> body s k a = (out, Ok s') -> I (S k) s') ->
  forall k s out s', I k s -> for_enum_from k l s body = (out, Ok s') ->
                     I (k + length l) s'.
Proof.
  intros Hb. induction l as [|a l IH]; intros k s out s' Hs; cbn [for_enum_from length].
  - intros [= _ <-]. rewrite Nat.add_0_r. exact Hs.
  - intros Hr. apply bind_Ok_inv in Hr as (o1 & s1 & o2 & H1 & H2 & _).
    replace (k + S (length l)) with (S k + length l) by lia.
    eapply IH; [eapply Hb; [exact Hs|exact H1]|exact H2].
Qed.

Lemma map_m_Ok_length {A B} (f : A -> M B) (l : list A) out bs :
  map_m f l = (out, Ok bs) -> length bs = length l.
Proof.
  revert out bs. induction l as [|a l IH]; intros out bs; cbn [map_m].
  - intros [= _ <-]. reflexivity.
  - intros Hr. apply bind_Ok_inv in Hr as (o1 & b & o2 & H1 & H2 & _).
    apply bind_Ok_inv in H2 as (o3 & bs' & o4 & H3 & H4 & _).
    injection H4 as _ <-. cbn. f_equal. eapply IH. exact H3.
Qed.

(** ** [linear_ex] *)

Section LinearExMore.
Import B64 LinearEx Terms.

(** X1. An empty query never returns: [x.min()] of an empty array is a
    [ValueError], unless one of the checks before it has already failed.
    Nothing is printed. *)
Theorem linear_ex_empty_query x0 I0 dim mode :
  printed (linear_ex x0 I0 (QVec []) dim mode) = []
  /\ (result (linear_ex x0 I0 (QVec []) dim mode) = Raise AssertionError
      \/ result (linear_ex x0 I0 (QVec []) dim mode) = Raise AxisError
      \/ result (linear_ex x0 I0 (QVec []) dim mode) = Raise ValueError).
Proof.
  split; [apply silent_linear_ex|].
  unfold linear_ex, py_assert, swapaxes0.
  destruct (_ || _); [|left; reflexivity]. rewrite bind_ret_l.
  cbn [ndim atleast_1d].
  destruct dim as [d|].
  - rewrite bind_ret_l.
    destruct (_ && _); [|right; left; reflexivity]. rewrite bind_ret_l.
    destruct (existsb _ _); right; right; reflexivity.
  - destruct (_ =? _)%nat; [|left; reflexivity]. rewrite !bind_ret_l.
    cbn [Z.leb Z.compare andb]. rewrite bind_ret_l.
    destruct (existsb _ _); right; right; reflexivity.
Qed.

Lemma digitize_length x bins out i :
  digitize x bins = (out, Ok i) -> length i = length x.
Proof.
  unfold digitize. destruct (_ =? 0)%Z; [discriminate|].
  destruct (_ =? -1)%Z; intros [= _ <-]; apply length_map.
Qed.

Lemma swapaxes0_Ok {A} (a : A) dim out b :
  swapaxes0 a dim = (out, Ok b) -> b = a.
Proof. unfold swapaxes0. destruct (_ && _); [intros [= _ <-]; reflexivity | discriminate]. Qed.

(** X2. For one-dimensional data [I0], which is what [values] holds:
    when a call returns, the answer has the form of the query, a number
    for a scalar query, and for a one-dimensional query a
    one-dimensional array with one value per entry. *)
Theorem linear_ex_answer_form x0 I0 x dim mode out a :
  linear_ex x0 I0 x dim mode = (out, Ok a) ->
  match x with
  | QScalar _ => exists v, a = AScalar v
  | QVec l => exists r, a = AVec r /\ length r = length l
  end.
Proof.
  unfold linear_ex. intros Hr.
  apply bind_Ok_inv in Hr as (? & ? & ? & _ & Hr & _).
  apply bind_Ok_inv in Hr as (? & d & ? & _ & Hr & _).
  apply bind_Ok_inv in Hr as (? & I0' & ? & _ & Hr & _).
  destruct (if existsb _ _ then _ else _) as [x0' I0''].
  apply bind_Ok_inv in Hr as (? & xmin & ? & _ & Hr & _).
  apply bind_Ok_inv in Hr as (? & first & ? & _ & Hr & _).
  apply bind_Ok_inv in Hr as (? & [xlo Ilo] & ? & _ & Hr & _).
  apply bind_Ok_inv in Hr as (? & xmax & ? & _ & Hr & _).
  apply bind_Ok_inv in Hr as (? & last & ? & _ & Hr & _).
  apply bind_Ok_inv in Hr as (? & [xhi Ihi] & ? & _ & Hr & _).
  apply bind_Ok_inv in Hr as (? & i & ? & Hi & Hr & _).
  apply bind_Ok_inv in Hr as (? & I & ? & HI & Hr & _).
  apply digitize_length in Hi. apply map_m_Ok_length in HI.
  rewrite length_combine, Hi, Nat.min_id in HI.
  destruct x as [v|l]; cbn [ndim atleast_1d] in *.
  - apply bind_Ok_inv in Hr as (? & w & ? & _ & Hr & _).
    injection Hr as _ <-. eauto.
  - apply bind_Ok_inv in Hr as (? & I' & ? & Hs & Hr & _).
    injection Hr as _ <-. apply swapaxes0_Ok in Hs as ->. eauto.
Qed.

Lemma linear_ex_answer_form_witness :
  exists r, AVec [-10; 5; 30]%float = AVec r /\ length r = 3.
Proof.
  exact (linear_ex_answer_form [0; 1; 2]%float (IntArr [0; 10; 20]%Z)
           (QVec [-1; 0.5; 3]%float) None "last_slope" [] _ eq_refl).
Defined.

(** *** A NaN among the sample coordinates *)

Lemma is_nan_SF (a : float) : PrimFloat.is_nan a = true -> Prim2SF a = S754_nan.
Proof.
  unfold PrimFloat.is_nan. rewrite FloatAxioms.eqb_spec.
  destruct (Prim2SF a) as [[]|[]| |[] m e]; cbn;
    try discriminate; try reflexivity;
    rewrite ?Z.compare_refl, ?Pos.compare_cont_refl, ?Pos.compare_refl; cbn;
    discriminate.
Qed.

Lemma SF_is_nan (a : float) : Prim2SF a = S754_nan -> PrimFloat.is_nan a = true.
Proof.
  intros H. unfold PrimFloat.is_nan. rewrite FloatAxioms.eqb_spec, H. reflexivity.
Qed.

Lemma sub_nan_l (a b : float) :
  PrimFloat.is_nan a = true -> PrimFloat.is_nan (a - b) = true.
Proof.
  intros H. apply SF_is_nan. rewrite FloatAxioms.sub_spec, (is_nan_SF a H).
  reflexivity.
Qed.

Lemma sub_nan_r (a b : float) :
  PrimFloat.is_nan b = true -> PrimFloat.is_nan (a - b) = true.
Proof.
  intros H. apply SF_is_nan. rewrite FloatAxioms.sub_spec, (is_nan_SF b H).
  destruct (Prim2SF a); reflexivity.
Qed.

Lemma leb_nan_l (d x : float) : PrimFloat.is_nan d = true -> (d <=? x)%float = false.
Proof.
  intros H. rewrite FloatAxioms.leb_spec, (is_nan_SF d H). reflexivity.
Qed.

Lemma leb_nan_r (d x : float) : PrimFloat.is_nan d = true -> (x <=? d)%float = false.
Proof.
  intros H. rewrite FloatAxioms.leb_spec, (is_nan_SF d H).
  destruct (Prim2SF x); reflexivity.
Qed.

(** A list of at least two coordinates with a NaN in it has a NaN among
    its differences. *)
Lemma diff_nan (x0 : list float) a :
  In a x0 -> PrimFloat.is_nan a = true -> 2 <= length x0 ->
  exists d, In d (diff x0) /\ PrimFloat.is_nan d = true.
Proof.
  destruct x0 as [|p t]; [intros []|]. unfold diff.
  revert p. induction t as [|q t IH]; intros p Hin Ha Hlen.
  - cbn in Hlen. lia.
  - cbn [combine List.map fst snd]. destruct Hin as [<- | [<- | Hin]].
    + exists (q - p)%float. split; [left; reflexivity | apply sub_nan_r; exact Ha].
    + exists (q - p)%float. split; [left; reflexivity | apply sub_nan_l; exact Ha].
    + destruct t as [|r t]; [destruct Hin|].
      destruct (IH q (or_intror Hin) Ha) as (d & Hd & Hn); [cbn; lia|].
      exists d. split; [right; exact Hd | exact Hn].
Qed.

(** X3. Sample coordinates with a NaN among them (and at least two of them)
    are refused as unsorted, whatever the data and the query. *)
Theorem linear_ex_nan_coordinate x0 a I0 x dim mode :
  In a x0 -> PrimFloat.is_nan a = true -> 2 <= length x0 ->
  linear_ex x0 I0 x dim mode = raise AssertionError.
Proof.
  intros Hin Ha Hlen. destruct (diff_nan x0 a Hin Ha Hlen) as (d & Hd & Hn).
  unfold linear_ex.
  assert (H1 : forallb (fun d => (0 <=? d)%float) (diff x0) = false).
  { apply not_true_is_false. intros H. rewrite forallb_forall in H.
    specialize (H d Hd). cbv beta in H. rewrite leb_nan_r in H by exact Hn.
    discriminate. }
  assert (H2 : forallb (fun d => (d <=? 0)%float) (diff x0) = false).
  { apply not_true_is_false. intros H. rewrite forallb_forall in H.
    specialize (H d Hd). cbv beta in H. rewrite leb_nan_l in H by exact Hn.
    discriminate. }
  rewrite H1, H2. reflexivity.
Qed.

Lemma linear_ex_nan_coordinate_witness :
  linear_ex [0; nan; 2]%float (FltArr [0; 10; 20]%float) (QScalar 1%float)
            None "last_slope"
  = raise AssertionError.
Proof.
  apply (linear_ex_nan_coordinate [0; nan; 2]%float nan).
  - right; left; reflexivity.
  - reflexivity.
  - cbn; lia.
Defined.

(** *** The mode *)

(** The mode is compared after [lower()]: two modes that differ in case
    only give the same result. *)
Theorem linear_ex_mode_case_insensitive x0 I0 x dim mode mode' :
  lower mode = lower mode' ->
  linear_ex x0 I0 x dim mode = linear_ex x0 I0 x dim mode'.
Proof.
  intros H. unfold linear_ex, pad_low, pad_high, is_last_slope. rewrite H.
  reflexivity.
Qed.

Lemma linear_ex_mode_case_insensitive_witness :
  linear_ex [0; 1; 2]%float (IntArr [0; 10; 20]%Z) (QVec [-1; 0.5; 3]%float)
            None "Last_SLOPE"
  = linear_ex [0; 1; 2]%float (IntArr [0; 10; 20]%Z) (QVec [-1; 0.5; 3]%float)
              None "last_slope".
Proof.
  apply linear_ex_mode_case_insensitive. reflexivity.
Defined.

(** X4. When every query lies strictly inside the range of the coordinates,
    neither padding block runs and the mode has no effect. *)
Theorem linear_ex_interior_mode_free x0 I0 x dim mode mode' xmin xmax first last :
  np_min (atleast_1d x) = ret xmin -> np_max (atleast_1d x) = ret xmax ->
  py_get (ascending x0) 0 = ret first -> py_get (ascending x0) (-1) = ret last ->
  (xmin <=? first)%float = false -> (last <=? xmax)%float = false ->
  linear_ex x0 I0 x dim mode = linear_ex x0 I0 x dim mode'.
Proof.
  intros Hmin Hmax Hf Hl Hlo Hhi. unfold linear_ex, ascending in *.
  apply bind_ext; intros _. apply bind_ext; intros d. apply bind_ext; intros I0'.
  destruct (existsb _ _);
    rewrite Hmin, !bind_ret_l, Hf, !bind_ret_l, Hlo, !bind_ret_l; cbv beta iota;
    rewrite Hmax, !bind_ret_l, Hl, !bind_ret_l, Hhi; reflexivity.
Qed.

Lemma linear_ex_interior_mode_free_witness :
  linear_ex [2; 1; 0]%float (IntArr [20; 10; 0]%Z) (QVec [0.5; 1.5]%float)
            None "last_slope"
  = linear_ex [2; 1; 0]%float (IntArr [20; 10; 0]%Z) (QVec [0.5; 1.5]%float)
              None "last_value".
Proof.
  apply (linear_ex_interior_mode_free _ _ _ _ _ _ 0.5%float 1.5%float 0%float 2%float);
    reflexivity.
Defined.

(** A difference that is not below zero is not negative. *)
Lemma leb_0_not_ltb_0 (d : float) : (0 <=? d)%float = true -> (d <? 0)%float = false.
Proof.
  rewrite FloatAxioms.leb_spec, FloatAxioms.ltb_spec.
  change (Prim2SF 0) with (S754_zero false).
  destruct (Prim2SF d) as [s|s| |s m e]; try destruct s; cbn; congruence.
Qed.

Lemma ascending_no_descent (l : list float) :
  forallb (fun d => (0 <=? d)%float) l = true ->
  existsb (fun d => (d <? 0)%float) l = false.
Proof.
  induction l as [|d l IH]; [reflexivity|]. cbn [forallb existsb].
  intros H. apply andb_true_iff in H as [Hd Hl].
  rewrite (leb_0_not_ltb_0 d Hd), (IH Hl). reflexivity.
Qed.

(** X5. Coordinates in descending order are reversed together with the
    data. [x0] is in ascending order (no difference is below zero), and
    its reversal is in descending order (no difference is above zero)
    with one difference at least that is negative, so that [x0] is not
    constant. Then the call on the reversed coordinates and the reversed
    data gives what the call on [x0] and [I0] gives. (For a constant
    [x0] nothing is reversed, and the two calls can differ.) *)
Theorem linear_ex_reversed x0 I0 x dim mode :
  forallb (fun d => (0 <=? d)%float) (diff x0) = true ->
  forallb (fun d => (d <=? 0)%float) (diff (rev x0)) = true ->
  existsb (fun d => (d <? 0)%float) (diff (rev x0)) = true ->
  linear_ex (rev x0) (values_rev I0) x dim mode = linear_ex x0 I0 x dim mode.
Proof.
  intros Hs Hs' Hdesc. pose proof (ascending_no_descent _ Hs) as Hasc.
  unfold linear_ex.
  rewrite Hasc, Hdesc, Hs, Hs', orb_true_r. cbn [orb py_assert]. rewrite !bind_ret_l.
  rewrite rev_involutive, length_rev.
  assert (Hlen : values_len (values_rev I0) = values_len I0)
    by (destruct I0; cbn; apply length_rev).
  assert (Hrev : values_rev (values_rev I0) = I0)
    by (destruct I0; cbn; rewrite rev_involutive; reflexivity).
  rewrite Hlen.
  destruct dim as [d|].
  - rewrite !bind_ret_l. unfold swapaxes0. destruct (_ && _); [|reflexivity].
    rewrite !bind_ret_l, Hrev. reflexivity.
  - destruct (_ =? _)%nat; [|reflexivity]. cbn [py_assert]. rewrite !bind_ret_l.
    unfold swapaxes0. cbn [Z.leb Z.compare andb]. rewrite !bind_ret_l, Hrev.
    reflexivity.
Qed.

Lemma linear_ex_reversed_witness :
  linear_ex (rev [0; 1; 2]%float) (values_rev (IntArr [0; 10; 20]%Z))
            (QVec [-1; 0.5; 3]%float) None "last_slope"
  = linear_ex [0; 1; 2]%float (IntArr [0; 10; 20]%Z) (QVec [-1; 0.5; 3]%float)
              None "last_slope".
Proof.
  apply linear_ex_reversed; reflexivity.
Defined.

End LinearExMore.

(** ** [sens_sign_check] *)

Section SignMore.
Import DR Spec.
Context {F : Type} {SF : Scalar F}.
Implicit Types (d : response_set F).

Lemma ones_loop nd (l : list (pyobj F)) :
  forall k (acc : list (Nd.ndarray F)),
    for_enum_from k l acc
      (fun sign k o => let! s := candidate_sign None nd k o in
                       ret (sign ++ [nan_to_one s]))
    = ret (acc ++ repeat (Nd.ones nd) (length l)).
Proof.
  induction l as [|o l IH]; intros k acc; cbn [for_enum_from length repeat].
  - rewrite app_nil_r. reflexivity.
  - cbn [candidate_sign]. rewrite !bind_ret_l, nan_to_one_ones, IH, <- app_assoc.
    reflexivity.
Qed.

(** X6. Without a profile in the reference nothing is compared: every input
    gets the sign vector [np.ones(nd)], whatever it is (its own profile
    is not even read), and nothing is printed. *)
Theorem sens_sign_check_without_reference d R0 nd (data_in : list (pyobj F)) :
  sens d = None -> attrs d !! "R" = Some R0 -> Nd.shape_at R0 1 = ret nd ->
  sens_sign_check d data_in = ret (repeat (Nd.ones nd) (length data_in)).
Proof.
  intros Hs HR Hnd. unfold sens_sign_check, ref_profile, need, lift.
  rewrite Hs, bind_ret_l, HR, bind_ret_l, Hnd, bind_ret_l.
  apply (ones_loop nd data_in 0 []).
Qed.


Lemma sens_sign_check_length d (data_in : list (pyobj F)) out sgs :
  sens_sign_check d data_in = (out, Ok sgs) -> length sgs = length data_in.
Proof.
  unfold sens_sign_check. intros Hr.
  apply bind_Ok_inv in Hr as (? & ref & ? & _ & Hr & _).
  apply bind_Ok_inv in Hr as (? & R0 & ? & _ & Hr & _).
  apply bind_Ok_inv in Hr as (? & nd & ? & _ & Hr & _).
  unfold for_enum in Hr.
  apply (for_enum_from_Ok_inv (fun k (s : list (Nd.ndarray F)) => length s = k))
    in Hr; [exact Hr | | reflexivity].
  intros s k a o s' Hs Hb.
  apply bind_Ok_inv in Hb as (? & sg & ? & _ & Hb & _).
  injection Hb as _ <-. rewrite length_app, Hs. cbn. lia.
Qed.

(** X7. A call that returns gives one sign vector per input, and no
    entry of a sign vector is NaN ([sign[-1][np.isnan(sign[-1])]=1] ends
    every round); this needs that the number 1 is not NaN, as it is in
    both instances. *)
Theorem sens_sign_check_one_per_input d (data_in : list (pyobj F)) out sgs :
  is_nan (one : F) = false ->
  sens_sign_check d data_in = (out, Ok sgs) ->
  length sgs = length data_in
  /\ Forall (fun s => Forall (fun v => is_nan v = false) (Nd.data s)) sgs.
Proof.
  unfold sens_sign_check. intros H1 Hr.
  apply bind_Ok_inv in Hr as (? & ref & ? & _ & Hr & _).
  apply bind_Ok_inv in Hr as (? & R0 & ? & _ & Hr & _).
  apply bind_Ok_inv in Hr as (? & nd & ? & _ & Hr & _).
  unfold for_enum in Hr.
  apply (for_enum_from_Ok_inv
           (fun k (s : list (Nd.ndarray F)) =>
              length s = k
              /\ Forall (fun s => Forall (fun v => is_nan v = false) (Nd.data s)) s))
    in Hr; [exact Hr | | split; [reflexivity|constructor]].
  intros s k a o s' [Hs HF] Hb.
  apply bind_Ok_inv in Hb as (? & sg & ? & _ & Hb & _).
  injection Hb as _ <-. split; [rewrite length_app, Hs; cbn; lia|].
  apply Forall_app_2; [exact HF|]. constructor; [|constructor].
  unfold nan_to_one, Nd.map. cbn [Nd.data].
  induction (Nd.data sg) as [|v0 vs IH]; cbn [List.map]; constructor; [|exact IH].
  destruct (is_nan v0) eqn:E; [exact H1|exact E].
Qed.


(** X8. The reference needs a response matrix: without 'R' the call raises
    an [AttributeError], and with an 'R' of fewer than two axes an
    [IndexError] (here for a reference without profile, so that nothing
    fails before [data0.R.shape[1]] is read). *)
Theorem sens_sign_check_needs_matrix d (data_in : list (pyobj F)) :
  sens d = None ->
  (attrs d !! "R" = None -> sens_sign_check d data_in = raise AttributeError)
  /\ (forall R0, attrs d !! "R" = Some R0 -> length (Nd.shape R0) < 2 ->
                 sens_sign_check d data_in = raise IndexError).
Proof.
  intros Hs. unfold sens_sign_check, ref_profile, need, lift.
  rewrite Hs, bind_ret_l. split.
  - intros ->. reflexivity.
  - intros R0 -> Hlen. rewrite bind_ret_l.
    assert (HI : Nd.shape_at R0 1 = raise IndexError).
    { unfold Nd.shape_at. destruct (Nd.shape R0) as [|n [|m t]]; cbn in Hlen;
        [reflexivity | reflexivity | lia]. }
    rewrite HI. reflexivity.
Qed.


End SignMore.

Section SignMoreWitness.
Import DR Spec.

Lemma sens_sign_check_without_reference_witness :
  sens_sign_check setA [Data setB; Other None None None]
  = ret (repeat (Nd.ones 2) 2).
Proof.
  apply (sens_sign_check_without_reference setA (mat 2 2 [1; 2; 3; 4]%float));
    reflexivity.
Defined.

Lemma sens_sign_check_one_per_input_witness :
  length (repeat (Nd.ones (F := float) 2) 2) = 2
  /\ Forall (fun s => Forall (fun v => is_nan v = false) (Nd.data s))
            (repeat (Nd.ones (F := float) 2) 2).
Proof.
  exact (sens_sign_check_one_per_input setA [Data setB; Other None None None] [] _
           eq_refl eq_refl).
Defined.

Lemma sens_sign_check_needs_matrix_witness :
  sens_sign_check (mk_data (<["R" := Nd.vector [1; 2]%float]> ∅) None None) []
  = raise IndexError.
Proof.
  refine (proj2 (sens_sign_check_needs_matrix
                   (mk_data (<["R" := Nd.vector [1; 2]%float]> ∅) None None) []
                   eq_refl) (Nd.vector [1; 2]%float) eq_refl _).
  cbn. lia.
Defined.

End SignMoreWitness.

(** ** [avg_data] *)

Section AvgMore.
Import DR Spec.
Context {F : Type} {SF : Scalar F}.
Implicit Types (d : response_set F).

Lemma py_get_nil {A} (i : Z) : py_get (@nil A) i = raise IndexError.
Proof.
  unfold py_get, py_index. cbn [length]. change (Z.of_nat 0) with 0%Z.
  destruct (0 <=? i)%Z eqn:E.
  - destruct (i <? 0)%Z eqn:E'; [lia | reflexivity].
  - destruct (- 0 <=? i)%Z eqn:E'; [lia | reflexivity].
Qed.

(** The template is the clone of the first input, which has to be a
    Response Set: of an empty list, and of an object without [copy] and
    without [sens], [clone_first] raises. *)
Lemma clone_first_Ok (l : list (pyobj F)) out data :
  clone_first l = (out, Ok data) ->
  exists rest, l = Data data :: rest.
Proof.
  destruct l as [|[d0|r s lb] rest]; unfold clone_first.
  - rewrite py_get_nil. discriminate.
  - rewrite py_get_first, bind_ret_l. cbn. intros [= _ <-]. eauto.
  - rewrite py_get_first, bind_ret_l. cbn. discriminate.
Qed.

(** The Response Set that a call returns is the first input with four
    attributes assigned. *)
Lemma avg_data_Ok_form (l : list (pyobj F)) weighted weight r_no_opt out res :
  avg_data (AsList l) weighted weight r_no_opt = (out, Ok res) ->
  exists d0 rest r s,
    l = Data d0 :: rest
    /\ res = setattr (setattr (setattr (setattr d0 "R" (Some r)) "R_std" (Some s))
                              "R_u" None) "R_l" None
    /\ (r_no_opt = false ->
        exists R0, attrs d0 !! "R" = Some R0
                   /\ Nd.shape r = Nd.shape R0 /\ Nd.shape s = Nd.shape R0).
Proof.
  unfold avg_data. intros Hr.
  apply bind_Ok_inv in Hr as (? & data & ? & Hc & Hr & _).
  apply clone_first_Ok in Hc as (rest & ->).
  apply bind_Ok_inv in Hr as (? & [[R Rvar] SZ] & ? & HSZ & Hr & _).
  apply bind_Ok_inv in Hr as (? & wt & ? & _ & Hr & _).
  apply bind_Ok_inv in Hr as (? & [R' Rvar'] & ? & _ & Hr & _).
  apply bind_Ok_inv in Hr as (? & data' & ? & Hd & Hr & _).
  injection Hr as _ <-.
  destruct r_no_opt.
  - apply bind_Ok_inv in HSZ as (? & [R1 R2] & ? & _ & HSZ & _).
    injection HSZ as _ <- <- <-. injection Hd as _ <-.
    eexists _, _, _, _. split; [reflexivity|]. split; [reflexivity | discriminate].
  - apply bind_Ok_inv in HSZ as (? & R0 & ? & HR0 & HSZ & _).
    apply bind_Ok_inv in HSZ as (? & sign & ? & _ & HSZ & _).
    apply bind_Ok_inv in HSZ as (? & [R1 R2] & ? & _ & HSZ & _).
    apply bind_Ok_inv in HSZ as (? & R3 & ? & _ & HSZ & _).
    apply bind_Ok_inv in HSZ as (? & R4 & ? & _ & HSZ & _).
    injection HSZ as _ <- <- <-.
    apply bind_Ok_inv in Hd as (? & Rr & ? & HRr & Hd & _).
    apply bind_Ok_inv in Hd as (? & Rv & ? & HRv & Hd & _).
    injection Hd as _ <-.
    eexists _, _, _, _. split; [reflexivity|]. split; [reflexivity|]. intros _.
    unfold need, lift in HR0. destruct (attrs data !! "R") as [R0'|] eqn:E;
      [|discriminate]. injection HR0 as _ <-.
    exists R0'. split; [reflexivity|].
    unfold Nd.reshape in HRr, HRv.
    destruct (_ =? _)%nat in HRr; [|discriminate]. injection HRr as _ <-.
    destruct (_ =? _)%nat in HRv; [|discriminate]. injection HRv as _ <-.
    split; reflexivity.
Qed.


(** X10. Without [r_no_opt] the averaged 'R' and 'R_std' have the shape of
    the 'R' of the first input. *)
Theorem avg_data_result_shape (l : list (pyobj F)) weighted weight out res :
  avg_data (AsList l) weighted weight false = (out, Ok res) ->
  exists d0 rest R0 r s,
    l = Data d0 :: rest /\ attrs d0 !! "R" = Some R0
    /\ attrs res !! "R" = Some r /\ Nd.shape r = Nd.shape R0
    /\ attrs res !! "R_std" = Some s /\ Nd.shape s = Nd.shape R0.
Proof.
  intros Hr. apply avg_data_Ok_form in Hr as (d0 & rest & r & s & -> & -> & Hsh).
  destruct (Hsh eq_refl) as (R0 & HR0 & Hr & Hs).
  exists d0, rest, R0, r, s. cbn [setattr attrs].
  repeat split; try assumption.
  - rewrite !lookup_delete_ne, lookup_insert_ne by discriminate.
    apply lookup_insert_eq.
  - rewrite !lookup_delete_ne by discriminate. apply lookup_insert_eq.
Qed.

(** X11. [r_no_opt=True] needs the profile of the first input: without it
    the call ends in an [AttributeError]. (What is printed before
    depends on the clone: nothing when it succeeds.) *)
Theorem avg_data_r_no_opt_needs_profile d (rest : list (pyobj F)) weighted weight :
  sens d = None ->
  result (avg_data (AsList (Data d :: rest)) weighted weight true)
  = Raise AttributeError.
Proof.
  intros Hs. unfold avg_data. rewrite clone_first_data, bind_ret_l.
  unfold corr_SVD_switching. rewrite Hs. reflexivity.
Qed.

(** X12. A collection without a usable entry: the empty list, the empty
    dict, and a dict none of whose values has all of 'R', 'R_std' and
    'label'. [avg_data] and [append_data] raise an [IndexError] (from
    [data_in[0]]) and print nothing, not even the deep-copy warning. *)
Theorem no_usable_entry_is_index_error (items : list (string * pyobj F)) :
  List.filter (fun kv => kept (snd kv)) items = [] ->
  (forall weighted weight r_no_opt,
      avg_data (AsDict items) weighted weight r_no_opt = raise IndexError
      /\ avg_data (AsList []) weighted weight r_no_opt = raise IndexError)
  /\ (forall labels index,
         append_data (AsDict items) labels index = raise IndexError
         /\ append_data (AsList (F := F) []) labels index = raise IndexError).
Proof.
  intros Hf.
  assert (Hd : dict2list items = ([], [])) by (rewrite dict2list_filter, Hf; reflexivity).
  split.
  - intros. unfold avg_data. rewrite Hd. cbn [fst].
    unfold clone_first. rewrite py_get_nil. split; reflexivity.
  - intros. unfold append_data. rewrite Hd. rewrite py_get_nil. split; reflexivity.
Qed.

End AvgMore.

Section AvgMoreWitness.
Import DR Spec.


Lemma avg_data_result_shape_witness :
  exists out res,
    avg_data (AsList [Data setA; Data setC]) false None false = (out, Ok res)
    /\ exists d0 rest R0 r s,
        [Data setA; Data setC] = Data d0 :: rest /\ attrs d0 !! "R" = Some R0
        /\ attrs res !! "R" = Some r /\ Nd.shape r = Nd.shape R0
        /\ attrs res !! "R_std" = Some s /\ Nd.shape s = Nd.shape R0.
Proof.
  eexists _, _. split; [vm_compute; reflexivity|].
  apply (avg_data_result_shape [Data setA; Data setC] false None []).
  vm_compute. reflexivity.
Defined.

Lemma avg_data_r_no_opt_needs_profile_witness :
  result (avg_data (AsList [Data setA; Data setB]) true None true)
  = Raise AttributeError.
Proof.
  apply (avg_data_r_no_opt_needs_profile setA [Data setB] true None). reflexivity.
Defined.

Lemma no_usable_entry_is_index_error_witness :
  (forall weighted weight r_no_opt,
      avg_data (AsDict [("a"%string, Other (F := float) None None None)])
               weighted weight r_no_opt = raise IndexError
      /\ avg_data (AsList []) weighted weight r_no_opt = raise IndexError)
  /\ (forall labels index,
         append_data (AsDict [("a"%string, Other (F := float) None None None)])
                     labels index = raise IndexError
         /\ append_data (AsList (F := float) []) labels index = raise IndexError).
Proof.
  apply (no_usable_entry_is_index_error (SF := b64)
           [("a"%string, Other (F := float) None None None)]).
  reflexivity.
Defined.

End AvgMoreWitness.

(** ** [avg_data]: inputs of different sizes *)

Section AvgSizes.
Import DR Spec.
Context {F : Type} {SF : Scalar F}.

Lemma zip_ones_shape (f : F -> F -> F) nd (a : Nd.ndarray F) n :
  Nd.shape a = [n; nd] ->
  exists r, Nd.zip_with f (Nd.ones nd) a = ret r /\ Nd.shape r = [n; nd].
Proof.
  intros Ha. unfold Nd.zip_with, Nd.ndim. rewrite Ha. cbn [Nd.ones Nd.shape length Nat.max].
  unfold Nd.pad_shape at 1 2. cbn [length Nat.sub repeat app].
  rewrite bshape_rows_l. eexists. split; reflexivity.
Qed.

Lemma flatten_step_run SZ (acc : list (Nd.ndarray F) * list (Nd.ndarray F)) k
      (d : response_set F) dR dS n nd :
  attrs d !! "R"%string = Some dR -> Nd.shape dR = [n; nd] ->
  attrs d !! "R_std"%string = Some dS ->
  exists x,
    Nd.shape x = [n; nd]
    /\ flatten_step SZ acc k (Data d, Nd.ones nd)
       = (let! x := Nd.reshape [Nd.prod SZ] x in
          let! v := Nd.reshape [Nd.prod SZ] (Nd.map sq dS) in
          ret (fst acc ++ [x], snd acc ++ [v])).
Proof.
  intros HR Hsh HS. destruct acc as [R Rvar].
  destruct (zip_ones_shape Num.mul nd dR n Hsh) as (x & Hx & Hxs).
  exists x. split; [exact Hxs|].
  unfold flatten_step. cbn [getattr fst snd]. rewrite bind_ret_l, HR.
  unfold need, lift. rewrite bind_ret_l, Hx, bind_ret_l, bind_ret_l, HS, bind_ret_l.
  reflexivity.
Qed.

(** X13. Inputs whose response matrices differ in size are not averaged: the
    second input cannot be flattened to the size of the first, and the
    call raises a [ValueError]. *)
Theorem avg_data_size_mismatch (A B : response_set F) RA SA RB SB nA nB nd
        weighted weight :
  sens A = None ->
  attrs A !! "R"%string = Some RA -> Nd.shape RA = [nA; nd] ->
  attrs A !! "R_std"%string = Some SA -> Nd.shape SA = [nA; nd] ->
  attrs B !! "R"%string = Some RB -> Nd.shape RB = [nB; nd] ->
  attrs B !! "R_std"%string = Some SB ->
  nA * nd <> nB * nd ->
  avg_data (AsList [Data A; Data B]) weighted weight false = raise ValueError.
Proof.
  intros Hs HRA HshA HSA HshS HRB HshB HSB Hne.
  unfold avg_data. rewrite clone_first_data, bind_ret_l.
  rewrite HRA. unfold need at 1, lift at 1. rewrite bind_ret_l.
  assert (Hsign : forall l, sens_sign_check A l = ret (repeat (Nd.ones nd) (length l))).
  { intros l. unfold sens_sign_check, ref_profile, need, lift.
    rewrite Hs, bind_ret_l, HRA, bind_ret_l, (shape_at_1 _ _ _ HshA), bind_ret_l.
    apply (ones_loop nd l 0 []). }
  rewrite Hsign.
  rewrite bind_ret_l. cbn [length repeat].
  unfold flatten_inputs, for_enum. cbn [combine for_enum_from].
  destruct (flatten_step_run (Nd.shape RA) ([], []) 0 A RA SA nA nd HRA HshA HSA)
    as (xA & HxA & ->).
  unfold Nd.reshape at 1 2. unfold Nd.size. rewrite HxA. cbn [Nd.map Nd.shape].
  rewrite HshS, HshA.
  replace (Nd.prod [Nd.prod [nA; nd]] =? Nd.prod [nA; nd])%nat with true
    by (symmetry; apply Nat.eqb_eq; unfold Nd.prod; cbn [fold_right]; lia).
  rewrite !bind_ret_l.
  match goal with
  | |- context [flatten_step ?sz ?acc ?k (Data B, _)] =>
      destruct (flatten_step_run sz acc k B RB SB nB nd HRB HshB HSB)
        as (xB & HxB & ->)
  end.
  unfold Nd.reshape at 1. unfold Nd.size. rewrite HxB.
  replace (Nd.prod [Nd.prod [nA; nd]] =? Nd.prod [nB; nd])%nat with false.
  { reflexivity. }
  symmetry. apply Nat.eqb_neq. unfold Nd.prod. cbn [fold_right]. lia.
Qed.

End AvgSizes.

Section AvgSizesWitness.
Import DR Spec.

Lemma avg_data_size_mismatch_witness :
  avg_data (AsList [Data setA; Data setB]) true None false = raise ValueError.
Proof.
  apply (avg_data_size_mismatch setA setB
           (mat 2 2 [1; 2; 3; 4]%float) (mat 2 2 [1; 1; 1; 1]%float)
           (mat 1 2 [5; 6]%float) (mat 1 2 [1; 1]%float) 2 1 2);
    try reflexivity.
  cbn. lia.
Defined.

End AvgSizesWitness.

(** ** [append_data] of any number of inputs *)

Section AppendMore.
Import DR Spec Terms.
Context {F : Type} {SF : Scalar F}.
Implicit Types (d : response_set F) (R : gmap string (list (Nd.ndarray F))).

Lemma collected_all (ds : list (response_set F)) R f :
  f ∈ flds ->
  fold_left (fun R d => add_fields d flds R) ds R !!! f = R !!! f ++ present f ds.
Proof.
  intros Hf. revert R. induction ds as [|d ds IH]; intros R; cbn [fold_left].
  - unfold present. cbn. rewrite app_nil_r. reflexivity.
  - rewrite IH, add_fields_lookup by apply flds_NoDup.
    rewrite decide_True by exact Hf. rewrite <- app_assoc. f_equal.
    unfold present. cbn [omap list_omap]. destruct (attrs d !! f); reflexivity.
Qed.

Lemma flat_map_ext_elem {A B} (f g : A -> list B) (l : list A) :
  (forall x, x ∈ l -> f x = g x) -> flat_map f l = flat_map g l.
Proof.
  induction l as [|a l IH]; intros H; [reflexivity|]. cbn [flat_map].
  rewrite (H a), IH; [reflexivity | | left].
  intros x Hx. apply H. right. exact Hx.
Qed.

Lemma collect_loop (ds : list (response_set F)) :
  forall (signs : list (Nd.ndarray F)) k R lbls,
    length signs = length ds ->
    for_enum_from k (combine (List.map Data ds) signs) (R, lbls)
      (fun '(R, label) k '(d, s) =>
         let! R :=
           for_each flds R
             (fun R f =>
                let! x := getattr d f in
                match x with
                | Some x => ret (<[f := (R !!! f) ++ [x]]> R)
                | None => ret R
                end) in
         let! l := input_label LNone k d in
         ret (R, label ++ [l]))
    = ret (fold_left (fun R d => add_fields d flds R) ds R,
           lbls ++ List.map label ds).
Proof.
  induction ds as [|d ds IH]; intros [|s signs] k R lbls Hlen; try discriminate.
  - cbn. rewrite app_nil_r. reflexivity.
  - cbn [List.map combine for_enum_from fold_left].
    rewrite collect_fields_run, bind_ret_l. cbn [input_label get_label].
    rewrite !bind_ret_l, IH by (cbn in Hlen; lia).
    rewrite <- app_assoc. reflexivity.
Qed.

Lemma concat_labels_Ok (ls : list (option (list string))) out l :
  concat_labels ls = (out, Ok l) ->
  exists lss, ls = List.map Some lss /\ l = concat lss.
Proof.
  unfold concat_labels. destruct ls as [|x ls]; [discriminate|].
  intros Hr. apply bind_Ok_inv in Hr as (? & lss & ? & Hm & Hr & _).
  injection Hr as _ <-. exists lss. split; [|reflexivity].
  clear -Hm. revert lss x0 Hm. generalize (x :: ls). clear.
  intros l. induction l as [|a l IH]; intros lss o; cbn [map_m].
  - intros [= _ <-]. reflexivity.
  - intros Hr. apply bind_Ok_inv in Hr as (? & b & ? & Hb & Hr & _).
    apply bind_Ok_inv in Hr as (? & bs & ? & Hbs & Hr & _).
    injection Hr as _ <-. destruct a as [a|]; [|discriminate].
    injection Hb as _ <-. cbn. f_equal. eapply IH. exact Hbs.
Qed.

(** The concatenation loop: what it prints and what it leaves. *)
Lemma concat_fields_out R (fs : list string) d :
  NoDup fs ->
  exists d',
    for_each fs d
      (fun data f =>
         if negb (length (R !!! f) =? 0)%nat then
           try_except
             (let! c := Nd.concatenate (R !!! f) in ret (setattr data f (Some c)))
             (do! print (WarnOmitted f) in ret data)
         else ret data)
    = (flat_map (fun f => omitted f (R !!! f)) fs, Ok d')
    /\ label d' = label d /\ sens d' = sens d
    /\ (forall f, attrs d' !! f
                  = if decide (f ∈ fs) then concat_field (R !!! f) (attrs d !! f)
                    else attrs d !! f).
Proof.
  intros Hnd. destruct (concat_fields_run R fs d Hnd) as (out & d' & Hrun & Hrest).
  exists d'. split; [|exact Hrest]. rewrite Hrun. f_equal.
  clear Hrest Hnd. revert d out d' Hrun.
  induction fs as [|g fs IH]; intros d out d'; cbn [for_each flat_map].
  - intros [= <- _]. reflexivity.
  - intros Hr. apply bind_Ok_inv in Hr as (o1 & d1 & o2 & H1 & H2 & ->).
    rewrite (IH _ _ _ H2). f_equal. clear -H1. unfold omitted.
    destruct (R !!! g) as [|a l]; cbn [length Nat.eqb negb] in H1.
    + injection H1 as <- _. reflexivity.
    + pose proof (silent_concatenate (a :: l)) as Hs. unfold silent, printed in Hs.
      unfold result.
      destruct (Nd.concatenate (a :: l)) as [o [c|e]]; cbn in Hs, H1 |- *; subst o.
      * injection H1 as <- _. reflexivity.
      * injection H1 as <- _. reflexivity.
Qed.

(** X14. [append_data] of a list of Response Sets, when it returns. The
    result has the profile of the first input and the labels of all
    inputs in order. An attribute of [flds] is the concatenation of the
    values the inputs have for it; when they cannot be concatenated the
    warning is printed and the attribute is the one of the first input.
    Every other attribute is the one of the first input. The warnings
    of omission follow what [sens_sign_check] printed, in the order of
    [flds]. *)
Theorem append_data_result (A : response_set F) (rest : list (response_set F)) out res :
  append_data (AsList (List.map Data (A :: rest))) LNone None = (out, Ok res) ->
  sens res = sens A
  /\ (exists lss, List.map label (A :: rest) = List.map Some lss
                  /\ label res = Some (concat lss))
  /\ (forall f, attrs res !! f
                = if decide (f ∈ flds)
                  then concat_field (present f (A :: rest)) (attrs A !! f)
                  else attrs A !! f)
  /\ out = printed (sens_sign_check A (List.map Data (A :: rest)))
           ++ flat_map (fun f => omitted f (present f (A :: rest))) flds.
Proof.
  unfold append_data. cbn [List.map]. rewrite py_get_first, bind_ret_l. cbn [copy].
  rewrite bind_ret_l. intros Hr.
  apply bind_Ok_inv in Hr as (o1 & signs & o2 & Hsign & Hr & ->).
  pose proof (sens_sign_check_length _ _ _ _ Hsign) as Hlen.
  unfold collect, for_enum in Hr.
  change (Data A :: List.map Data rest) with (List.map Data (A :: rest)) in *.
  rewrite length_map in Hlen.
  rewrite (collect_loop (A :: rest) signs 0 _ [] Hlen), bind_ret_l in Hr.
  set (R0 := fold_left (fun R f => <[f := []]> R) flds ∅) in Hr.
  set (R := fold_left (fun R d => add_fields d flds R) (A :: rest) R0) in Hr.
  assert (HR : forall f, f ∈ flds -> R !!! f = present f (A :: rest)).
  { intros f Hf. unfold R. rewrite collected_all by exact Hf.
    unfold R0. rewrite empty_lists_lookup; [reflexivity|].
    rewrite lookup_total_empty. reflexivity. }
  unfold concat_fields in Hr.
  destruct (concat_fields_out R flds A flds_NoDup) as (d' & Hcat & Hl' & Hs' & Hf').
  remember (flat_map (fun f => omitted f (R !!! f)) flds) as W eqn:HW in Hcat.
  apply bind_Ok_inv in Hr as (o3 & d'' & o4 & Hcat' & Hr & ->).
  rewrite Hcat in Hcat'. injection Hcat' as <- <-.
  apply bind_Ok_inv in Hr as (o5 & l & o6 & El & Hr & ->).
  injection Hr as <- <-.
  assert (Ho5 : o5 = []).
  { pose proof (f_equal fst El) as E. cbn [fst] in E. rewrite <- E.
    unfold concat_labels. destruct (_ ++ _); [reflexivity|].
    apply silent_bind; [apply silent_map_m; intros; apply silent_lift|].
    intros; apply silent_ret. }
  subst o5.
  apply concat_labels_Ok in El as (lss & Hlss & ->).
  cbn [set_label sens label attrs].
  split; [exact Hs'|]. split; [exists lss; split; [exact Hlss | reflexivity]|].
  split.
  - intros f. rewrite Hf'. destruct (decide (f ∈ flds)) as [Hf|Hf]; [|reflexivity].
    rewrite HR by exact Hf. reflexivity.
  - rewrite Hsign. cbn [printed fst]. rewrite !app_nil_r. f_equal.
    rewrite HW. apply flat_map_ext_elem. intros f Hf. rewrite (HR f Hf). reflexivity.
Qed.

(** *** Label prefixes *)

Lemma py_get_nat_Ok {A} (l : list A) (k : nat) (dflt : A) out a :
  py_get l (Z.of_nat k) = (out, Ok a) -> nth k l dflt = a.
Proof.
  unfold py_get, py_index.
  replace (0 <=? Z.of_nat k)%Z with true by (symmetry; apply Z.leb_le; lia).
  destruct (Z.of_nat k <? Z.of_nat (length l))%Z; [|discriminate].
  rewrite Nat2Z.id. unfold lift.
  destruct (nth_error l k) as [b|] eqn:E; [|discriminate].
  intros [= _ <-]. apply nth_error_nth. exact E.
Qed.

Lemma input_label_list_Ok (ps : list string) k d out x :
  input_label (LList ps) k (Data d) = (out, Ok x) ->
  exists ls, label d = Some ls /\ x = Some (prefixed ps k ls).
Proof.
  unfold input_label. cbn [get_label]. rewrite bind_ret_l. intros Hr.
  apply bind_Ok_inv in Hr as (? & ls & ? & Hl & Hr & _).
  apply bind_Ok_inv in Hr as (om & new & ? & Hm & Hr & _).
  injection Hr as _ <-.
  destruct (label d) as [ls'|]; [|discriminate]. injection Hl as _ <-.
  exists ls'. split; [reflexivity|]. f_equal. unfold prefixed.
  clear -Hm. revert new om Hm. induction ls' as [|l ls IH]; intros new o; cbn [map_m].
  - intros [= _ <-]. reflexivity.
  - intros Hr. apply bind_Ok_inv in Hr as (? & b & ? & Hb & Hr & _).
    apply bind_Ok_inv in Hr as (? & bs & ? & Hbs & Hr & _).
    injection Hr as _ <-. cbn [List.map]. f_equal; [|eapply IH; exact Hbs].
    apply bind_Ok_inv in Hb as (? & pre & ? & Hp & Hb & _).
    injection Hb as _ <-. cbn [label_prefix] in Hp.
    rewrite (py_get_nat_Ok ps k EmptyString _ _ Hp). reflexivity.
Qed.

Lemma collect_list_Ok (ps : list string) (ds : list (response_set F)) body :
  body = (fun '(R, label) (k : nat) '(d, s) =>
            let! R :=
              for_each flds (R : gmap string (list (Nd.ndarray F)))
                (fun R f =>
                   let! x := getattr d f in
                   match x with
                   | Some x => ret (<[f := (R !!! f) ++ [x]]> R)
                   | None => ret R
                   end) in
            let! l := input_label (LList ps) k d in
            ret (R, (label : list (option (list string))) ++ [l])) ->
  forall (signs : list (Nd.ndarray F)) k R lbls out R' lbls',
    length signs = length ds ->
    for_enum_from k (combine (List.map Data ds) signs) (R, lbls) body
    = (out, Ok (R', lbls')) ->
    exists lss, List.map label ds = List.map Some lss
                /\ lbls' = lbls ++ List.map Some (imap (fun i => prefixed ps (k + i)) lss).
Proof.
  intros Hbody.
  induction ds as [|d ds IH]; intros [|s signs] k R lbls out R' lbls' Hlen;
    try discriminate.
  - cbn. intros [= _ _ <-]. exists []. rewrite app_nil_r. split; reflexivity.
  - cbn [List.map combine for_enum_from].
    intros Hr. apply bind_Ok_inv in Hr as (? & [R1 l1] & ? & H1 & Hr & _).
    rewrite Hbody in H1. cbv beta iota in H1.
    rewrite collect_fields_run, bind_ret_l in H1.
    apply bind_Ok_inv in H1 as (? & lx & ? & Hx & H1 & _).
    apply ret_Ok_inv in H1 as [H1 _]. apply pair_equal_spec in H1 as [-> ->].
    apply input_label_list_Ok in Hx as (ls & Hls & ->).
    apply IH in Hr as (lss & Hlss & ->); [|cbn in Hlen; lia].
    exists (ls :: lss). rewrite Hls, Hlss. split; [reflexivity|].
    rewrite <- app_assoc. cbn [imap List.map app]. rewrite Nat.add_0_r.
    do 3 f_equal. apply imap_ext. intros i y _. cbn. f_equal. lia.
Qed.

(** X15. With a list of [labels], every label of the result is the label of
    an input with the entry of [labels] for that input in front, in
    input order. *)
Theorem append_data_label_prefixes (ds : list (response_set F)) (ps : list string)
        out res :
  append_data (AsList (List.map Data ds)) (LList ps) None = (out, Ok res) ->
  exists lss, List.map label ds = List.map Some lss
              /\ label res = Some (concat (imap (prefixed ps) lss)).
Proof.
  unfold append_data. intros Hr.
  apply bind_Ok_inv in Hr as (? & d0 & ? & _ & Hr & _).
  apply bind_Ok_inv in Hr as (? & data & ? & _ & Hr & _).
  apply bind_Ok_inv in Hr as (? & signs & ? & Hsign & Hr & _).
  pose proof (sens_sign_check_length _ _ _ _ Hsign) as Hlen.
  rewrite length_map in Hlen.
  apply bind_Ok_inv in Hr as (? & [R lbls] & ? & Hc & Hr & _).
  unfold collect, for_enum in Hc.
  eapply collect_list_Ok in Hc as (lss & Hlss & Hlbls); [|reflexivity|exact Hlen].
  subst lbls.
  apply bind_Ok_inv in Hr as (? & data' & ? & _ & Hr & _).
  apply bind_Ok_inv in Hr as (? & l & ? & El & Hr & _).
  injection Hr as _ <-.
  apply concat_labels_Ok in El as (lss' & Heq & ->).
  exists lss. split; [exact Hlss|]. cbn [set_label label]. do 2 f_equal.
  cbn [app] in Heq. apply (inj (fmap Some)) in Heq. symmetry. exact Heq.
Qed.

End AppendMore.

Section AppendMoreWitness.
Import DR Spec Terms.

Lemma append_data_result_witness :
  exists out res,
    append_data (AsList (List.map Data (setA :: [setB]))) LNone None = (out, Ok res)
    /\ sens res = sens setA
    /\ (exists lss, List.map label (setA :: [setB]) = List.map Some lss
                    /\ label res = Some (concat lss))
    /\ (forall f, attrs res !! f
                  = if decide (f ∈ flds)
                    then concat_field (present f (setA :: [setB])) (attrs setA !! f)
                    else attrs setA !! f)
    /\ out = printed (sens_sign_check setA (List.map Data (setA :: [setB])))
             ++ flat_map (fun f => omitted f (present f (setA :: [setB]))) flds.
Proof.
  eexists _, _. split; [vm_compute; reflexivity|].
  apply (append_data_result setA [setB]). vm_compute. reflexivity.
Defined.

Lemma append_data_label_prefixes_witness :
  exists out res,
    append_data (AsList (List.map Data [setC; setD])) (LList ["x_"; "y_"]%string) None
    = (out, Ok res)
    /\ exists lss, List.map label [setC; setD] = List.map Some lss
                   /\ label res = Some (concat (imap (prefixed ["x_"; "y_"]%string) lss)).
Proof.
  eexists _, _. split; [vm_compute; reflexivity|].
  apply (append_data_label_prefixes [setC; setD] ["x_"; "y_"]%string []).
  vm_compute. reflexivity.
Defined.

End AppendMoreWitness.

(** ** [append_data] with an [index] *)

Section MonadLaws.
Context {A B C : Type}.

Lemma bind_assoc (m : M A) (k : A -> M B) (h : B -> M C) :
  Py.bind (Py.bind m k) h = Py.bind m (fun a => Py.bind (k a) h).
Proof.
  unfold Py.bind. destruct m as [o [a|e]]; [|reflexivity].
  destruct (k a) as [o' [b|e]]; [|reflexivity].
  destruct (h b) as [o'' r]. rewrite app_assoc. reflexivity.
Qed.

Lemma bind_ret_r (m : M A) : Py.bind m ret = m.
Proof.
  unfold Py.bind, ret. destruct m as [o [a|e]]; [|reflexivity].
  rewrite app_nil_r. reflexivity.
Qed.

End MonadLaws.

Lemma py_set_nat {A} (l : list A) (k : nat) (v : A) :
  k < length l -> py_set l (Z.of_nat k) v = ret (<[k := v]> l).
Proof.
  intros Hk. unfold py_set, py_index.
  replace (0 <=? Z.of_nat k)%Z with true by (symmetry; apply Z.leb_le; lia).
  replace (Z.of_nat k <? Z.of_nat (length l))%Z with true
    by (symmetry; apply Z.ltb_lt; lia).
  rewrite Nat2Z.id, insert_take_drop by exact Hk. reflexivity.
Qed.

(** The writes of [x0[index] = x], one entry of [index] after the
    other: a position named once holds the value written there, and a
    position that is not named keeps what it had. *)
Lemma scatter_loop {A} (P : A -> Prop) (ivs : list (Z * A)) :
  forall bs : list A,
    (forall iv, In iv ivs -> (0 <= fst iv < Z.of_nat (length bs))%Z) ->
    exists bs',
      for_each ivs bs (fun bs iv => py_set bs (fst iv) (snd iv)) = ret bs'
      /\ length bs' = length bs
      /\ (Forall P bs -> (forall iv, In iv ivs -> P (snd iv)) -> Forall P bs')
      /\ (forall j, (forall iv, In iv ivs -> fst iv <> Z.of_nat j) -> bs' !! j = bs !! j)
      /\ (NoDup (List.map fst ivs) ->
          forall iv, In iv ivs -> bs' !! Z.to_nat (fst iv) = Some (snd iv)).
Proof.
  induction ivs as [|[i v] ivs IH]; intros bs Hr.
  - exists bs. repeat split; auto. intros _ iv [].
  - assert (Hi : (0 <= i < Z.of_nat (length bs))%Z) by (apply (Hr (i, v)); left; reflexivity).
    cbn [for_each fst snd].
    assert (Eset : py_set bs i v = ret (<[Z.to_nat i := v]> bs)).
    { rewrite <- (Z2Nat.id i) at 1 by lia. apply py_set_nat. lia. }
    rewrite Eset, bind_ret_l.
    destruct (IH (<[Z.to_nat i := v]> bs)) as (bs' & Hrun & Hlen & HP & Hkeep & Hset).
    { intros iv Hiv. rewrite length_insert. apply Hr. right. exact Hiv. }
    exists bs'. split; [exact Hrun|]. rewrite length_insert in Hlen.
    split; [exact Hlen|]. split; [|split].
    + intros Hbs Hvs. apply HP.
      * apply Forall_insert; [exact Hbs|]. apply (Hvs (i, v)). left; reflexivity.
      * intros iv Hiv. apply Hvs. right. exact Hiv.
    + intros j Hj. rewrite Hkeep by (intros iv Hiv; apply Hj; right; exact Hiv).
      apply list_lookup_insert_ne. intros E. apply (Hj (i, v)); [left; reflexivity|].
      cbn. lia.
    + intros Hnd iv [<- | Hiv]; cbn [List.map fst snd] in *.
      * apply NoDup_cons in Hnd as [Hni _].
        rewrite Hkeep.
        { apply list_lookup_insert_eq. lia. }
        intros iv Hiv E. apply Hni. apply list_elem_of_In, in_map_iff.
        exists iv. split; [|exact Hiv]. lia.
      * apply NoDup_cons in Hnd as [_ Hnd]. apply Hset; assumption.
Qed.

Lemma chunks_concat {A} (k : nat) (l : list (list A)) :
  Forall (fun c => length c = k) l -> Nd.chunks (length l) k (concat l) = l.
Proof.
  induction 1 as [|c l Hc _ IH]; [reflexivity|].
  cbn [length concat]. rewrite chunks_app by exact Hc. rewrite IH. reflexivity.
Qed.

Lemma length_concat_rows {A} (k : nat) (l : list (list A)) :
  Forall (fun c => length c = k) l -> length (concat l) = length l * k.
Proof.
  induction 1 as [|c l Hc _ IH]; [reflexivity|].
  cbn [concat length]. rewrite length_app, IH, Hc. lia.
Qed.

Lemma map_fst_combine {A B} (l : list A) (l' : list B) :
  length l = length l' -> List.map fst (combine l l') = l.
Proof.
  revert l'. induction l as [|a l IH]; intros [|b l'] H; try discriminate; [reflexivity|].
  cbn. f_equal. apply IH. cbn in H. lia.
Qed.

Lemma combine_lookup {A B} (l : list A) (l' : list B) k a b :
  l !! k = Some a -> l' !! k = Some b -> In (a, b) (combine l l').
Proof.
  revert l' k. induction l as [|x l IH]; intros [|y l'] [|k]; cbn; try discriminate.
  - intros [= ->] [= ->]. left. reflexivity.
  - intros Ha Hb. right. eapply IH; eassumption.
Qed.

(** [x0[index] = x] for an [x] of [n] rows, an [x0] of the same shape
    and an [index] that names every row position once: row [k] of [x]
    becomes row [index[k]] of the result. *)
Lemma scatter_places_rows {A} (x0 x : Nd.ndarray A) (index : list Z) n rest :
  Nd.shape x0 = n :: rest -> length (Nd.data x0) = n * Nd.prod rest ->
  Nd.shape x = n :: rest -> length (Nd.data x) = n * Nd.prod rest ->
  length index = n -> NoDup index ->
  (forall i, In i index -> (0 <= i < Z.of_nat n)%Z) ->
  exists r,
    Nd.scatter x0 index x = ret r
    /\ Nd.shape r = n :: rest
    /\ length (Nd.data r) = n * Nd.prod rest
    /\ forall k i, index !! k = Some i ->
                   Nd.blocks r !! Z.to_nat i = Nd.blocks x !! k.
Proof.
  intros Hx0 Hl0 Hx Hl Hn Hnd Hin. unfold Nd.scatter, Nd.ndim, Nd.broadcast_to.
  rewrite Hx0, Hx, Hn. cbn [length]. rewrite Nat.leb_refl.
  change (S (length rest)) with (length (n :: rest)).
  rewrite pad_shape_same, bshape_same, shape_eqb_refl.
  rewrite expand_same by (rewrite Hl; reflexivity).
  set (rows := Nd.chunks n (Nd.prod rest) (Nd.data x)).
  set (bs := Nd.chunks n (Nd.prod rest) (Nd.data x0)).
  assert (Hrows : length rows = n) by apply chunks_length.
  assert (Hbs : length bs = n) by apply chunks_length.
  destruct (scatter_loop (fun c => length c = Nd.prod rest) (combine index rows) bs)
    as (bs' & Hrun & Hlen & HP & _ & Hset).
  { intros [i v] Hiv. cbn [fst]. rewrite Hbs. apply Hin.
    eapply in_combine_l. exact Hiv. }
  rewrite Hrun, bind_ret_l. eexists. split; [reflexivity|].
  cbn [Nd.shape]. split; [reflexivity|].
  assert (Hall : Forall (fun c => length c = Nd.prod rest) bs').
  { apply HP.
    - apply chunks_all_length. exact Hl0.
    - intros [i v] Hiv. cbn [snd]. apply in_combine_r in Hiv.
      pose proof (chunks_all_length n (Nd.prod rest) (Nd.data x) Hl) as Hr.
      rewrite Forall_forall in Hr. apply Hr, list_elem_of_In, Hiv. }
  assert (Hblocks : Nd.chunks n (Nd.prod rest) (concat bs') = bs').
  { rewrite <- Hbs, <- Hlen. apply chunks_concat. exact Hall. }
  split.
  - cbn [Nd.data]. rewrite (length_concat_rows _ _ Hall). lia.
  - intros k i Hk. unfold Nd.blocks. cbn [Nd.shape Nd.data]. rewrite Hx, Hblocks.
    fold rows.
    assert (Hlt : k < length rows).
    { rewrite Hrows, <- Hn. apply lookup_lt_Some in Hk. exact Hk. }
    destruct (lookup_lt_is_Some_2 rows k Hlt) as (v & Hv).
    rewrite Hv. apply (Hset ltac:(rewrite map_fst_combine by lia; exact Hnd) (i, v)).
    eapply combine_lookup; eassumption.
Qed.

Lemma chunks_one {A} (l : list A) :
  Nd.chunks (length l) 1 l = List.map (fun x => [x]) l.
Proof.
  induction l as [|a l IH]; [reflexivity|].
  cbn [length List.map]. rewrite <- IH. reflexivity.
Qed.

Section IndexFacts.
Import DR Spec Terms.
Context {F : Type} {SF : Scalar F}.
Implicit Types (d : response_set F).

(** The call with an [index] is the call without it, followed by the
    block under [if index is not None]. *)
Lemma append_data_index_eq (c : collection F) labels index :
  append_data c labels (Some index)
  = (let! data := append_data c labels None in reindex index data).
Proof.
  unfold append_data.
  destruct (match c with AsList l => _ | AsDict items => _ end) as [data_in lb].
  rewrite !bind_assoc. apply bind_ext; intros d0.
  rewrite !bind_assoc. apply bind_ext; intros data.
  rewrite !bind_assoc. apply bind_ext; intros sign.
  rewrite !bind_assoc. apply bind_ext; intros [R label].
  rewrite !bind_assoc. apply bind_ext; intros data'.
  rewrite !bind_assoc. apply bind_ext; intros l.
  rewrite bind_ret_l. reflexivity.
Qed.

Lemma reindex_fields (index : list Z) n (fs : list string) :
  length index = n -> NoDup index ->
  (forall i, In i index -> (0 <= i < Z.of_nat n)%Z) ->
  NoDup fs ->
  forall d,
    (forall f a, f ∈ fs -> attrs d !! f = Some a -> has_rows n a) ->
    exists d',
      for_each fs d
        (fun data f =>
           match attrs data !! f with
           | Some x =>
               let! x0 := Nd.scatter (Nd.zeros (Nd.shape x)) index x in
               ret (setattr data f (Some x0))
           | None => ret data
           end) = ret d'
      /\ label d' = label d /\ sens d' = sens d
      /\ (forall f, f ∉ fs -> attrs d' !! f = attrs d !! f)
      /\ (forall f, f ∈ fs -> moved_opt index (attrs d !! f) (attrs d' !! f)).
Proof.
  intros Hn Hnd Hin Hfs. induction Hfs as [|g fs Hg Hfs IH]; intros d Hrows.
  - exists d. repeat split; auto. intros f Hf. apply not_elem_of_nil in Hf as [].
  - cbn [for_each].
    assert (Hstep : exists d1,
               match attrs d !! g with
               | Some x =>
                   let! x0 := Nd.scatter (Nd.zeros (Nd.shape x)) index x in
                   ret (setattr d g (Some x0))
               | None => ret d
               end = ret d1
               /\ label d1 = label d /\ sens d1 = sens d
               /\ (forall f, f <> g -> attrs d1 !! f = attrs d !! f)
               /\ moved_opt index (attrs d !! g) (attrs d1 !! g)).
    { destruct (attrs d !! g) as [a|] eqn:Ea.
      - destruct (Hrows g a) as (rest & Hsh & Hlen);
          [apply elem_of_cons; left; reflexivity | exact Ea |].
        assert (Hz : length (Nd.data (Nd.zeros (F := F) (Nd.shape a))) = n * Nd.prod rest).
        { rewrite Hsh. cbn [Nd.zeros Nd.data]. rewrite repeat_length. reflexivity. }
        destruct (scatter_places_rows (Nd.zeros (Nd.shape a)) a index n rest
                    Hsh Hz Hsh Hlen Hn Hnd Hin)
          as (r & Hr & Hrs & _ & Hmv).
        rewrite Hr, bind_ret_l. eexists. split; [reflexivity|].
        cbn [setattr label sens attrs]. do 2 (split; [reflexivity|]). split.
        + intros f Hf. apply lookup_insert_ne. congruence.
        + rewrite lookup_insert_eq. split; [congruence | exact Hmv].
      - exists d. rewrite Ea. repeat split; auto. }
    destruct Hstep as (d1 & -> & Hl1 & Hs1 & Ho1 & Hg1). rewrite bind_ret_l.
    destruct (IH d1) as (d' & Hrun & Hl' & Hs' & Ho' & Hm').
    { intros f a Hf Ha. apply (Hrows f a); [apply elem_of_cons; right; exact Hf|].
      rewrite <- Ho1; [exact Ha|]. intros ->. contradiction. }
    exists d'. split; [exact Hrun|]. do 2 (split; [congruence|]). split.
    + intros f Hf. rewrite not_elem_of_cons in Hf. destruct Hf as [Hne Hf].
      rewrite Ho' by exact Hf. apply Ho1. exact Hne.
    + intros f Hf. apply elem_of_cons in Hf as [-> | Hf].
      * rewrite Ho' by exact Hg. exact Hg1.
      * rewrite <- (Ho1 f) by (intros ->; contradiction). apply Hm'. exact Hf.
Qed.

(** X16. [append_data] with an [index] that names every row position once.
    The call returns what the call without [index] returns, with the
    rows moved: row [k] of every attribute of [flds], and label [k],
    are at position [index[k]] of the result. The profile, the other
    attributes and what is printed are the same. *)
Theorem append_data_index_places_rows (c : collection F) labels (index : list Z)
        out res n :
  append_data c labels None = (out, Ok res) ->
  length index = n -> NoDup index ->
  (forall i, In i index -> (0 <= i < Z.of_nat n)%Z) ->
  (forall f a, f ∈ flds -> attrs res !! f = Some a -> has_rows n a) ->
  (forall l, label res = Some l -> length l = n) ->
  exists res',
    append_data c labels (Some index) = (out, Ok res')
    /\ sens res' = sens res
    /\ (forall f, f ∉ flds -> attrs res' !! f = attrs res !! f)
    /\ (forall f, f ∈ flds -> moved_opt index (attrs res !! f) (attrs res' !! f))
    /\ (forall l, label res = Some l ->
                  exists l', label res' = Some l' /\ length l' = n
                             /\ forall k i, index !! k = Some i ->
                                            l' !! Z.to_nat i = l !! k).
Proof.
  intros Hrun Hn Hnd Hin Hrows Hlab.
  assert (Hre : exists res',
             reindex index res = ret res'
             /\ sens res' = sens res
             /\ (forall f, f ∉ flds -> attrs res' !! f = attrs res !! f)
             /\ (forall f, f ∈ flds -> moved_opt index (attrs res !! f) (attrs res' !! f))
             /\ (forall l, label res = Some l ->
                           exists l', label res' = Some l' /\ length l' = n
                                      /\ forall k i, index !! k = Some i ->
                                                     l' !! Z.to_nat i = l !! k)).
  { unfold reindex. cbv zeta.
    destruct (reindex_fields index n flds Hn Hnd Hin flds_NoDup res Hrows)
      as (d' & -> & Hl' & Hs' & Ho' & Hm').
    rewrite bind_ret_l, Hl'.
    destruct (label res) as [l|] eqn:El.
    - specialize (Hlab l eq_refl).
      destruct (scatter_places_rows
                  (Nd.mk_nd [length l] (repeat EmptyString (length l)))
                  (Nd.vector l) index n []
                  ltac:(cbn; rewrite Hlab; reflexivity)
                  ltac:(cbn; rewrite repeat_length; lia)
                  ltac:(cbn; rewrite Hlab; reflexivity)
                  ltac:(cbn; lia) Hn Hnd Hin)
        as (r & Hr & Hrs & Hrl & Hmv).
      rewrite Hr, bind_ret_l.
      eexists. split; [reflexivity|]. cbn [set_label sens attrs label].
      split; [exact Hs'|]. split; [exact Ho'|]. split; [exact Hm'|].
      intros l0 [= <-]. exists (Nd.data r). split; [reflexivity|].
      cbn [Nd.prod fold_right] in Hrl. split; [lia|].
      intros k i Hk. specialize (Hmv k i Hk). unfold Nd.blocks in Hmv.
      rewrite Hrs in Hmv. cbn [Nd.vector Nd.shape Nd.data Nd.prod fold_right] in Hmv.
      rewrite Hlab in Hmv.
      assert (E1 : Nd.chunks n 1 (Nd.data r) = List.map (fun x => [x]) (Nd.data r)).
      { replace n with (length (Nd.data r)) by lia. apply chunks_one. }
      assert (E2 : Nd.chunks n 1 l = List.map (fun x => [x]) l).
      { rewrite <- Hlab. apply chunks_one. }
      rewrite E1, E2 in Hmv. rewrite !list_lookup_fmap in Hmv.
      destruct (Nd.data r !! Z.to_nat i), (l !! k); cbn in Hmv; congruence.
    - exists d'. split; [reflexivity|].
      split; [exact Hs'|]. split; [exact Ho'|]. split; [exact Hm'|]. discriminate. }
  destruct Hre as (res' & Hre & Hrest). exists res'. split; [|exact Hrest].
  rewrite append_data_index_eq, Hrun, bind_ok, Hre. cbn [fst snd ret].
  rewrite app_nil_r. reflexivity.
Qed.

End IndexFacts.

Section IndexWitness.
Import DR Spec Terms.

Lemma append_data_index_places_rows_witness :
  exists out res res',
    append_data (AsList [Data setC; Data (one_row None)]) LNone None = (out, Ok res)
    /\ append_data (AsList [Data setC; Data (one_row None)]) LNone (Some [2; 0; 1]%Z)
       = (out, Ok res')
    /\ sens res' = sens res
    /\ (forall f, f ∉ flds -> attrs res' !! f = attrs res !! f)
    /\ (forall f, f ∈ flds -> moved_opt [2; 0; 1]%Z (attrs res !! f) (attrs res' !! f))
    /\ (forall l, label res = Some l ->
                  exists l', label res' = Some l' /\ length l' = 3
                             /\ forall k i, [2; 0; 1]%Z !! k = Some i ->
                                            l' !! Z.to_nat i = l !! k).
Proof.
  destruct (append_data_index_places_rows
              (AsList [Data setC; Data (one_row None)]) LNone [2; 0; 1]%Z [] _ 3
              ltac:(vm_compute; reflexivity)) as (res' & H).
  - reflexivity.
  - apply (bool_decide_unpack _). vm_compute. exact I.
  - intros i Hi. cbn in Hi. lia.
  - intros f a Hf Ha. apply list_elem_of_In in Hf. cbn [flds In] in Hf.
    repeat (destruct Hf as [<- | Hf]);
      try (vm_compute in Ha; discriminate);
      try (vm_compute in Ha; injection Ha as <-; exists [2]; split; reflexivity).
    destruct Hf.
  - intros l [= <-]. reflexivity.
  - eexists _, _, res'. split; [reflexivity|]. exact H.
Defined.

End IndexWitness.

(** ** [prod_mat] and [calc_prod] *)

Section ProdFacts.
Import DR Spec Terms.
Context {F : Type} {SF : Scalar F}.
Variable lstsq : Nd.ndarray F -> Nd.ndarray F -> M (Nd.ndarray F).
Implicit Types (d : response_set F).

Lemma transpose_rows_single {A} (l : list A) :
  Nd.transpose_rows (length l) [l] = List.map (fun x => [x]) l.
Proof.
  induction l as [|a l IH]; [reflexivity|].
  cbn [length Nd.transpose_rows omap list_omap head List.map tail].
  rewrite IH. reflexivity.
Qed.

Lemma concat_singletons {A} (l : list A) : concat (List.map (fun x => [x]) l) = l.
Proof. induction l as [|a l IH]; [reflexivity|]. cbn. rewrite IH. reflexivity. Qed.

Lemma transpose_rows_columns {A} (l : list A) :
  Nd.transpose_rows 1 (List.map (fun x => [x]) l) = [l].
Proof.
  cbn [Nd.transpose_rows]. f_equal.
  induction l as [|a l IH]; [reflexivity|]. cbn. rewrite IH. reflexivity.
Qed.

Lemma outer_flat_vectors (d1 d2 : list F) :
  outer_flat (length d1) (length d2) (Nd.mk_nd [length d1] d1) (Nd.mk_nd [length d2] d2)
  = ret (Nd.mk_nd [length d1 * length d2] (outer d1 d2)).
Proof.
  unfold outer_flat, Nd.atleast_2d, Nd.transpose. cbn [Nd.shape Nd.data rev app].
  assert (Ht : Nd.transpose_data [1; length d2] d2 = d2).
  { cbn [Nd.transpose_data Nd.chunks firstn skipn List.map].
    unfold Nd.prod. cbn [fold_right]. rewrite Nat.mul_1_r, firstn_all.
    rewrite chunks_one, map_id, transpose_rows_columns. cbn [concat].
    rewrite app_nil_r, transpose_rows_single. apply concat_singletons. }
  rewrite Ht. unfold Nd.dot. cbn [Nd.shape Nd.data]. rewrite Nat.eqb_refl, bind_ret_l.
  unfold Nd.reshape, Nd.size. cbn [Nd.shape Nd.data].
  replace (Nd.prod [length d1 * length d2] =? Nd.prod [length d2; length d1])%nat
    with true
    by (symmetry; apply Nat.eqb_eq; unfold Nd.prod; cbn [fold_right]; lia).
  unfold ret. do 3 f_equal.
  cbn [Nd.chunks firstn skipn]. rewrite firstn_all, transpose_rows_single, chunks_one.
  unfold outer. clear Ht. induction d2 as [|b d2 IH]; [reflexivity|].
  cbn [List.map concat flat_map]. rewrite IH. f_equal.
  clear. induction d1 as [|a d1 IH]; [reflexivity|].
  cbn [List.map]. rewrite IH. reflexivity.
Qed.

Lemma rows_matrix (a : Nd.ndarray F) m n :
  matrix m n a ->
  rows a = ret (List.map (Nd.mk_nd [n]) (Nd.chunks m n (Nd.data a))).
Proof.
  intros [Hs _]. unfold rows. rewrite Hs. unfold Nd.prod. cbn [fold_right].
  rewrite Nat.mul_1_r. reflexivity.
Qed.

Lemma outer_rows n1 n2 (c1 c2 : list (list F)) :
  Forall (fun c => length c = n1) c1 -> Forall (fun c => length c = n2) c2 ->
  map_m (fun p => outer_flat n1 n2 (fst p) (snd p))
        (combine (List.map (Nd.mk_nd [n1]) c1) (List.map (Nd.mk_nd [n2]) c2))
  = ret (List.map (fun p => Nd.mk_nd [n1 * n2] (outer (fst p) (snd p)))
                  (combine c1 c2)).
Proof.
  intros H1. revert c2. induction H1 as [|a c1 Ha _ IH]; intros c2 H2; [reflexivity|].
  destruct H2 as [|b c2 Hb H2]; [reflexivity|].
  cbn [List.map combine map_m fst snd]. subst n1 n2.
  rewrite outer_flat_vectors, bind_ret_l, IH by exact H2. rewrite bind_ret_l.
  reflexivity.
Qed.

Lemma np_array_rows {A} (n : nat) (l : list (list A)) :
  l <> [] ->
  Nd.np_array (List.map (Nd.mk_nd [n]) l)
  = ret (Nd.mk_nd [length l; n] (concat l)).
Proof.
  intros Hl. destruct l as [|a l]; [contradiction|]. unfold Nd.np_array.
  cbn [List.map Nd.shape].
  assert (Hall : forallb (fun b : Nd.ndarray A => Nd.shape_eqb [n] (Nd.shape b))
                         (Nd.mk_nd [n] a :: List.map (Nd.mk_nd [n]) l) = true).
  { apply forallb_forall. intros b Hb.
    change (Nd.mk_nd [n] a :: List.map (Nd.mk_nd [n]) l)
      with (List.map (Nd.mk_nd [n]) (a :: l)) in Hb.
    apply in_map_iff in Hb as (c & <- & _). apply shape_eqb_refl. }
  rewrite Hall. unfold ret. do 3 f_equal.
  - cbn [length]. rewrite length_map. reflexivity.
  - change (Nd.mk_nd [n] a :: List.map (Nd.mk_nd [n]) l)
      with (List.map (Nd.mk_nd [n]) (a :: l)).
    rewrite List.map_map. cbn [Nd.data]. rewrite map_id. reflexivity.
Qed.

(** X17. [prod_mat] solves a least-squares problem whose right-hand side
    has one row per row of the bases: the flattened outer product of
    the row of [r2] with the row of [r1], the index of [r2] running
    slowest (entry [i*n1 + j] of row [k] is [r2[k,i] * r1[k,j]]). *)
Theorem prod_mat_outer_products (r1 r2 r : Nd.ndarray F) m n1 n2 :
  matrix m n1 r1 -> matrix m n2 r2 -> 0 < m ->
  prod_mat lstsq (Raw r1) (Some (Raw r2)) (Some (Raw r))
  = lstsq r (Nd.mk_nd [m; n1 * n2]
               (concat (List.map (fun p => outer (fst p) (snd p))
                                 (combine (Nd.chunks m n1 (Nd.data r1))
                                          (Nd.chunks m n2 (Nd.data r2)))))).
Proof.
  intros H1 H2 Hm. unfold prod_mat. cbn [resolve].
  rewrite (shape_at_1 _ _ _ (proj1 H1)), bind_ret_l.
  rewrite (shape_at_1 _ _ _ (proj1 H2)), bind_ret_l.
  rewrite (rows_matrix r1 m n1 H1), bind_ret_l.
  rewrite (rows_matrix r2 m n2 H2), bind_ret_l.
  rewrite (outer_rows n1 n2 _ _ (chunks_all_length m n1 _ (proj2 H1))
                      (chunks_all_length m n2 _ (proj2 H2))).
  rewrite bind_ret_l.
  set (ps := combine (Nd.chunks m n1 (Nd.data r1)) (Nd.chunks m n2 (Nd.data r2))).
  assert (Hlen : length ps = m).
  { unfold ps. rewrite length_combine, !chunks_length. lia. }
  rewrite <- (List.map_map (fun p => outer (fst p) (snd p)) (Nd.mk_nd [n1 * n2])).
  rewrite np_array_rows.
  - rewrite bind_ret_l, length_map, Hlen. reflexivity.
  - intros E. apply (f_equal (@length _)) in E. rewrite length_map, Hlen in E.
    cbn in E. lia.
Qed.

End ProdFacts.

Section ProdWitness.
Import DR Spec Terms.

Lemma prod_mat_outer_products_witness :
  prod_mat no_lstsq (Raw (mat 1 2 [1; 2]%float)) (Some (Raw (mat 1 3 [3; 4; 5]%float)))
           (Some (Raw (mat 1 2 [1; 2]%float)))
  = no_lstsq (mat 1 2 [1; 2]%float)
      (Nd.mk_nd [1; 2 * 3]
         (concat (List.map (fun p => outer (fst p) (snd p))
                           (combine (Nd.chunks 1 2 [1; 2]%float)
                                    (Nd.chunks 1 3 [3; 4; 5]%float))))).
Proof.
  apply (prod_mat_outer_products no_lstsq (mat 1 2 [1; 2]%float)
           (mat 1 3 [3; 4; 5]%float) (mat 1 2 [1; 2]%float) 1 2 3).
  - split; reflexivity.
  - split; reflexivity.
  - lia.
Defined.

End ProdWitness.

(** ** [calc_prod] *)

Section ProdMore.
Import DR Spec Terms.
Context {F : Type} {SF : Scalar F}.
Variable lstsq : Nd.ndarray F -> Nd.ndarray F -> M (Nd.ndarray F).
Implicit Types (d : response_set F).

Lemma setattr_same d f : setattr d f (attrs d !! f) = d.
Proof.
  destruct d as [at_ lb s]. unfold setattr. cbn [attrs label sens].
  destruct (at_ !! f) as [a|] eqn:E; f_equal.
  - apply insert_id. exact E.
  - apply delete_id. exact E.
Qed.

Lemma py_get_last_one {A} (a : A) : pop [a] = ret ([], a).
Proof. reflexivity. Qed.

(** X18. The product of a single factor is that factor: the loop does not
    run, no least-squares problem is solved, and the result is the input
    with 'R_std' replaced by [sqrt(R_std**2)]. The call needs one basis
    at least, and an 'R_std' that is not [None]. *)
Theorem calc_prod_single_factor d (r : r_arg F) S :
  attrs d !! "R_std"%string = Some S -> bases r 1 <> [] ->
  calc_prod lstsq (DList [Data d]) r None
  = ret (Some (setattr d "R_std" (Some (Nd.map (fun x => sqrt (x * x)%num) S)))).
Proof.
  intros HS Hr. unfold calc_prod. cbn [andb prepare].
  rewrite py_get_first, bind_ret_l. cbn [copy for_each getattr].
  repeat (rewrite bind_ret_l; cbv beta iota). cbn [app].
  unfold bases in Hr.
  replace (match r with RList l => l | ROne b => List.map (fun _ => b) [attrs d !! "R"] end)
    with (match r with RList l => l | ROne b => repeat b 1 end)
    by (destruct r; reflexivity).
  destruct (List.map resolve _) as [|b0 l0] eqn:El; [contradiction|].
  rewrite py_get_first, bind_ret_l.
  change (pop [attrs d !! "R"]) with (ret (@nil (option (Nd.ndarray F)), attrs d !! "R")).
  rewrite bind_ret_l. cbv beta iota.
  assert (Hpop : exists l1 b1, pop (b0 :: l0) = ret (l1, b1)).
  { unfold pop. destruct (rev (b0 :: l0)) as [|x t] eqn:Er.
    - apply (f_equal (@length _)) in Er. rewrite length_rev in Er. discriminate.
    - eauto. }
  destruct Hpop as (l1 & b1 & ->). rewrite bind_ret_l. cbv beta iota.
  change (pop [attrs d !! "R_std"])
    with (ret (@nil (option (Nd.ndarray F)), attrs d !! "R_std")).
  rewrite bind_ret_l. cbv beta iota. rewrite HS. unfold need, lift. rewrite bind_ret_l.
  cbn [rev for_each]. rewrite bind_ret_l. cbn [fR1 fR1_var].
  rewrite setattr_same. unfold ret. do 4 f_equal.
  unfold Nd.map. cbn [Nd.shape Nd.data]. rewrite List.map_map. reflexivity.
Qed.

(** X19. The frame count of a single Response Set: zero is a
    [ZeroDivisionError], and with a negative count no block is cut out,
    so that the call ends in an [IndexError]. *)
Theorem calc_prod_frame_count d (r : r_arg F) R0 n rest nf :
  attrs d !! "R"%string = Some R0 -> Nd.shape R0 = n :: rest ->
  (nf = 0%Z -> calc_prod lstsq (DOne (Data d)) r (Some nf) = raise ZeroDivisionError)
  /\ ((nf < 0)%Z -> calc_prod lstsq (DOne (Data d)) r (Some nf) = raise IndexError).
Proof.
  intros HR Hs.
  assert (Hn0 : Nd.shape_at R0 0 = ret n).
  { unfold Nd.shape_at. rewrite Hs. apply py_get_first. }
  split.
  - intros ->. unfold calc_prod, prepare. cbn [andb copy getattr].
    rewrite !bind_ret_l, HR. unfold need at 1, lift at 1.
    rewrite bind_ret_l, Hn0, bind_ret_l. reflexivity.
  - intros Hneg.
    assert (Hp : prepare (DOne (Data d)) (Some nf) = ret (d, [], [])).
    { unfold prepare. cbn [copy getattr]. rewrite !bind_ret_l, HR.
      unfold need at 1, lift at 1. rewrite bind_ret_l, Hn0, bind_ret_l.
      replace (nf =? 0)%Z with false by (symmetry; apply Z.eqb_neq; lia).
      replace (Z.to_nat nf) with 0 by lia. cbn [seq for_each].
      rewrite bind_ret_l. reflexivity. }
    unfold calc_prod. cbn [andb]. rewrite Hp, bind_ret_l. cbv beta iota.
    destruct r as [[|b l]|b]; cbn [List.map].
    + rewrite py_get_nil. reflexivity.
    + rewrite py_get_first, bind_ret_l. reflexivity.
    + rewrite py_get_nil. reflexivity.
Qed.

Lemma slice_rows_block n k (a : Nd.ndarray F) r c :
  Nd.shape a = [r; c] -> Nd.slice_rows (k * n) ((k + 1) * n) a = ret (block n k a).
Proof.
  intros Hs. unfold block, Nd.slice_rows. rewrite Hs. reflexivity.
Qed.

Lemma prepare_frames_loop d n (R0 S0 : Nd.ndarray F) r c r' c' ks :
  Nd.shape R0 = [r; c] -> Nd.shape S0 = [r'; c'] ->
  attrs d !! "R_std"%string = Some S0 ->
  forall acc acc',
  for_each ks (acc, acc')
    (fun '(R, R_std) k =>
       let! _ := Nd.shape_at R0 1 in
       let! x := Nd.slice_rows (k * n) ((k + 1) * n) R0 in
       let! dstd := getattr (Data d) "R_std" in
       let! dstd := need TypeError dstd in
       let! _ := Nd.shape_at dstd 1 in
       let! y := Nd.slice_rows (k * n) ((k + 1) * n) dstd in
       ret (R ++ [Some x], R_std ++ [Some y]))
  = ret (acc ++ List.map (fun k => Some (block n k R0)) ks,
         acc' ++ List.map (fun k => Some (block n k S0)) ks).
Proof.
  intros HR HS Hd. match goal with |- context [for_each _ _ ?b] => set (body := b) end.
  induction ks as [|k ks IH]; intros acc acc'.
  - cbn [for_each List.map]. rewrite !app_nil_r. reflexivity.
  - cbn [for_each List.map]. unfold body at 1. cbn [getattr].
    rewrite (shape_at_1 _ _ _ HR), bind_ret_l, (slice_rows_block n k R0 r c HR).
    rewrite !bind_ret_l, Hd. unfold need at 1, lift at 1. rewrite bind_ret_l.
    rewrite (shape_at_1 _ _ _ HS), bind_ret_l, (slice_rows_block n k S0 r' c' HS).
    rewrite !bind_ret_l, IH, <- !app_assoc. reflexivity.
Qed.

Lemma prepare_list_loop (g : nat -> response_set F) ks :
  forall acc acc',
  for_each (List.map (fun k => Data (g k)) ks) (acc, acc')
    (fun '(R, R_std) o =>
       let! x := getattr o "R" in
       let! y := getattr o "R_std" in
       ret (R ++ [x], R_std ++ [y]))
  = ret (acc ++ List.map (fun k => attrs (g k) !! "R"%string) ks,
         acc' ++ List.map (fun k => attrs (g k) !! "R_std"%string) ks).
Proof.
  match goal with |- context [for_each _ _ ?b] => set (body := b) end.
  induction ks as [|k ks IH]; intros acc acc'.
  - cbn [for_each List.map]. rewrite !app_nil_r. reflexivity.
  - cbn [for_each List.map]. unfold body at 1. cbn [getattr].
    rewrite !bind_ret_l, IH, <- !app_assoc. reflexivity.
Qed.

Lemma setattr_twice d f (x y : option (Nd.ndarray F)) :
  setattr (setattr d f x) f y = setattr d f y.
Proof.
  destruct d as [m lb s], x, y; unfold setattr; cbn [attrs label sens]; f_equal.
  - apply insert_insert_eq.
  - apply delete_insert_eq.
  - apply insert_delete_eq.
  - apply delete_delete_eq.
Qed.

Lemma setattr_comm d f g (x y : option (Nd.ndarray F)) :
  f <> g -> setattr (setattr d f x) g y = setattr (setattr d g y) f x.
Proof.
  intros Hfg.
  destruct d as [m lb s], x, y; unfold setattr; cbn [attrs label sens]; f_equal.
  - apply insert_insert_ne. congruence.
  - apply delete_insert_ne. congruence.
  - apply insert_delete_ne. congruence.
  - apply delete_delete.
Qed.

Lemma frame_overwritten n R0 S0 d k x y :
  setattr (setattr (frame_part n R0 S0 d k) "R" x) "R_std" y
  = setattr (setattr d "R" x) "R_std" y.
Proof.
  unfold frame_part.
  rewrite (setattr_comm (setattr d "R" _) "R_std" "R") by discriminate.
  rewrite !setattr_twice. reflexivity.
Qed.

(** X20. The call for one Response Set with [nf] frames is the call for the
    list of its [nf] blocks of rows: block [k] holds the rows
    [k*n .. (k+1)*n) of 'R' and of 'R_std', where [n] is the number of
    rows divided by [nf]. *)
Theorem calc_prod_frames_as_list d (r : r_arg F) R0 S0 n0 c n0' c' (nf : Z) :
  attrs d !! "R"%string = Some R0 -> attrs d !! "R_std"%string = Some S0 ->
  Nd.shape R0 = [n0; c] -> Nd.shape S0 = [n0'; c'] -> (0 < nf)%Z ->
  calc_prod lstsq (DOne (Data d)) r (Some nf)
  = calc_prod lstsq
      (DList (List.map (fun k => Data (frame_part (Z.to_nat (Z.quot (Z.of_nat n0) nf)) R0 S0 d k))
                       (seq 0 (Z.to_nat nf))))
      r None.
Proof.
  intros HR HS HsR HsS Hnf.
  set (n := Z.to_nat (Z.quot (Z.of_nat n0) nf)).
  assert (Hl : prepare (DOne (Data d)) (Some nf)
               = ret (d, List.map (fun k => Some (block n k R0)) (seq 0 (Z.to_nat nf)),
                      List.map (fun k => Some (block n k S0)) (seq 0 (Z.to_nat nf)))).
  { unfold prepare. cbn [copy getattr]. rewrite !bind_ret_l, HR.
    unfold need at 1, lift at 1. rewrite bind_ret_l.
    unfold Nd.shape_at at 1. rewrite HsR, py_get_first, bind_ret_l.
    replace (nf =? 0)%Z with false by (symmetry; apply Z.eqb_neq; lia).
    fold n.
    rewrite (prepare_frames_loop d n R0 S0 n0 c n0' c' _ HsR HsS HS), bind_ret_l.
    reflexivity. }
  assert (Hr : prepare (DList (List.map (fun k => Data (frame_part n R0 S0 d k))
                                        (seq 0 (Z.to_nat nf)))) None
               = ret (frame_part n R0 S0 d 0,
                      List.map (fun k => Some (block n k R0)) (seq 0 (Z.to_nat nf)),
                      List.map (fun k => Some (block n k S0)) (seq 0 (Z.to_nat nf)))).
  { unfold prepare. destruct (Z.to_nat nf) as [|p] eqn:Ep; [lia|].
    rewrite prepare_list_loop. cbn [seq List.map]. rewrite py_get_first, bind_ret_l.
    cbn [copy]. rewrite !bind_ret_l. cbn [app]. unfold ret. do 2 f_equal.
    f_equal.
    - f_equal. f_equal.
      + unfold frame_part, setattr. cbn [attrs].
        rewrite lookup_insert_ne by discriminate. apply lookup_insert_eq.
      + apply map_ext. intros k. unfold frame_part, setattr. cbn [attrs].
        rewrite lookup_insert_ne by discriminate. apply lookup_insert_eq.
    - f_equal.
      + unfold frame_part, setattr. cbn [attrs]. apply lookup_insert_eq.
      + apply map_ext. intros k. unfold frame_part, setattr. cbn [attrs].
        apply lookup_insert_eq. }
  unfold calc_prod. cbn [andb]. rewrite Hl, Hr, !bind_ret_l. cbv beta iota.
  repeat (apply bind_ext; intros ?; cbv beta iota;
          repeat match goal with |- context [let (_, _) := ?x in _] =>
                   is_var x; destruct x end).
  rewrite frame_overwritten. reflexivity.
Qed.

End ProdMore.

Section ProdMoreWitness.
Import DR Spec Terms.

Lemma calc_prod_single_factor_witness :
  calc_prod no_lstsq (DList [Data setA]) (ROne (Raw (mat 2 2 [1; 0; 0; 1]%float))) None
  = ret (Some (setattr setA "R_std"
                       (Some (Nd.map (fun x => Num.sqrt (x * x)%num)
                                     (mat 2 2 [1; 1; 1; 1]%float))))).
Proof.
  apply (calc_prod_single_factor no_lstsq setA).
  - reflexivity.
  - discriminate.
Defined.

Lemma calc_prod_frame_count_witness :
  calc_prod no_lstsq (DOne (Data setA)) (ROne (Raw (mat 2 2 [1; 0; 0; 1]%float)))
            (Some 0%Z)
  = raise ZeroDivisionError
  /\ calc_prod no_lstsq (DOne (Data setA)) (ROne (Raw (mat 2 2 [1; 0; 0; 1]%float)))
               (Some (-2)%Z)
     = raise IndexError.
Proof.
  split.
  - refine (proj1 (calc_prod_frame_count no_lstsq setA _ (mat 2 2 [1; 2; 3; 4]%float)
                     2 [2] 0%Z eq_refl eq_refl) eq_refl).
  - refine (proj2 (calc_prod_frame_count no_lstsq setA _ (mat 2 2 [1; 2; 3; 4]%float)
                     2 [2] (-2)%Z eq_refl eq_refl) _). lia.
Defined.

Lemma calc_prod_frames_as_list_witness :
  calc_prod no_lstsq (DOne (Data setA)) (ROne (Raw (mat 2 2 [1; 0; 0; 1]%float)))
            (Some 2%Z)
  = calc_prod no_lstsq
      (DList (List.map (fun k => Data (frame_part 1 (mat 2 2 [1; 2; 3; 4]%float)
                                             (mat 2 2 [1; 1; 1; 1]%float) setA k))
                       (seq 0 2)))
      (ROne (Raw (mat 2 2 [1; 0; 0; 1]%float))) None.
Proof.
  apply (calc_prod_frames_as_list no_lstsq setA _ (mat 2 2 [1; 2; 3; 4]%float)
           (mat 2 2 [1; 1; 1; 1]%float) 2 2 2 2 2%Z); try reflexivity. 
Defined.

End ProdMoreWitness.

(** ** The label classes *)

Section LabelFacts.
Import Labels.

Lemma lbind_Ok_inv {A B} (m : L A) (k : A -> L B) w b w' :
  lbind m k w = (Ok b, w') -> exists a w1, m w = (Ok a, w1) /\ k a w1 = (Ok b, w').
Proof.
  unfold lbind. destruct (m w) as [[a|e] w1]; [eauto|discriminate].
Qed.

Lemma lbind_keeps {A B} (P : world -> Prop) (m : L A) (k : A -> L B) w :
  (forall w, P w -> P (snd (m w))) -> (forall a w, P w -> P (snd (k a w))) ->
  P w -> P (snd (lbind m k w)).
Proof.
  intros Hm Hk Hw. unfold lbind. specialize (Hm w Hw).
  destruct (m w) as [[a|e] w1]; cbn [snd] in *; [apply Hk|]; assumption.
Qed.

(** *** The slot of an instance *)

Lemma slot_known f inst w d s i :
  descrs w !! f = Some d -> nices w !! inst = Some s ->
  index s !! varname d = Some i -> slot f inst w = (Ok i, w).
Proof.
  intros Hd Hs Hi. unfold slot, lbind, get_descr, get_nice.
  rewrite Hd. cbn. rewrite Hs. cbn. rewrite Hi. reflexivity.
Qed.

Lemma slot_new f inst w d s :
  descrs w !! f = Some d -> nices w !! inst = Some s ->
  index s !! varname d = None ->
  slot f inst w
  = (Ok (length (value d)),
     mk_world (<[f := mk_descr (value d ++ [PNone]) (varname d)]> (descrs w)) (strs w)
              (<[inst := mk_nice (text s) (parent s) (range s)
                                 (<[varname d := length (value d)]> (index s))]>
                 (nices w))).
Proof.
  intros Hd Hs Hi. unfold slot, lbind, get_descr, get_nice.
  rewrite Hd. cbn. rewrite Hs. cbn. rewrite Hi. reflexivity.
Qed.

Lemma slot_fails f inst w :
  descrs w !! f = None \/ nices w !! inst = None ->
  slot f inst w = (Raise AttributeError, w).
Proof.
  intros H. unfold slot, lbind, get_descr, get_nice.
  destruct (descrs w !! f) as [d|]; cbn; [|reflexivity].
  destruct H as [H|H]; [discriminate|]. rewrite H. reflexivity.
Qed.

(** After [slot] the instance has its slot. *)
Lemma slot_Ok f inst w i w1 :
  slot f inst w = (Ok i, w1) ->
  exists d s, descrs w1 !! f = Some d /\ nices w1 !! inst = Some s
              /\ index s !! varname d = Some i /\ strs w1 = strs w.
Proof.
  intros H.
  destruct (descrs w !! f) as [d|] eqn:Hd;
    [|rewrite slot_fails in H by auto; discriminate].
  destruct (nices w !! inst) as [s|] eqn:Hs;
    [|rewrite slot_fails in H by auto; discriminate].
  destruct (index s !! varname d) as [j|] eqn:Hi.
  - rewrite (slot_known _ _ _ _ _ _ Hd Hs Hi) in H. injection H as <- <-. eauto 10.
  - rewrite (slot_new _ _ _ _ _ Hd Hs Hi) in H. injection H as <- <-.
    eexists _, _. cbn [descrs nices strs].
    split; [apply lookup_insert_eq|]. split; [apply lookup_insert_eq|].
    cbn [index varname]. split; [apply lookup_insert_eq|reflexivity].
Qed.

(** *** Reading *)

Lemma descr_get_reading f inst w : fst (descr_get f inst w) = reading f inst w.
Proof.
  unfold reading.
  destruct (descrs w !! f) as [d|] eqn:Hd;
    [|unfold descr_get, lbind; rewrite slot_fails by auto; reflexivity].
  destruct (nices w !! inst) as [s|] eqn:Hs;
    [|unfold descr_get, lbind; rewrite slot_fails by auto; reflexivity].
  unfold descr_get, lbind.
  destruct (index s !! varname d) as [j|] eqn:Hi.
  - rewrite (slot_known _ _ _ _ _ _ Hd Hs Hi). unfold get_descr. rewrite Hd. cbn.
    destruct (value d !! j) as [v|]; cbn; [|reflexivity].
    destruct v; try reflexivity.
    unfold lbind, get_nice. rewrite Hs. cbn. unfold strings_getattr, lbind, get_dict.
    destruct (strs w !! parent s) as [dict|]; cbn; [|reflexivity].
    destruct (dict !! varname d); reflexivity.
  - rewrite (slot_new _ _ _ _ _ Hd Hs Hi). unfold get_descr. cbn [descrs].
    rewrite lookup_insert_eq. cbn [llift lret value].
    rewrite lookup_app_r, Nat.sub_diag by lia. cbn.
    unfold lbind, get_nice. cbn [nices]. rewrite lookup_insert_eq. cbn.
    unfold strings_getattr, lbind, get_dict. cbn [strs].
    destruct (strs w !! parent s) as [dict|]; cbn; [|reflexivity].
    destruct (dict !! varname d); reflexivity.
Qed.

(** X21. A value that was assigned is the value that is read, whatever the
    parent holds; after the assignment of [None] the attribute of the
    parent is read again. Reading then leaves all objects as they are. *)
Theorem nice_str_set_then_get f inst v w w1 :
  descr_set f inst v w = (Ok tt, w1) ->
  exists d s,
    descrs w1 !! f = Some d /\ nices w1 !! inst = Some s
    /\ descr_get f inst w1
       = match v with
         | PNone => strings_getattr (parent s) (varname d) w1
         | _ => (Ok v, w1)
         end.
Proof.
  intros H. unfold descr_set in H.
  apply lbind_Ok_inv in H as (i & wa & Hslot & H).
  apply slot_Ok in Hslot as (d & s & Hd & Hs & Hi & _).
  apply lbind_Ok_inv in H as (d' & wb & Hg & H).
  unfold get_descr in Hg. rewrite Hd in Hg. cbn in Hg. injection Hg as <- <-.
  destruct (i <? length (value d))%nat eqn:Hlt; [|discriminate].
  apply Nat.ltb_lt in Hlt. unfold put_descr in H. injection H as <-.
  eexists _, s. cbn [descrs nices]. rewrite lookup_insert_eq.
  split; [reflexivity|]. split; [exact Hs|].
  unfold descr_get, lbind.
  erewrite slot_known; cycle 1.
  { cbn [descrs]. apply lookup_insert_eq. }
  { cbn [nices]. exact Hs. }
  { cbn [varname]. exact Hi. }
  unfold get_descr. cbn [descrs]. rewrite lookup_insert_eq. cbn [llift lret value].
  rewrite list_lookup_insert_eq by exact Hlt. cbn [llift lret].
  destruct v; try reflexivity.
  unfold lbind, get_nice. cbn [nices]. rewrite Hs. reflexivity.
Qed.

(** *** Assignments are local *)

Lemma descr_set_Ok f a v w w1 :
  descr_set f a v w = (Ok tt, w1) ->
  exists d s, descrs w !! f = Some d /\ nices w !! a = Some s
    /\ match index s !! varname d with
       | Some i =>
           i < length (value d)
           /\ w1 = mk_world (<[f := mk_descr (<[i := v]> (value d)) (varname d)]> (descrs w))
                            (strs w) (nices w)
       | None =>
           w1 = mk_world (<[f := mk_descr (value d ++ [v]) (varname d)]> (descrs w))
                         (strs w)
                         (<[a := mk_nice (text s) (parent s) (range s)
                                         (<[varname d := length (value d)]> (index s))]>
                            (nices w))
       end.
Proof.
  intros H.
  destruct (descrs w !! f) as [d|] eqn:Hd;
    [|unfold descr_set, lbind in H; rewrite slot_fails in H by auto; discriminate].
  destruct (nices w !! a) as [s|] eqn:Hs;
    [|unfold descr_set, lbind in H; rewrite slot_fails in H by auto; discriminate].
  exists d, s. split; [reflexivity|]. split; [reflexivity|].
  unfold descr_set, lbind in H.
  destruct (index s !! varname d) as [i|] eqn:Hi.
  - rewrite (slot_known _ _ _ _ _ _ Hd Hs Hi) in H. unfold get_descr in H.
    rewrite Hd in H. cbn [llift lret] in H.
    destruct (i <? length (value d))%nat eqn:Hlt; [|discriminate].
    apply Nat.ltb_lt in Hlt. unfold put_descr in H. injection H as <-. auto.
  - rewrite (slot_new _ _ _ _ _ Hd Hs Hi) in H. unfold get_descr in H.
    cbn [descrs] in H. rewrite lookup_insert_eq in H. cbn [llift lret value] in H.
    rewrite length_app, Nat.add_1_r in H.
    replace (length (value d) <? S (length (value d)))%nat with true in H
      by (symmetry; apply Nat.ltb_lt; lia).
    unfold put_descr in H. cbn [descrs strs nices varname] in H. injection H as <-.
    rewrite insert_insert_eq. do 3 f_equal.
    rewrite insert_app_r_alt, Nat.sub_diag by lia. reflexivity.
Qed.

(** X22. An assignment to the attribute [f] of the instance [a] changes
    what is read for no other instance and no other attribute, as long
    as the slots are consistent. *)
Theorem nice_str_set_is_local f a v g b w w1 :
  consistent w -> a <> b \/ f <> g ->
  descr_set f a v w = (Ok tt, w1) ->
  fst (descr_get g b w1) = fst (descr_get g b w).
Proof.
  intros (Hname & Hin & Hsep) Hne H. rewrite !descr_get_reading.
  apply descr_set_Ok in H as (d & s & Hd & Hs & H).
  pose proof (Hname _ _ Hd) as Hvar. unfold reading.
  destruct (index s !! varname d) as [i|] eqn:Hi.
  - destruct H as [Hlt ->]. cbn [descrs nices strs].
    destruct (decide (g = f)) as [->|Hgf].
    + rewrite lookup_insert_eq, Hd. cbn [value varname].
      destruct Hne as [Hab|Hff]; [|congruence].
      destruct (nices w !! b) as [t|] eqn:Ht; [|reflexivity].
      destruct (index t !! varname d) as [j|] eqn:Hj; [|reflexivity].
      rewrite list_lookup_insert_ne; [reflexivity|].
      intros <-. rewrite Hvar in Hi, Hj. exact (Hsep _ _ _ _ _ _ Hab Hs Ht Hi Hj).
    + rewrite lookup_insert_ne by congruence. reflexivity.
  - subst w1. cbn [descrs nices strs].
    destruct (decide (g = f)) as [->|Hgf].
    + rewrite lookup_insert_eq, Hd. cbn [value varname].
      destruct Hne as [Hab|Hff]; [|congruence].
      rewrite lookup_insert_ne by congruence.
      destruct (nices w !! b) as [t|] eqn:Ht; [|reflexivity].
      destruct (index t !! varname d) as [j|] eqn:Hj; [|reflexivity].
      rewrite Hvar in Hj. pose proof (Hin _ _ _ _ _ Hd Ht Hj) as Hlt.
      rewrite lookup_app_l by exact Hlt. reflexivity.
    + rewrite lookup_insert_ne by congruence.
      destruct (descrs w !! g) as [dg|] eqn:Hdg; [|reflexivity].
      pose proof (Hname _ _ Hdg) as Hvg.
      destruct (decide (b = a)) as [->|Hba].
      * rewrite lookup_insert_eq, Hs. cbn [index parent].
        rewrite lookup_insert_ne by congruence. reflexivity.
      * rewrite lookup_insert_ne by congruence. reflexivity.
Qed.

(** *** The slots stay consistent *)

Lemma consistent_loaded : consistent loaded.
Proof.
  split; [|split].
  - intros f d H. unfold loaded in H. cbn [descrs] in H.
    apply elem_of_list_to_map_2 in H. apply list_elem_of_In in H. cbn in H.
    destruct H as [[= <- <-]|[[= <- <-]|[[= <- <-]|[]]]]; reflexivity.
  - intros f d a s i _ H. cbn in H. rewrite lookup_empty in H. discriminate.
  - intros f a b s t i _ H. cbn in H. rewrite lookup_empty in H. discriminate.
Qed.

Lemma consistent_dict w D : consistent w -> consistent (mk_world (descrs w) D (nices w)).
Proof. intros H. exact H. Qed.

Lemma consistent_new w v p l :
  nices w !! l = None -> consistent w ->
  consistent (mk_world (descrs w) (strs w) (<[l := mk_nice v p false ∅]> (nices w))).
Proof.
  intros Hl (Hname & Hin & Hsep). split; [|split]; cbn [descrs nices].
  - exact Hname.
  - intros f d a s i Hd Hs Hi. destruct (decide (a = l)) as [->|Hal].
    + rewrite lookup_insert_eq in Hs. injection Hs as <-. cbn in Hi.
      rewrite lookup_empty in Hi. discriminate.
    + rewrite lookup_insert_ne in Hs by congruence. eauto.
  - intros f a b s t i Hab Hs Ht Hi. destruct (decide (a = l)) as [->|Hal].
    + rewrite lookup_insert_eq in Hs. injection Hs as <-. cbn in Hi.
      rewrite lookup_empty in Hi. discriminate.
    + rewrite lookup_insert_ne in Hs by congruence.
      destruct (decide (b = l)) as [->|Hbl].
      * rewrite lookup_insert_eq in Ht. injection Ht as <-. cbn.
        rewrite lookup_empty. discriminate.
      * rewrite lookup_insert_ne in Ht by congruence. eauto.
Qed.

Lemma consistent_store w f d i v :
  descrs w !! f = Some d -> consistent w ->
  consistent (mk_world (<[f := mk_descr (<[i := v]> (value d)) (varname d)]> (descrs w))
                       (strs w) (nices w)).
Proof.
  intros Hd (Hname & Hin & Hsep). split; [|split]; cbn [descrs nices].
  - intros g dg Hg. destruct (decide (g = f)) as [->|Hgf].
    + rewrite lookup_insert_eq in Hg. injection Hg as <-. cbn. eauto.
    + rewrite lookup_insert_ne in Hg by congruence. eauto.
  - intros g dg a s j Hg Hs Hj. destruct (decide (g = f)) as [->|Hgf].
    + rewrite lookup_insert_eq in Hg. injection Hg as <-. cbn [value].
      rewrite length_insert. eauto.
    + rewrite lookup_insert_ne in Hg by congruence. eauto.
  - exact Hsep.
Qed.

Lemma consistent_slot w f a d s :
  descrs w !! f = Some d -> nices w !! a = Some s -> index s !! varname d = None ->
  consistent w ->
  consistent (mk_world (<[f := mk_descr (value d ++ [PNone]) (varname d)]> (descrs w))
                       (strs w)
                       (<[a := mk_nice (text s) (parent s) (range s)
                                       (<[varname d := length (value d)]> (index s))]>
                          (nices w))).
Proof.
  intros Hd Hs Hi (Hname & Hin & Hsep). pose proof (Hname _ _ Hd) as Hvar.
  rewrite Hvar in *.
  split; [|split]; cbn [descrs nices].
  - intros g dg Hg. destruct (decide (g = f)) as [->|Hgf].
    + rewrite lookup_insert_eq in Hg. injection Hg as <-. reflexivity.
    + rewrite lookup_insert_ne in Hg by congruence. eauto.
  - intros g dg b t j Hg Ht Hj.
    destruct (decide (g = f)) as [->|Hgf].
    + rewrite lookup_insert_eq in Hg. injection Hg as <-. cbn [value].
      rewrite length_app, Nat.add_1_r.
      destruct (decide (b = a)) as [->|Hba].
      * rewrite lookup_insert_eq in Ht. injection Ht as <-. cbn [index] in Hj.
        rewrite lookup_insert_eq in Hj. injection Hj as <-. lia.
      * rewrite lookup_insert_ne in Ht by congruence.
        pose proof (Hin _ _ _ _ _ Hd Ht Hj). lia.
    + rewrite lookup_insert_ne in Hg by congruence.
      destruct (decide (b = a)) as [->|Hba].
      * rewrite lookup_insert_eq in Ht. injection Ht as <-. cbn [index] in Hj.
        rewrite lookup_insert_ne in Hj by congruence. eauto.
      * rewrite lookup_insert_ne in Ht by congruence. eauto.
  - intros g b c t u j Hbc Ht Hu Hj.
    destruct (decide (b = a)) as [->|Hba].
    + rewrite lookup_insert_eq in Ht. injection Ht as <-. cbn [index] in Hj.
      rewrite lookup_insert_ne in Hu by congruence.
      destruct (decide (g = f)) as [->|Hgf].
      * rewrite lookup_insert_eq in Hj. injection Hj as <-.
        intros Hc. pose proof (Hin _ _ _ _ _ Hd Hu Hc). lia.
      * rewrite lookup_insert_ne in Hj by congruence. eauto.
    + rewrite lookup_insert_ne in Ht by congruence.
      destruct (decide (c = a)) as [->|Hca].
      * rewrite lookup_insert_eq in Hu. injection Hu as <-. cbn [index].
        destruct (decide (g = f)) as [->|Hgf].
        -- rewrite lookup_insert_eq. intros [= <-].
           pose proof (Hin _ _ _ _ _ Hd Ht Hj). lia.
        -- rewrite lookup_insert_ne by congruence. eauto.
      * rewrite lookup_insert_ne in Hu by congruence. eauto.
Qed.

Lemma slot_keeps f a w : consistent w -> consistent (snd (slot f a w)).
Proof.
  intros Hw.
  destruct (descrs w !! f) as [d|] eqn:Hd; [|rewrite slot_fails by auto; exact Hw].
  destruct (nices w !! a) as [s|] eqn:Hs; [|rewrite slot_fails by auto; exact Hw].
  destruct (index s !! varname d) as [i|] eqn:Hi.
  - rewrite (slot_known _ _ _ _ _ _ Hd Hs Hi). exact Hw.
  - rewrite (slot_new _ _ _ _ _ Hd Hs Hi). apply consistent_slot; assumption.
Qed.

Lemma strings_getattr_keeps o n w : snd (strings_getattr o n w) = w.
Proof.
  unfold strings_getattr, lbind, get_dict.
  destruct (strs w !! o) as [d|]; cbn; [|reflexivity]. destruct (d !! n); reflexivity.
Qed.

Lemma descr_get_keeps f a w : consistent w -> consistent (snd (descr_get f a w)).
Proof.
  intros Hw. unfold descr_get. apply lbind_keeps; [apply slot_keeps| |exact Hw].
  clear. intros i w Hw. unfold lbind, get_descr.
  destruct (descrs w !! f) as [d|]; cbn; [|exact Hw].
  destruct (value d !! i) as [v|]; cbn; [|exact Hw].
  destruct v; try exact Hw.
  unfold get_nice. destruct (nices w !! a) as [s|]; cbn; [|exact Hw].
  rewrite strings_getattr_keeps. exact Hw.
Qed.

Lemma descr_set_keeps f a v w : consistent w -> consistent (snd (descr_set f a v w)).
Proof.
  intros Hw. unfold descr_set. apply lbind_keeps; [apply slot_keeps| |exact Hw].
  clear. intros i w Hw. unfold lbind, get_descr.
  destruct (descrs w !! f) as [d|] eqn:Hd; cbn [llift lret lraise snd]; [|exact Hw].
  destruct (i <? length (value d))%nat; [|exact Hw].
  unfold put_descr. cbn [snd]. apply consistent_store; assumption.
Qed.

Lemma strings_setattr_keeps o n v w :
  consistent w -> consistent (snd (strings_setattr o n v w)).
Proof.
  intros Hw. unfold strings_setattr. destruct (bool_decide (n ∈ plain)).
  - unfold lbind, get_dict. destruct (strs w !! o); cbn; exact Hw.
  - unfold lbind, nice_init, get_dict. cbn [strs].
    assert (Hnew : consistent (mk_world (descrs w) (strs w)
                     (<[fresh (dom (nices w)) := mk_nice v o false ∅]> (nices w)))).
    { apply consistent_new; [|exact Hw]. apply not_elem_of_dom, is_fresh. }
    destruct (strs w !! o); cbn; exact Hnew.
Qed.

Lemma strings_init_keeps u i n w : consistent w -> consistent (snd (strings_init u i n w)).
Proof.
  intros Hw. unfold strings_init.
  apply lbind_keeps; [| |exact Hw].
  - clear. intros w Hw. exact Hw.
  - clear. intros self w Hw.
    repeat (apply lbind_keeps; [intros; apply strings_setattr_keeps; assumption| |exact Hw];
            clear w Hw; intros _ w Hw).
    exact Hw.
Qed.

Lemma plus_one_keeps x w : snd (plus_one x w) = w.
Proof. destruct x; reflexivity. Qed.

Lemma underscore_keeps x w : snd (underscore x w) = w.
Proof. destruct x; reflexivity. Qed.

Lemma strings_call_keeps o t w : consistent w -> consistent (snd (strings_call o t w)).
Proof.
  intros Hw. unfold strings_call.
  repeat first
    [ apply lbind_keeps;
      [ clear; intros w Hw;
        first [ rewrite strings_getattr_keeps; exact Hw
              | rewrite plus_one_keeps; exact Hw
              | rewrite underscore_keeps; exact Hw
              | apply strings_setattr_keeps; exact Hw ]
      | clear w Hw; intros ? w Hw
      | exact Hw ]
    | rewrite strings_getattr_keeps; exact Hw ].
Qed.

(** X23. The operations of the three classes keep the slots consistent,
    whether they return or raise; the slots are consistent when the
    module is loaded. *)
Theorem label_slots_stay_consistent w :
  consistent w ->
  (forall f a, consistent (snd (descr_get f a w)))
  /\ (forall f a v, consistent (snd (descr_set f a v w)))
  /\ (forall o n v, consistent (snd (strings_setattr o n v w)))
  /\ (forall u i n, consistent (snd (strings_init u i n w)))
  /\ (forall o t, consistent (snd (strings_call o t w))).
Proof.
  intros Hw. split; [|split; [|split; [|split]]]; intros.
  - apply descr_get_keeps, Hw.
  - apply descr_set_keeps, Hw.
  - apply strings_setattr_keeps, Hw.
  - apply strings_init_keeps, Hw.
  - apply strings_call_keeps, Hw.
Qed.

(** *** Labels made by a [Strings] object *)

Lemma pretty_N_go_head x s :
  (0 < x)%N -> exists k t, pretty_N_go x s = String (pretty_N_char k) t.
Proof.
  revert s. induction (N.lt_wf_0 x) as [x _ IH]. intros s Hx.
  rewrite pretty_N_go_step by exact Hx.
  destruct (decide (x `div` 10 = 0)%N) as [E|E].
  - rewrite E, pretty_N_go_0. eauto.
  - apply IH; [apply N.div_lt; [exact Hx|reflexivity]|].
    apply N.neq_0_lt_0. exact E.
Qed.

Lemma pretty_Z_not_index (z : Z) : pretty z <> "index"%string.
Proof.
  destruct z as [|p|p]; [discriminate| |discriminate].
  unfold pretty, pretty_Z, pretty, pretty_positive, pretty, pretty_N.
  destruct (decide (N.pos p = 0%N)); [discriminate|].
  destruct (pretty_N_go_head (N.pos p) "" eq_refl) as (k & t & ->).
  unfold pretty_N_char. repeat case_match; discriminate.
Qed.

Lemma underscore_name_fresh (z : Z) : ("_" +:+ pretty z)%string ∉ plain.
Proof.
  unfold plain. rewrite !elem_of_cons, elem_of_nil.
  intros [H|[H|[H|[H|[]]]]]; try discriminate H.
  injection H as H. exact (pretty_Z_not_index z H).
Qed.

Lemma strings_setattr_plain o n v w dict :
  n ∈ plain -> strs w !! o = Some dict ->
  strings_setattr o n v w
  = (Ok tt, mk_world (descrs w) (<[o := <[n := v]> dict]> (strs w)) (nices w)).
Proof.
  intros Hn Ho. unfold strings_setattr. rewrite bool_decide_eq_true_2 by exact Hn.
  unfold lbind, get_dict. rewrite Ho. reflexivity.
Qed.

Lemma strings_setattr_label o n v w dict :
  n ∉ plain -> strs w !! o = Some dict ->
  strings_setattr o n v w
  = (Ok tt, mk_world (descrs w) (<[o := <[n := PRef (fresh (dom (nices w)))]> dict]> (strs w))
                     (<[fresh (dom (nices w)) := mk_nice v o false ∅]> (nices w))).
Proof.
  intros Hn Ho. unfold strings_setattr. rewrite bool_decide_eq_false_2 by exact Hn.
  unfold lbind, nice_init, get_dict. cbn [strs]. rewrite Ho. reflexivity.
Qed.

Lemma strings_getattr_Ok o n w dict v :
  strs w !! o = Some dict -> dict !! n = Some v -> strings_getattr o n w = (Ok v, w).
Proof.
  intros Ho Hn. unfold strings_getattr, lbind, get_dict. rewrite Ho. cbn. rewrite Hn.
  reflexivity.
Qed.

(** What a call of a [Strings] object does when it returns: the counter
    goes up by one, and the result is a new [NiceStr] object without
    slots, whose parent is the [Strings] object. *)
Lemma strings_call_Ok o t w r w1 :
  strings_call o t w = (Ok r, w1) ->
  exists dict z,
    strs w !! o = Some dict
    /\ r = PRef (fresh (dom (nices w)))
    /\ w1 = mk_world (descrs w)
              (<[o := <[("_" +:+ pretty z)%string := PRef (fresh (dom (nices w)))]>
                        (<["_index"%string := PInt z]> dict)]> (strs w))
              (<[fresh (dom (nices w)) := mk_nice t o false ∅]> (nices w)).
Proof.
  intros H. unfold strings_call in H.
  apply lbind_Ok_inv in H as (k & wa & Hk & H).
  unfold strings_getattr, lbind, get_dict in Hk.
  destruct (strs w !! o) as [dict|] eqn:Ho; [|discriminate]. cbn in Hk.
  destruct (dict !! "_index"%string) as [k0|] eqn:Hi; [|discriminate].
  cbn in Hk. injection Hk as Hk0 <-.
  apply lbind_Ok_inv in H as (k1 & wa & Hk & H).
  assert (exists z, k1 = PInt z /\ wa = w) as (z & -> & ->).
  { destruct k; try discriminate; cbn in Hk; injection Hk as <- <-; eauto. }
  clear Hk. exists dict, z. split; [reflexivity|].
  unfold lbind in H.
  rewrite (strings_setattr_plain o "_index" (PInt z) w dict) in H;
    [|unfold plain; set_solver|exact Ho].
  set (d1 := <["_index"%string := PInt z]> dict) in *.
  set (w1' := mk_world _ _ _) in H.
  assert (Ho1 : strs w1' !! o = Some d1) by apply lookup_insert_eq.
  assert (Hi1 : d1 !! "_index"%string = Some (PInt z)) by apply lookup_insert_eq.
  rewrite (strings_getattr_Ok _ _ _ _ _ Ho1 Hi1) in H. cbn [underscore lret] in H.
  rewrite (strings_setattr_label o _ t w1' d1 (underscore_name_fresh z) Ho1) in H.
  set (nm := ("_" +:+ pretty z)%string) in *.
  set (w2 := mk_world _ _ _) in H.
  assert (Ho2 : strs w2 !! o = Some (<[nm := PRef (fresh (dom (nices w)))]> d1))
    by apply lookup_insert_eq.
  assert (Hi2 : <[nm := PRef (fresh (dom (nices w)))]> d1 !! "_index"%string
                = Some (PInt z)).
  { rewrite lookup_insert_ne; [exact Hi1|].
    intros E. apply (underscore_name_fresh z). fold nm. rewrite E.
    unfold plain. set_solver. }
  rewrite (strings_getattr_Ok _ _ _ _ _ Ho2 Hi2) in H. cbn [underscore lret] in H.
  fold nm in H.
  rewrite (strings_getattr_Ok _ _ _ _ _ Ho2 (lookup_insert_eq _ _ _)) in H.
  injection H as <- <-. split; [reflexivity|].
  unfold w2, w1'. cbn [descrs strs nices]. rewrite insert_insert_eq. reflexivity.
Qed.

(** X24. A label that has no value of its own reads the attribute of the
    [Strings] object that made it, as that object is at the time of the
    reading: a later assignment to the object shows in the label. *)
Theorem nice_str_follows_parent w o t f v d r w1 w2 :
  descrs w !! f = Some d -> varname d = f -> f ∈ plain ->
  strings_call o t w = (Ok r, w1) ->
  strings_setattr o f v w1 = (Ok tt, w2) ->
  exists s, r = PRef s /\ fst (descr_get f s w2) = Ok v.
Proof.
  intros Hd Hvar Hf Hcall Hset.
  apply strings_call_Ok in Hcall as (dict & z & Ho & -> & ->).
  eexists. split; [reflexivity|].
  erewrite strings_setattr_plain in Hset; [|exact Hf|apply lookup_insert_eq].
  injection Hset as <-. rewrite descr_get_reading. unfold reading.
  cbn [descrs nices strs]. rewrite Hd, lookup_insert_eq. cbn [index parent].
  rewrite lookup_empty, insert_insert_eq, lookup_insert_eq, Hvar, lookup_insert_eq.
  reflexivity.
Qed.

(** X25. A [Strings] object can always be made and called, and the label
    it makes first reads [no_prefix] as [False], whatever was given for
    [no_prefix] when the object was made. *)
Theorem new_strings_no_prefix_is_false w d (u i n t : pyval) :
  descrs w !! "no_prefix"%string = Some d -> varname d = "no_prefix"%string ->
  exists o w1 s w2,
    strings_init u i n w = (Ok o, w1)
    /\ strings_call o t w1 = (Ok (PRef s), w2)
    /\ fst (descr_get "no_prefix" s w2) = Ok (PBool false).
Proof.
  intros Hd Hvar.
  set (o := fresh (dom (strs w))).
  set (dict := <["_index"%string := PInt (-1)]>
                 (<["no_prefix"%string := PBool false]>
                    (<["include_space"%string := i]>
                       (<["unit"%string := u]> (∅ : gmap string pyval))))).
  set (w1 := mk_world (descrs w) (<[o := dict]> (strs w)) (nices w)).
  assert (Hinit : strings_init u i n w = (Ok o, w1)).
  { unfold strings_init, lbind. fold o.
    erewrite strings_setattr_plain; [|unfold plain; set_solver|apply lookup_insert_eq].
    cbn [descrs strs nices]. rewrite insert_insert_eq.
    erewrite strings_setattr_plain; [|unfold plain; set_solver|apply lookup_insert_eq].
    cbn [descrs strs nices]. rewrite insert_insert_eq.
    erewrite strings_setattr_plain; [|unfold plain; set_solver|apply lookup_insert_eq].
    cbn [descrs strs nices]. rewrite insert_insert_eq.
    erewrite strings_setattr_plain; [|unfold plain; set_solver|apply lookup_insert_eq].
    cbn [descrs strs nices]. rewrite insert_insert_eq. reflexivity. }
  set (s := fresh (dom (nices w))).
  set (w2 := mk_world (descrs w)
               (<[o := <["_0"%string := PRef s]> (<["_index"%string := PInt 0]> dict)]>
                  (strs w))
               (<[s := mk_nice t o false ∅]> (nices w))).
  assert (Hcall : strings_call o t w1 = (Ok (PRef s), w2)).
  { unfold strings_call, lbind.
    assert (Ho1 : strs w1 !! o = Some dict) by apply lookup_insert_eq.
    rewrite (strings_getattr_Ok o "_index" w1 dict (PInt (-1)) Ho1 (lookup_insert_eq _ _ _)).
    cbn [plus_one lret]. change (-1 + 1)%Z with 0%Z.
    rewrite (strings_setattr_plain o "_index" (PInt 0) w1 dict);
      [|unfold plain; set_solver|exact Ho1].
    set (d1 := <["_index"%string := PInt 0]> dict).
    set (wa := mk_world _ _ _).
    assert (Hoa : strs wa !! o = Some d1) by apply lookup_insert_eq.
    rewrite (strings_getattr_Ok o "_index" wa d1 (PInt 0) Hoa (lookup_insert_eq _ _ _)).
    cbn [underscore lret].
    rewrite (strings_setattr_label o _ t wa d1 (underscore_name_fresh 0) Hoa).
    change ("_" +:+ pretty 0%Z)%string with "_0"%string.
    set (wb := mk_world _ _ _).
    assert (Hob : strs wb !! o = Some (<["_0"%string := PRef s]> d1))
      by apply lookup_insert_eq.
    rewrite (strings_getattr_Ok o "_index" wb _ (PInt 0) Hob);
      [|rewrite lookup_insert_ne by discriminate; apply lookup_insert_eq].
    cbn [underscore lret]. change ("_" +:+ pretty 0%Z)%string with "_0"%string.
    rewrite (strings_getattr_Ok o "_0" wb _ (PRef s) Hob (lookup_insert_eq _ _ _)).
    unfold wb, wa, w2, w1. cbn [descrs strs nices]. rewrite !insert_insert_eq.
    reflexivity. }
  exists o, w1, s, w2. split; [exact Hinit|]. split; [exact Hcall|].
  rewrite descr_get_reading. unfold reading, w2. cbn [descrs nices strs].
  rewrite Hd, lookup_insert_eq. cbn [index parent].
  rewrite lookup_empty, lookup_insert_eq, Hvar.
  rewrite !lookup_insert_ne by discriminate. unfold dict.
  rewrite lookup_insert_ne by discriminate. rewrite lookup_insert_eq. reflexivity.
Qed.

Lemma nice_str_set_then_get_witness :
  exists d s,
    descrs (snd (descr_set "unit" 1%positive (PStr "Hz") two_labels)) !! "unit"%string
    = Some d
    /\ nices (snd (descr_set "unit" 1%positive (PStr "Hz") two_labels)) !! 1%positive
       = Some s
    /\ descr_get "unit" 1%positive (snd (descr_set "unit" 1%positive (PStr "Hz") two_labels))
       = (Ok (PStr "Hz"), snd (descr_set "unit" 1%positive (PStr "Hz") two_labels)).
Proof.
  apply (nice_str_set_then_get "unit" 1%positive (PStr "Hz") two_labels).
  vm_compute. reflexivity.
Defined.

Lemma nice_str_set_is_local_witness :
  fst (descr_get "unit" 2%positive
         (snd (descr_set "unit" 1%positive (PStr "Hz") two_labels)))
  = fst (descr_get "unit" 2%positive two_labels).
Proof.
  apply (nice_str_set_is_local "unit" 1%positive (PStr "Hz") "unit" 2%positive two_labels).
  - apply strings_call_keeps, strings_call_keeps, strings_init_keeps, consistent_loaded.
  - left. discriminate.
  - vm_compute. reflexivity.
Defined.

Lemma label_slots_stay_consistent_witness :
  (forall f a, consistent (snd (descr_get f a loaded)))
  /\ (forall f a v, consistent (snd (descr_set f a v loaded)))
  /\ (forall o n v, consistent (snd (strings_setattr o n v loaded)))
  /\ (forall u i n, consistent (snd (strings_init u i n loaded)))
  /\ (forall o t, consistent (snd (strings_call o t loaded))).
Proof. apply (label_slots_stay_consistent loaded), consistent_loaded. Defined.

Lemma nice_str_follows_parent_witness :
  exists s,
    fst (strings_call 1%positive (PStr "a") one_strings) = Ok (PRef s)
    /\ fst (descr_get "unit" s
              (snd (strings_setattr 1%positive "unit" (PStr "Hz")
                      (snd (strings_call 1%positive (PStr "a") one_strings)))))
       = Ok (PStr "Hz").
Proof.
  destruct (nice_str_follows_parent one_strings 1%positive (PStr "a") "unit" (PStr "Hz")
              (Default2Parent "unit") (PRef 1%positive)
              (snd (strings_call 1%positive (PStr "a") one_strings))
              (snd (strings_setattr 1%positive "unit" (PStr "Hz")
                      (snd (strings_call 1%positive (PStr "a") one_strings)))))
    as (s & Hs & Hget).
  - vm_compute. reflexivity.
  - reflexivity.
  - unfold plain. apply list_elem_of_In. left. reflexivity.
  - vm_compute. reflexivity.
  - vm_compute. reflexivity.
  - exists s. split; [|exact Hget]. rewrite <- Hs. vm_compute. reflexivity.
Defined.

Lemma new_strings_no_prefix_is_false_witness :
  exists o w1 s w2,
    strings_init PNone (PBool true) (PBool true) loaded = (Ok o, w1)
    /\ strings_call o (PStr "a") w1 = (Ok (PRef s), w2)
    /\ fst (descr_get "no_prefix" s w2) = Ok (PBool false).
Proof.
  apply (new_strings_no_prefix_is_false loaded (Default2Parent "no_prefix")).
  - vm_compute. reflexivity.
  - reflexivity.
Defined.

End LabelFacts.

